(** * Command buffers of the Unified Runtime adapters (OpenCL and HIP)

    A shallow embedding of [source/adapters/opencl/command_buffer.cpp] and
    [source/adapters/hip/command_buffer.cpp], and the properties of the
    command-buffer subsystem proved on it; with them, the context of
    [source/adapters/hip/context.hpp] and the asynchronous allocation of
    [source/adapters/cuda/async_alloc.cpp].

    Conventions of the embedding.
    - An object reached through a pointer lives in a store indexed by its
      address ([positive]); [delete] removes it.  A function that touches an
      object that is no longer in the store, divides by zero or dereferences a
      null pointer has no defined result: it returns [None].
    - A [uint32_t] counter is a [Z] with its wrap-around written out.
    - What the native driver and the other parts of the adapter answer is
      not decided by these two files: the answers are the fields of a driver
      record, and the OpenCL calls the adapter issues are recorded in the
      state. *)

From Stdlib Require Import ZArith List Lia Bool.
From stdpp Require Import base option list gmap.

Open Scope Z_scope.

(** ** Result codes (the ones the two files return) *)

Inductive ur_result_t : Type :=
  | UR_RESULT_SUCCESS
  | UR_RESULT_ERROR_INVALID_OPERATION
  | UR_RESULT_ERROR_INVALID_VALUE
  | UR_RESULT_ERROR_INVALID_SIZE
  | UR_RESULT_ERROR_INVALID_KERNEL
  | UR_RESULT_ERROR_INVALID_WORK_DIMENSION
  | UR_RESULT_ERROR_INVALID_ENUMERATION
  | UR_RESULT_ERROR_INVALID_DEVICE
  | UR_RESULT_ERROR_UNSUPPORTED_FEATURE
  | UR_RESULT_ERROR_OUT_OF_RESOURCES
  | UR_RESULT_ERROR_OUT_OF_HOST_MEMORY
  | UR_RESULT_ERROR_ADAPTER_SPECIFIC
  | UR_RESULT_ERROR_UNKNOWN
  | UR_RESULT_ERROR_NATIVE (code : Z).

Global Instance ur_result_eq_dec : EqDecision ur_result_t.
Proof. solve_decision. Defined.

(** ** 32-bit counters

    [std::atomic_uint32_t] with [++] and [--]: the accessors of the command
    buffer are declared in [command_buffer.hpp]; they follow the ones of
    [ur_context_handle_t_] in [hip/context.hpp],
    [uint32_t incrementReferenceCount() noexcept { return ++RefCount; }]. *)

Definition UINT32_MOD : Z := 2 ^ 32.

Definition inc32 (x : Z) : Z := (x + 1) mod UINT32_MOD.
Definition dec32 (x : Z) : Z := (x - 1) mod UINT32_MOD.

(** * The OpenCL adapter *)

Module OpenCL.

(** ** Objects *)

(** [ur_exp_command_buffer_handle_t_]: the fields the source file reads and
    writes. *)
Record ur_exp_command_buffer_handle_t_ : Type := mk_command_buffer {
  hInternalQueue : Z;
  hContext : Z;
  CLCommandBuffer : Z;
  IsUpdatable : bool;
  IsFinalized : bool;
  CommandHandles : list positive;
  RefCountInternal : Z;
  RefCountExternal : Z
}.

(** [ur_exp_command_buffer_command_handle_t_]. *)
Record ur_exp_command_buffer_command_handle_t_ : Type := mk_command {
  hCommandBuffer : positive;
  CLMutableCommand : Z;
  WorkDim : Z;
  cmdRefCountInternal : Z;
  cmdRefCountExternal : Z
}.

Definition with_RefCountInternal (n : Z) (B : ur_exp_command_buffer_handle_t_) :=
  mk_command_buffer (hInternalQueue B) (hContext B) (CLCommandBuffer B)
    (IsUpdatable B) (IsFinalized B) (CommandHandles B) n (RefCountExternal B).

Definition with_RefCountExternal (n : Z) (B : ur_exp_command_buffer_handle_t_) :=
  mk_command_buffer (hInternalQueue B) (hContext B) (CLCommandBuffer B)
    (IsUpdatable B) (IsFinalized B) (CommandHandles B) (RefCountInternal B) n.

Definition with_IsFinalized (f : bool) (B : ur_exp_command_buffer_handle_t_) :=
  mk_command_buffer (hInternalQueue B) (hContext B) (CLCommandBuffer B)
    (IsUpdatable B) f (CommandHandles B) (RefCountInternal B)
    (RefCountExternal B).

Definition with_CommandHandles (l : list positive)
    (B : ur_exp_command_buffer_handle_t_) :=
  mk_command_buffer (hInternalQueue B) (hContext B) (CLCommandBuffer B)
    (IsUpdatable B) (IsFinalized B) l (RefCountInternal B)
    (RefCountExternal B).

Definition with_cmdRefCountInternal (n : Z)
    (C : ur_exp_command_buffer_command_handle_t_) :=
  mk_command (hCommandBuffer C) (CLMutableCommand C) (WorkDim C) n
    (cmdRefCountExternal C).

Definition with_cmdRefCountExternal (n : Z)
    (C : ur_exp_command_buffer_command_handle_t_) :=
  mk_command (hCommandBuffer C) (CLMutableCommand C) (WorkDim C)
    (cmdRefCountInternal C) n.

(** ** Calls into the native driver and into the queue entry points *)

Inductive ext_name : Type :=
  | CreateCommandBufferName
  | ReleaseCommandBufferName
  | FinalizeCommandBufferName
  | CommandNRRangeKernelName
  | CommandCopyBufferName
  | CommandCopyBufferRectName
  | CommandFillBufferName
  | EnqueueCommandBufferName
  | UpdateMutableCommandsName.

(** [cl_mutable_dispatch_arg_khr]: index, size, value. *)
Record cl_mutable_dispatch_arg_khr : Type := mk_arg {
  arg_index : Z;
  arg_size : Z;
  arg_value : Z
}.

(** [cl_mutable_dispatch_exec_info_khr]. *)
Record cl_mutable_dispatch_exec_info_khr : Type := mk_exec_info {
  param_name : Z;
  param_value_size : Z;
  param_value : Z
}.

(** [cl_mutable_dispatch_config_khr], without the structure type and the
    [next] pointer, which are constants. *)
Record cl_mutable_dispatch_config_khr : Type := mk_config {
  cfg_command : Z;
  cfg_arg_list : list cl_mutable_dispatch_arg_khr;
  cfg_arg_svm_list : list cl_mutable_dispatch_arg_khr;
  cfg_exec_info_list : list cl_mutable_dispatch_exec_info_khr;
  cfg_work_dim : Z;
  cfg_global_work_offset : list Z;
  cfg_global_work_size : list Z;
  cfg_local_work_size : list Z
}.

Inductive cl_call : Type :=
  | call_urQueueCreate (ctx dev : Z)
  | call_urQueueRelease (queue : Z)
  | call_clCreateCommandBufferKHR (queue : Z) (mutable_flag : bool)
  | call_clReleaseCommandBufferKHR (cb : Z)
  | call_clFinalizeCommandBufferKHR (cb : Z)
  | call_clCommandNDRangeKernelKHR (cb : Z) (updatable : bool) (kernel : Z)
      (workDim : Z) (goff gsize lsize : option (list Z)) (waits : list Z)
  | call_clCommandCopyBufferKHR (cb src dst srcOffset dstOffset size : Z)
      (waits : list Z)
  | call_clCommandCopyBufferRectKHR (cb src dst : Z)
      (srcOrigin dstOrigin region : list Z)
      (srcRowPitch srcSlicePitch dstRowPitch dstSlicePitch : Z)
      (waits : list Z)
  | call_clCommandFillBufferKHR (cb buffer : Z) (pattern : option (list Z))
      (patternSize offset size : Z) (waits : list Z)
  | call_clEnqueueCommandBufferKHR (queue cb : Z) (waits : list Z)
      (wantEvent : bool)
  | call_clUpdateMutableCommandsKHR (cb : Z)
      (config : cl_mutable_dispatch_config_khr).

(** ** State: the two stores and the calls issued so far *)

Record state : Type := mk_state {
  buffers : gmap positive ur_exp_command_buffer_handle_t_;
  commands : gmap positive ur_exp_command_buffer_command_handle_t_;
  trace : list cl_call
}.

Definition set_buffer (b : positive) (B : ur_exp_command_buffer_handle_t_)
    (s : state) : state :=
  mk_state (<[b := B]> (buffers s)) (commands s) (trace s).

Definition set_command (c : positive)
    (C : ur_exp_command_buffer_command_handle_t_) (s : state) : state :=
  mk_state (buffers s) (<[c := C]> (commands s)) (trace s).

Definition free_buffer (b : positive) (s : state) : state :=
  mk_state (delete b (buffers s)) (commands s) (trace s).

Definition free_command (c : positive) (s : state) : state :=
  mk_state (buffers s) (delete c (commands s)) (trace s).

Definition issue (call : cl_call) (s : state) : state :=
  mk_state (buffers s) (commands s) (trace s ++ [call]).

Definition CL_SUCCESS : Z := 0.

(** What a call leaves in an output slot such as [*phCommandBuffer]. *)
Inductive out_slot (A : Type) : Type :=
  | not_written
  | set_null
  | set_to (a : A).
Arguments not_written {A}.
Arguments set_null {A}.
Arguments set_to {A} a.

(** The result of an append: the code returned, the state, the sync point
    written to [*pSyncPoint] and the command handle written to
    [*phCommandHandle], when they are written. *)
Record append_result : Type := mk_append_result {
  app_code : ur_result_t;
  app_state : state;
  app_sync_point : option Z;
  app_command : option positive
}.

(** ** The update request

    [ur_exp_command_buffer_update_kernel_launch_desc_t] and the descriptors
    it points to.  A list stands for a pointer and its count; an optional
    value for a pointer that may be null. *)

Inductive ur_kernel_exec_info_t : Type :=
  | UR_KERNEL_EXEC_INFO_USM_INDIRECT_ACCESS
  | UR_KERNEL_EXEC_INFO_USM_PTRS
  | UR_KERNEL_EXEC_INFO_CACHE_CONFIG
  | UR_KERNEL_EXEC_INFO_OTHER (code : Z).

Record ur_exp_command_buffer_update_exec_info_desc_t : Type := mk_exec_desc {
  propName : ur_kernel_exec_info_t;
  propSize : Z;
  pNewExecInfo : Z
}.

Record ur_exp_command_buffer_update_pointer_arg_desc_t : Type := mk_ptr_desc {
  ptr_argIndex : Z;
  pNewPointerArg : option Z   (* the pointer stored at [pNewPointerArg] *)
}.

Record ur_exp_command_buffer_update_memobj_arg_desc_t : Type := mk_mem_desc {
  mem_argIndex : Z;
  hNewMemObjArg : Z
}.

Record ur_exp_command_buffer_update_value_arg_desc_t : Type := mk_val_desc {
  val_argIndex : Z;
  argSize : Z;
  pNewValueArg : Z
}.

Record ur_exp_command_buffer_update_kernel_launch_desc_t : Type := mk_update {
  pNewMemObjArgList : list ur_exp_command_buffer_update_memobj_arg_desc_t;
  pNewPointerArgList : list ur_exp_command_buffer_update_pointer_arg_desc_t;
  pNewValueArgList : list ur_exp_command_buffer_update_value_arg_desc_t;
  pNewExecInfoList : list ur_exp_command_buffer_update_exec_info_desc_t;
  newWorkDim : Z;
  pNewGlobalWorkOffset : option (list Z);
  pNewGlobalWorkSize : option (list Z);
  pNewLocalWorkSize : option (list Z)
}.

Definition CL_KERNEL_EXEC_INFO_INDIRECT_HOST_ACCESS_INTEL : Z := 0x4200.
Definition CL_KERNEL_EXEC_INFO_INDIRECT_DEVICE_ACCESS_INTEL : Z := 0x4201.
Definition CL_KERNEL_EXEC_INFO_INDIRECT_SHARED_ACCESS_INTEL : Z := 0x4202.
Definition CL_KERNEL_EXEC_INFO_USM_PTRS_INTEL : Z := 0x4203.

(** The address of the local [TrueVal] that the exec-info entries point to. *)
Definition addr_TrueVal : Z := -1.
Definition sizeof_cl_bool : Z := 4.
Definition sizeof_cl_mem : Z := 8.

(** The driver and the collaborators of the adapter. *)
Record cl_reply : Type := mk_reply {
  status : Z;          (* the [cl_int] returned *)
  out_handle : Z;      (* the handle written to the output slot, if any *)
  out_sync_point : Z   (* the sync point written to [pSyncPoint], if any *)
}.

Record cl_driver : Type := mk_driver {
  (** [cl_ext::getExtFuncFromContext]: [true] when it yields a non-null
      function pointer together with [CL_SUCCESS]. *)
  getExtFuncFromContext : Z -> ext_name -> bool;
  (** What a native call answers after the calls issued before it. *)
  cl_native : list cl_call -> cl_call -> cl_reply;
  (** [mapCLErrorToUR], defined in [common.cpp]. *)
  mapCLErrorToUR : Z -> ur_result_t;
  (** [urQueueCreate]: result and queue handle. *)
  urQueueCreate : list cl_call -> Z -> Z -> ur_result_t * Z;
  (** [deviceSupportsURCommandBufferKernelUpdate]: status and answer. *)
  deviceSupportsURCommandBufferKernelUpdate : Z -> Z * bool;
  (** Whether [std::make_unique] throws at this point. *)
  make_unique_throws : list cl_call -> bool;
  (** The reference counts the command-handle constructor starts with: the
      constructor is in [command_buffer.hpp] and the specification does not
      give them. *)
  CommandInitInternal : Z;
  CommandInitExternal : Z
}.

Section Adapter.

Variable D : cl_driver.

(** ** Destructor and the internal releases (lines 14-53) *)

(** [~ur_exp_command_buffer_handle_t_] followed by the deallocation, that
    is [delete CommandBuffer].  The lookup of the native release function is
    asserted to succeed. *)
Definition delete_command_buffer (b : positive) (s : state) : option state :=
  B ← buffers s !! b;
  let s1 := issue (call_urQueueRelease (hInternalQueue B)) s in
  if getExtFuncFromContext D (hContext B) ReleaseCommandBufferName then
    Some (free_buffer b
            (issue (call_clReleaseCommandBufferKHR (CLCommandBuffer B)) s1))
  else None.

Definition commandBufferReleaseInternal (b : positive) (s : state)
    : option (ur_result_t * state) :=
  B ← buffers s !! b;
  let n := dec32 (RefCountInternal B) in
  let s1 := set_buffer b (with_RefCountInternal n B) s in
  if negb (n =? 0) then Some (UR_RESULT_SUCCESS, s1)
  else
    s2 ← delete_command_buffer b s1;
    Some (UR_RESULT_SUCCESS, s2).

Definition commandHandleReleaseInternal (c : positive) (s : state)
    : option (ur_result_t * state) :=
  C ← commands s !! c;
  let n := dec32 (cmdRefCountInternal C) in
  let s1 := set_command c (with_cmdRefCountInternal n C) s in
  if negb (n =? 0) then Some (UR_RESULT_SUCCESS, s1)
  else
    (* Decrement parent command-buffer internal ref count *)
    r ← commandBufferReleaseInternal (hCommandBuffer C) s1;
    Some (UR_RESULT_SUCCESS, free_command c (snd r)).

(** ** Retain and release (lines 104-122) *)

Definition urCommandBufferRetainExp (b : positive) (s : state)
    : option (ur_result_t * state) :=
  B ← buffers s !! b;
  let B1 := with_RefCountInternal (inc32 (RefCountInternal B)) B in
  let B2 := with_RefCountExternal (inc32 (RefCountExternal B1)) B1 in
  Some (UR_RESULT_SUCCESS, set_buffer b B2 s).

(** The loop [for (auto Command : hCommandBuffer->CommandHandles)]: every
    step reads the next element of the vector, which is part of the buffer
    object. *)
Fixpoint release_commands (b : positive) (cs : list positive) (s : state)
    : option state :=
  match cs with
  | [] => Some s
  | c :: cs' =>
      _ ← buffers s !! b;
      r ← commandHandleReleaseInternal c s;
      release_commands b cs' (snd r)
  end.

Definition urCommandBufferReleaseExp (b : positive) (s : state)
    : option (ur_result_t * state) :=
  B ← buffers s !! b;
  let n := dec32 (RefCountExternal B) in
  let s1 := set_buffer b (with_RefCountExternal n B) s in
  s2 ← (if n =? 0 then release_commands b (CommandHandles B) s1
        else Some s1);
  commandBufferReleaseInternal b s2.

(** ** Creation (lines 55-102) *)

(** Modelled from the spec: the constructor of
    [ur_exp_command_buffer_handle_t_] is in [command_buffer.hpp], which is
    not among the sources.  It stores its four arguments; the buffer is
    created not finalized, with no command handle, and "starts with external
    ref count = 1".  The internal count starts at the same value: release
    decrements both, and the object "is destroyed only when internal count
    reaches zero". *)
Definition new_command_buffer (Queue hContext CLCommandBuffer : Z)
    (IsUpdatable : bool) : ur_exp_command_buffer_handle_t_ :=
  mk_command_buffer Queue hContext CLCommandBuffer IsUpdatable false [] 1 1.

(** [pCommandBufferDesc] is [None] for a null pointer and carries
    [isUpdatable] otherwise. *)
Definition urCommandBufferCreateExp (hContext hDevice : Z)
    (pCommandBufferDesc : option bool) (s : state)
    : option (ur_result_t * state * out_slot positive) :=
  let '(QRes, Queue) := urQueueCreate D (trace s) hContext hDevice in
  let s1 := issue (call_urQueueCreate hContext hDevice) s in
  if negb (bool_decide (QRes = UR_RESULT_SUCCESS)) then
    Some (QRes, s1, not_written)
  else if negb (getExtFuncFromContext D hContext CreateCommandBufferName) then
    Some (UR_RESULT_ERROR_INVALID_OPERATION, s1, not_written)
  else
    let IsUpdatable :=
      match pCommandBufferDesc with Some u => u | None => false end in
    let '(DRes, DeviceSupportsUpdate) :=
      deviceSupportsURCommandBufferKernelUpdate D hDevice in
    if negb (DRes =? CL_SUCCESS) then
      Some (mapCLErrorToUR D DRes, s1, not_written)
    else if IsUpdatable && negb DeviceSupportsUpdate then
      Some (UR_RESULT_ERROR_INVALID_OPERATION, s1, not_written)
    else
      let call := call_clCreateCommandBufferKHR Queue IsUpdatable in
      let reply := cl_native D (trace s1) call in
      let s2 := issue call s1 in
      if negb (status reply =? CL_SUCCESS) then
        Some (mapCLErrorToUR D (status reply), s2, set_null)
      else if make_unique_throws D (trace s2) then
        Some (UR_RESULT_ERROR_OUT_OF_RESOURCES, s2, not_written)
      else
        let b := fresh (dom (buffers s2)) in
        let B := new_command_buffer Queue hContext (out_handle reply)
                   IsUpdatable in
        Some (UR_RESULT_SUCCESS, set_buffer b B s2, set_to b).

(** ** Finalize (lines 124-140) *)

Definition urCommandBufferFinalizeExp (b : positive) (s : state)
    : option (ur_result_t * state) :=
  B ← buffers s !! b;
  if negb (getExtFuncFromContext D (hContext B) FinalizeCommandBufferName) then
    Some (UR_RESULT_ERROR_INVALID_OPERATION, s)
  else
    let call := call_clFinalizeCommandBufferKHR (CLCommandBuffer B) in
    let reply := cl_native D (trace s) call in
    let s1 := issue call s in
    if negb (status reply =? CL_SUCCESS) then
      Some (mapCLErrorToUR D (status reply), s1)
    else
      Some (UR_RESULT_SUCCESS, set_buffer b (with_IsFinalized true B) s1).

(** ** Append operations (lines 142-398) *)

(** The common shape of the appends that forward to one native command. *)
Definition forward_append (b : positive) (name : ext_name)
    (mk_call : Z -> cl_call) (s : state) : option append_result :=
  B ← buffers s !! b;
  if negb (getExtFuncFromContext D (hContext B) name) then
    Some (mk_append_result UR_RESULT_ERROR_INVALID_OPERATION s None None)
  else
    let call := mk_call (CLCommandBuffer B) in
    let reply := cl_native D (trace s) call in
    let s1 := issue call s in
    if negb (status reply =? CL_SUCCESS) then
      Some (mk_append_result (mapCLErrorToUR D (status reply)) s1 None None)
    else
      Some (mk_append_result UR_RESULT_SUCCESS s1
              (Some (out_sync_point reply)) None).

(** Modelled from the spec: the constructor of
    [ur_exp_command_buffer_command_handle_t_] is in [command_buffer.hpp],
    which is not among the sources.  It stores its three arguments.  An
    append that returns a handle ends by "registering it in the buffer's
    command list and bumping the buffer's internal ref count": the
    registration is in the source file, the bump is left to the constructor.
    The result is the new handle and the parent after the bump. *)
Definition new_command (b : positive) (B : ur_exp_command_buffer_handle_t_)
    (CLMutableCommand WorkDim : Z)
    : ur_exp_command_buffer_command_handle_t_ *
      ur_exp_command_buffer_handle_t_ :=
  (mk_command b CLMutableCommand WorkDim (CommandInitInternal D)
     (CommandInitExternal D),
   with_RefCountInternal (inc32 (RefCountInternal B)) B).

(** [phCommandHandle] is [true] for a non-null pointer: the function writes
    through it without a test. *)
Definition urCommandBufferAppendKernelLaunchExp (b : positive) (hKernel : Z)
    (workDim : Z) (pGlobalWorkOffset pGlobalWorkSize pLocalWorkSize
      : option (list Z))
    (pSyncPointWaitList : list Z) (phCommandHandle : bool) (s : state)
    : option append_result :=
  B ← buffers s !! b;
  if negb (getExtFuncFromContext D (hContext B) CommandNRRangeKernelName) then
    Some (mk_append_result UR_RESULT_ERROR_INVALID_OPERATION s None None)
  else
    let call :=
      call_clCommandNDRangeKernelKHR (CLCommandBuffer B) (IsUpdatable B)
        hKernel workDim pGlobalWorkOffset pGlobalWorkSize pLocalWorkSize
        pSyncPointWaitList in
    let reply := cl_native D (trace s) call in
    let s1 := issue call s in
    if negb (status reply =? CL_SUCCESS) then
      Some (mk_append_result (mapCLErrorToUR D (status reply)) s1 None None)
    else
      let CommandHandle := if IsUpdatable B then out_handle reply else 0 in
      if make_unique_throws D (trace s1) then
        Some (mk_append_result UR_RESULT_ERROR_OUT_OF_RESOURCES s1
                (Some (out_sync_point reply)) None)
      else if negb phCommandHandle then None
      else
        let c := fresh (dom (commands s1)) in
        let '(C, B1) := new_command b B CommandHandle workDim in
        let B' := with_CommandHandles (CommandHandles B1 ++ [c]) B1 in
        Some (mk_append_result UR_RESULT_SUCCESS
                (set_buffer b B' (set_command c C s1))
                (Some (out_sync_point reply)) (Some c)).

Definition unsupported_append (s : state) : option append_result :=
  Some (mk_append_result UR_RESULT_ERROR_UNSUPPORTED_FEATURE s None None).

Definition urCommandBufferAppendUSMMemcpyExp (b : positive)
    (pDst pSrc size : Z) (pSyncPointWaitList : list Z) (s : state) :=
  unsupported_append s.

Definition urCommandBufferAppendUSMFillExp (b : positive) (pMemory : Z)
    (pPattern : option (list Z)) (patternSize size : Z)
    (pSyncPointWaitList : list Z) (s : state) :=
  unsupported_append s.

Definition urCommandBufferAppendMemBufferCopyExp (b : positive)
    (hSrcMem hDstMem srcOffset dstOffset size : Z)
    (pSyncPointWaitList : list Z) (s : state) :=
  forward_append b CommandCopyBufferName
    (fun cb => call_clCommandCopyBufferKHR cb hSrcMem hDstMem srcOffset
                 dstOffset size pSyncPointWaitList) s.

Definition urCommandBufferAppendMemBufferCopyRectExp (b : positive)
    (hSrcMem hDstMem : Z) (srcOrigin dstOrigin region : Z * Z * Z)
    (srcRowPitch srcSlicePitch dstRowPitch dstSlicePitch : Z)
    (pSyncPointWaitList : list Z) (s : state) :=
  let arr := fun t : Z * Z * Z => [t.1.1; t.1.2; t.2] in
  forward_append b CommandCopyBufferRectName
    (fun cb => call_clCommandCopyBufferRectKHR cb hSrcMem hDstMem
                 (arr srcOrigin) (arr dstOrigin) (arr region) srcRowPitch
                 srcSlicePitch dstRowPitch dstSlicePitch pSyncPointWaitList)
    s.

(** [cl_adapter::die] does not return. *)
Definition urCommandBufferAppendMemBufferWriteExp (b : positive)
    (hBuffer offset size pSrc : Z) (pSyncPointWaitList : list Z) (s : state)
    : option append_result :=
  None.

Definition urCommandBufferAppendMemBufferReadExp (b : positive)
    (hBuffer offset size pDst : Z) (pSyncPointWaitList : list Z) (s : state) :=
  unsupported_append s.

Definition urCommandBufferAppendMemBufferWriteRectExp (b : positive)
    (hBuffer : Z) (bufferOffset hostOffset region : Z * Z * Z)
    (bufferRowPitch bufferSlicePitch hostRowPitch hostSlicePitch pSrc : Z)
    (pSyncPointWaitList : list Z) (s : state) :=
  unsupported_append s.

Definition urCommandBufferAppendMemBufferReadRectExp (b : positive)
    (hBuffer : Z) (bufferOffset hostOffset region : Z * Z * Z)
    (bufferRowPitch bufferSlicePitch hostRowPitch hostSlicePitch pDst : Z)
    (pSyncPointWaitList : list Z) (s : state) :=
  unsupported_append s.

Definition urCommandBufferAppendMemBufferFillExp (b : positive) (hBuffer : Z)
    (pPattern : option (list Z)) (patternSize offset size : Z)
    (pSyncPointWaitList : list Z) (s : state) :=
  forward_append b CommandFillBufferName
    (fun cb => call_clCommandFillBufferKHR cb hBuffer pPattern patternSize
                 offset size pSyncPointWaitList) s.

Definition urCommandBufferAppendUSMPrefetchExp (b : positive)
    (mem size flags : Z) (pSyncPointWaitList : list Z) (s : state) :=
  unsupported_append s.

Definition urCommandBufferAppendUSMAdviseExp (b : positive)
    (mem size advice : Z) (pSyncPointWaitList : list Z) (s : state) :=
  unsupported_append s.

(** ** Enqueue (lines 400-424) *)

Definition urCommandBufferEnqueueExp (b : positive) (hQueue : Z)
    (phEventWaitList : list Z) (phEvent : bool) (s : state)
    : option (ur_result_t * state * option Z) :=
  B ← buffers s !! b;
  if negb (getExtFuncFromContext D (hContext B) EnqueueCommandBufferName) then
    Some (UR_RESULT_ERROR_INVALID_OPERATION, s, None)
  else
    let call :=
      call_clEnqueueCommandBufferKHR hQueue (CLCommandBuffer B)
        phEventWaitList phEvent in
    let reply := cl_native D (trace s) call in
    let s1 := issue call s in
    if negb (status reply =? CL_SUCCESS) then
      Some (mapCLErrorToUR D (status reply), s1, None)
    else
      Some (UR_RESULT_SUCCESS, s1,
            if phEvent then Some (out_handle reply) else None).

(** ** Retain and release of a command handle (lines 426-437) *)

Definition urCommandBufferRetainCommandExp (c : positive) (s : state)
    : option (ur_result_t * state) :=
  C ← commands s !! c;
  let C1 := with_cmdRefCountExternal (inc32 (cmdRefCountExternal C)) C in
  let C2 := with_cmdRefCountInternal (inc32 (cmdRefCountInternal C1)) C1 in
  Some (UR_RESULT_SUCCESS, set_command c C2 s).

Definition urCommandBufferReleaseCommandExp (c : positive) (s : state)
    : option (ur_result_t * state) :=
  C ← commands s !! c;
  let C1 := with_cmdRefCountExternal (dec32 (cmdRefCountExternal C)) C in
  commandHandleReleaseInternal c (set_command c C1 s).

(** ** Update of a kernel launch (lines 439-603) *)

(** The loop over [pNewExecInfoList]: the native entries collected so far,
    or the error that ends the call. *)
Fixpoint exec_infos (l : list ur_exp_command_buffer_update_exec_info_desc_t)
    (acc : list cl_mutable_dispatch_exec_info_khr)
    : ur_result_t + list cl_mutable_dispatch_exec_info_khr :=
  match l with
  | [] => inr acc
  | URExecInfo :: l' =>
      match propName URExecInfo with
      | UR_KERNEL_EXEC_INFO_USM_INDIRECT_ACCESS =>
          let e := fun name => mk_exec_info name sizeof_cl_bool addr_TrueVal in
          exec_infos l'
            (acc ++ [e CL_KERNEL_EXEC_INFO_INDIRECT_HOST_ACCESS_INTEL;
                     e CL_KERNEL_EXEC_INFO_INDIRECT_DEVICE_ACCESS_INTEL;
                     e CL_KERNEL_EXEC_INFO_INDIRECT_SHARED_ACCESS_INTEL])
      | UR_KERNEL_EXEC_INFO_USM_PTRS =>
          exec_infos l'
            (acc ++ [mk_exec_info CL_KERNEL_EXEC_INFO_USM_PTRS_INTEL
                       (propSize URExecInfo) (pNewExecInfo URExecInfo)])
      | UR_KERNEL_EXEC_INFO_CACHE_CONFIG => exec_infos l' acc
      | UR_KERNEL_EXEC_INFO_OTHER _ =>
          inl UR_RESULT_ERROR_INVALID_ENUMERATION
      end
  end.

(** The loop over [pNewPointerArgList]: each entry is read through
    [pNewPointerArg]; the vector is value-initialised, so [arg_size] is 0. *)
Fixpoint usm_args
    (l : list ur_exp_command_buffer_update_pointer_arg_desc_t)
    : option (list cl_mutable_dispatch_arg_khr) :=
  match l with
  | [] => Some []
  | URPointerArg :: l' =>
      v ← pNewPointerArg URPointerArg;
      rest ← usm_args l';
      Some (mk_arg (ptr_argIndex URPointerArg) 0 v :: rest)
  end.

Definition memobj_args
    (l : list ur_exp_command_buffer_update_memobj_arg_desc_t)
    : list cl_mutable_dispatch_arg_khr :=
  map (fun a => mk_arg (mem_argIndex a) sizeof_cl_mem (hNewMemObjArg a)) l.

Definition value_args
    (l : list ur_exp_command_buffer_update_value_arg_desc_t)
    : list cl_mutable_dispatch_arg_khr :=
  map (fun a => mk_arg (val_argIndex a) (argSize a) (pNewValueArg a)) l.

(** One of the three ND-range vectors: left empty for a null pointer;
    otherwise resized to [CLWorkDim] and filled from the pointer.  For
    [CLWorkDim < 3] the [memset] that follows writes [3 - CLWorkDim] elements
    past the end of the vector. *)
Definition nd_range_vector (CLWorkDim : Z) (p : option (list Z))
    : option (list Z) :=
  match p with
  | None => Some []
  | Some src =>
      if Z.of_nat (length src) <? CLWorkDim then None
      else if CLWorkDim <? 3 then None
      else Some (take (Z.to_nat CLWorkDim) src)
  end.

Definition urCommandBufferUpdateKernelLaunchExp (c : positive)
    (pUpdateKernelLaunch : ur_exp_command_buffer_update_kernel_launch_desc_t)
    (s : state) : option (ur_result_t * state) :=
  C ← commands s !! c;
  B ← buffers s !! hCommandBuffer C;
  if negb (getExtFuncFromContext D (hContext B) UpdateMutableCommandsName) then
    Some (UR_RESULT_ERROR_INVALID_OPERATION, s)
  else if negb (IsFinalized B) || negb (IsUpdatable B) then
    Some (UR_RESULT_ERROR_INVALID_OPERATION, s)
  else
    match exec_infos (pNewExecInfoList pUpdateKernelLaunch) [] with
    | inl err => Some (err, s)
    | inr CLExecInfos =>
        CLUSMArgs ← usm_args (pNewPointerArgList pUpdateKernelLaunch);
        let CLArgs :=
          memobj_args (pNewMemObjArgList pUpdateKernelLaunch) ++
          value_args (pNewValueArgList pUpdateKernelLaunch) in
        let NewWorkDim := newWorkDim pUpdateKernelLaunch in
        let CLWorkDim := WorkDim C in
        if negb (NewWorkDim =? 0) && negb (NewWorkDim =? CLWorkDim) then
          Some (UR_RESULT_ERROR_UNSUPPORTED_FEATURE, s)
        else
          CLGlobalWorkOffset ←
            nd_range_vector CLWorkDim (pNewGlobalWorkOffset pUpdateKernelLaunch);
          CLGlobalWorkSize ←
            nd_range_vector CLWorkDim (pNewGlobalWorkSize pUpdateKernelLaunch);
          CLLocalWorkSize ←
            nd_range_vector CLWorkDim (pNewLocalWorkSize pUpdateKernelLaunch);
          let dispatch_config :=
            mk_config (CLMutableCommand C) CLArgs CLUSMArgs CLExecInfos
              CLWorkDim CLGlobalWorkOffset CLGlobalWorkSize CLLocalWorkSize in
          let call :=
            call_clUpdateMutableCommandsKHR (CLCommandBuffer B)
              dispatch_config in
          let reply := cl_native D (trace s) call in
          let s1 := issue call s in
          if negb (status reply =? CL_SUCCESS) then
            Some (mapCLErrorToUR D (status reply), s1)
          else Some (UR_RESULT_SUCCESS, s1)
    end.

(** ** Every append operation

    The requests a caller can record, and the entry point each one goes
    to. *)
Inductive append_request : Type :=
  | AppendKernelLaunch (hKernel workDim : Z)
      (pGlobalWorkOffset pGlobalWorkSize pLocalWorkSize : option (list Z))
      (phCommandHandle : bool)
  | AppendUSMMemcpy (pDst pSrc size : Z)
  | AppendUSMFill (pMemory : Z) (pPattern : option (list Z))
      (patternSize size : Z)
  | AppendMemBufferCopy (hSrcMem hDstMem srcOffset dstOffset size : Z)
  | AppendMemBufferCopyRect (hSrcMem hDstMem : Z)
      (srcOrigin dstOrigin region : Z * Z * Z)
      (srcRowPitch srcSlicePitch dstRowPitch dstSlicePitch : Z)
  | AppendMemBufferWrite (hBuffer offset size pSrc : Z)
  | AppendMemBufferRead (hBuffer offset size pDst : Z)
  | AppendMemBufferWriteRect (hBuffer : Z)
      (bufferOffset hostOffset region : Z * Z * Z)
      (bufferRowPitch bufferSlicePitch hostRowPitch hostSlicePitch pSrc : Z)
  | AppendMemBufferReadRect (hBuffer : Z)
      (bufferOffset hostOffset region : Z * Z * Z)
      (bufferRowPitch bufferSlicePitch hostRowPitch hostSlicePitch pDst : Z)
  | AppendMemBufferFill (hBuffer : Z) (pPattern : option (list Z))
      (patternSize offset size : Z)
  | AppendUSMPrefetch (mem size flags : Z)
  | AppendUSMAdvise (mem size advice : Z).

Definition append (r : append_request) (pSyncPointWaitList : list Z)
    (b : positive) (s : state) : option append_result :=
  match r with
  | AppendKernelLaunch hKernel workDim goff gsize lsize phCommandHandle =>
      urCommandBufferAppendKernelLaunchExp b hKernel workDim goff gsize lsize
        pSyncPointWaitList phCommandHandle s
  | AppendUSMMemcpy pDst pSrc size =>
      urCommandBufferAppendUSMMemcpyExp b pDst pSrc size pSyncPointWaitList s
  | AppendUSMFill pMemory pPattern patternSize size =>
      urCommandBufferAppendUSMFillExp b pMemory pPattern patternSize size
        pSyncPointWaitList s
  | AppendMemBufferCopy hSrcMem hDstMem srcOffset dstOffset size =>
      urCommandBufferAppendMemBufferCopyExp b hSrcMem hDstMem srcOffset
        dstOffset size pSyncPointWaitList s
  | AppendMemBufferCopyRect hSrcMem hDstMem srcOrigin dstOrigin region
      srcRowPitch srcSlicePitch dstRowPitch dstSlicePitch =>
      urCommandBufferAppendMemBufferCopyRectExp b hSrcMem hDstMem srcOrigin
        dstOrigin region srcRowPitch srcSlicePitch dstRowPitch dstSlicePitch
        pSyncPointWaitList s
  | AppendMemBufferWrite hBuffer offset size pSrc =>
      urCommandBufferAppendMemBufferWriteExp b hBuffer offset size pSrc
        pSyncPointWaitList s
  | AppendMemBufferRead hBuffer offset size pDst =>
      urCommandBufferAppendMemBufferReadExp b hBuffer offset size pDst
        pSyncPointWaitList s
  | AppendMemBufferWriteRect hBuffer bufferOffset hostOffset region
      bufferRowPitch bufferSlicePitch hostRowPitch hostSlicePitch pSrc =>
      urCommandBufferAppendMemBufferWriteRectExp b hBuffer bufferOffset
        hostOffset region bufferRowPitch bufferSlicePitch hostRowPitch
        hostSlicePitch pSrc pSyncPointWaitList s
  | AppendMemBufferReadRect hBuffer bufferOffset hostOffset region
      bufferRowPitch bufferSlicePitch hostRowPitch hostSlicePitch pDst =>
      urCommandBufferAppendMemBufferReadRectExp b hBuffer bufferOffset
        hostOffset region bufferRowPitch bufferSlicePitch hostRowPitch
        hostSlicePitch pDst pSyncPointWaitList s
  | AppendMemBufferFill hBuffer pPattern patternSize offset size =>
      urCommandBufferAppendMemBufferFillExp b hBuffer pPattern patternSize
        offset size pSyncPointWaitList s
  | AppendUSMPrefetch mem size flags =>
      urCommandBufferAppendUSMPrefetchExp b mem size flags
        pSyncPointWaitList s
  | AppendUSMAdvise mem size advice =>
      urCommandBufferAppendUSMAdviseExp b mem size advice pSyncPointWaitList s
  end.

End Adapter.

(** ** Notions used to state the life cycle *)

(** Command buffer [b] of state [s] has these two counts, as they are read
    from the object, and is [B] in every other field. *)
Definition buffer_with_counts (b : positive) (s : state)
    (B : ur_exp_command_buffer_handle_t_) (internal external : Z) : Prop :=
  exists B',
    buffers s !! b = Some B' /\
    RefCountInternal B' = internal /\ RefCountExternal B' = external /\
    hInternalQueue B' = hInternalQueue B /\ hContext B' = hContext B /\
    CLCommandBuffer B' = CLCommandBuffer B /\
    IsUpdatable B' = IsUpdatable B /\ IsFinalized B' = IsFinalized B /\
    CommandHandles B' = CommandHandles B.

(** The same for command handle [c]. *)
Definition command_with_counts (c : positive) (s : state)
    (C : ur_exp_command_buffer_command_handle_t_) (internal external : Z)
    : Prop :=
  exists C',
    commands s !! c = Some C' /\
    cmdRefCountInternal C' = internal /\ cmdRefCountExternal C' = external /\
    hCommandBuffer C' = hCommandBuffer C /\
    CLMutableCommand C' = CLMutableCommand C /\ WorkDim C' = WorkDim C.

(** What an internal release leaves of a command handle: nothing when it
    held the last reference. *)
Definition released_command (C : ur_exp_command_buffer_command_handle_t_)
    : option ur_exp_command_buffer_command_handle_t_ :=
  if dec32 (cmdRefCountInternal C) =? 0 then None
  else Some (with_cmdRefCountInternal (dec32 (cmdRefCountInternal C)) C).

(** The number of handles of [cs] that an internal release deletes. *)
Fixpoint count_last (s : state) (cs : list positive) : Z :=
  match cs with
  | [] => 0
  | c :: cs' =>
      match commands s !! c ≫= released_command with
      | None => 1 + count_last s cs'
      | Some _ => count_last s cs'
      end
  end.

(** The handles of [cs] are distinct live objects whose parent is [b]. *)
Definition registered (b : positive) (cs : list positive) (s : state) : Prop :=
  NoDup cs /\
  forall c, c ∈ cs ->
    exists C, commands s !! c = Some C /\ hCommandBuffer C = b.

(** The two calls the destructor issues. *)
Definition destructor_calls (B : ur_exp_command_buffer_handle_t_)
    : list cl_call :=
  [call_urQueueRelease (hInternalQueue B);
   call_clReleaseCommandBufferKHR (CLCommandBuffer B)].

(** A property name the update knows: one of the three named ones. *)
Definition known_exec_info (e : ur_exp_command_buffer_update_exec_info_desc_t)
    : Prop :=
  forall code, propName e <> UR_KERNEL_EXEC_INFO_OTHER code.

(** The state with the [IsFinalized] flag of buffer [b] set to [f]. *)
Definition set_finalized (b : positive) (f : bool) (s : state) : state :=
  mk_state (alter (with_IsFinalized f) b (buffers s)) (commands s) (trace s).

Definition on_state (f : state -> state) (r : append_result)
    : append_result :=
  mk_append_result (app_code r) (f (app_state r)) (app_sync_point r)
    (app_command r).

(** A state with one live command buffer, updatable and finalized, and its
    two registered command handles; the first handle holds one internal
    reference, the second two. *)
Definition sample_buffer : ur_exp_command_buffer_handle_t_ :=
  mk_command_buffer 5 1 7 true true [1%positive; 2%positive] 3 1.

Definition sample_state : state :=
  mk_state {[1%positive := sample_buffer]}
    {[1%positive := mk_command 1%positive 7 2 1 0;
      2%positive := mk_command 1%positive 8 3 2 1]}
    [].

(** A request for a new work dimension of 3 and nothing else. *)
Definition sample_update : ur_exp_command_buffer_update_kernel_launch_desc_t :=
  mk_update [] [] [] [] 3 None None None.

(** A driver that has every extension function, accepts every native call,
    and a device without support for update. *)
Definition sample_driver : cl_driver :=
  mk_driver (fun _ _ => true) (fun _ _ => mk_reply CL_SUCCESS 7 3)
    UR_RESULT_ERROR_NATIVE (fun _ _ _ => (UR_RESULT_SUCCESS, 5))
    (fun _ => (CL_SUCCESS, false)) (fun _ => false) 0 0.

(** ** Notions used to state further properties *)

(** The number of native exec-info entries a list of descriptors is turned
    into: three for indirect access, one for USM pointers, none for the
    cache configuration. *)
Fixpoint native_exec_info_count
    (l : list ur_exp_command_buffer_update_exec_info_desc_t) : nat :=
  match l with
  | [] => O
  | e :: l' =>
      (match propName e with
       | UR_KERNEL_EXEC_INFO_USM_INDIRECT_ACCESS => 3
       | UR_KERNEL_EXEC_INFO_USM_PTRS => 1
       | _ => 0
       end + native_exec_info_count l')%nat
  end.

(** A request that names an exec info the adapter does not know. *)
Definition unknown_exec_info_update
    : ur_exp_command_buffer_update_kernel_launch_desc_t :=
  mk_update [] [] []
    [mk_exec_desc UR_KERNEL_EXEC_INFO_USM_PTRS 8 64;
     mk_exec_desc (UR_KERNEL_EXEC_INFO_OTHER 99) 0 0]
    0 None None None.

(** A request that keeps the dimension and replaces one memory-object
    argument, one value argument and the indirect-access flag. *)
Definition argument_update
    : ur_exp_command_buffer_update_kernel_launch_desc_t :=
  mk_update [mk_mem_desc 0 21] [] [mk_val_desc 1 4 33]
    [mk_exec_desc UR_KERNEL_EXEC_INFO_USM_INDIRECT_ACCESS 0 0;
     mk_exec_desc UR_KERNEL_EXEC_INFO_CACHE_CONFIG 0 0]
    0 None None None.

(** The native entries one exec-info descriptor is turned into. *)
Definition native_exec_info
    (e : ur_exp_command_buffer_update_exec_info_desc_t)
    : list cl_mutable_dispatch_exec_info_khr :=
  match propName e with
  | UR_KERNEL_EXEC_INFO_USM_INDIRECT_ACCESS =>
      [mk_exec_info CL_KERNEL_EXEC_INFO_INDIRECT_HOST_ACCESS_INTEL
         sizeof_cl_bool addr_TrueVal;
       mk_exec_info CL_KERNEL_EXEC_INFO_INDIRECT_DEVICE_ACCESS_INTEL
         sizeof_cl_bool addr_TrueVal;
       mk_exec_info CL_KERNEL_EXEC_INFO_INDIRECT_SHARED_ACCESS_INTEL
         sizeof_cl_bool addr_TrueVal]
  | UR_KERNEL_EXEC_INFO_USM_PTRS =>
      [mk_exec_info CL_KERNEL_EXEC_INFO_USM_PTRS_INTEL (propSize e)
         (pNewExecInfo e)]
  | _ => []
  end.

(** A property name the update does not know. *)
Definition unknown_exec_info
    (e : ur_exp_command_buffer_update_exec_info_desc_t) : Prop :=
  exists code, propName e = UR_KERNEL_EXEC_INFO_OTHER code.

(** An ND-range vector the update can copy for a command of dimension
    [CLWorkDim]: a null pointer, or an array of at least [CLWorkDim] elements
    for a dimension that leaves nothing to clear behind them. *)
Definition copyable (CLWorkDim : Z) (p : option (list Z)) : Prop :=
  match p with
  | None => True
  | Some src => 3 <= CLWorkDim <= Z.of_nat (length src)
  end.

(** What the update copies of such a vector. *)
Definition copied (CLWorkDim : Z) (p : option (list Z)) : list Z :=
  match p with
  | None => []
  | Some src => take (Z.to_nat CLWorkDim) src
  end.

(** A pointer argument and the native argument made of it. *)
Definition usm_arg_of (a : cl_mutable_dispatch_arg_khr)
    (d : ur_exp_command_buffer_update_pointer_arg_desc_t) : Prop :=
  arg_index a = ptr_argIndex d /\ arg_size a = 0
  /\ pNewPointerArg d = Some (arg_value a).

(** A request the update can hand to the driver for command [C]. *)
Definition forwardable (C : ur_exp_command_buffer_command_handle_t_)
    (u : ur_exp_command_buffer_update_kernel_launch_desc_t) : Prop :=
  Forall known_exec_info (pNewExecInfoList u)
  /\ Forall (fun a => is_Some (pNewPointerArg a)) (pNewPointerArgList u)
  /\ (newWorkDim u = 0 \/ newWorkDim u = WorkDim C)
  /\ copyable (WorkDim C) (pNewGlobalWorkOffset u)
  /\ copyable (WorkDim C) (pNewGlobalWorkSize u)
  /\ copyable (WorkDim C) (pNewLocalWorkSize u).

(** A driver whose failing status codes are mapped to error results. *)
Definition failures_are_errors (D : cl_driver) : Prop :=
  forall st, st <> CL_SUCCESS -> mapCLErrorToUR D st <> UR_RESULT_SUCCESS.

(** The call is one of the two a creation makes. *)
Definition creation_call (hContext hDevice : Z) (call : cl_call) : Prop :=
  call = call_urQueueCreate hContext hDevice
  \/ exists queue mutable_flag,
       call = call_clCreateCommandBufferKHR queue mutable_flag.

(** The appends the adapter does not support. *)
Definition is_unsupported (r : append_request) : bool :=
  match r with
  | AppendUSMMemcpy _ _ _ | AppendUSMFill _ _ _ _
  | AppendMemBufferRead _ _ _ _
  | AppendMemBufferWriteRect _ _ _ _ _ _ _ _ _
  | AppendMemBufferReadRect _ _ _ _ _ _ _ _ _
  | AppendUSMPrefetch _ _ _ | AppendUSMAdvise _ _ _ => true
  | _ => false
  end.

Definition is_kernel_launch (r : append_request) : bool :=
  match r with
  | AppendKernelLaunch _ _ _ _ _ _ => true
  | _ => false
  end.

(** [sample_state] before its command buffer was finalized. *)
Definition recording_state : state := set_finalized 1 false sample_state.

End OpenCL.

(** * The HIP adapter *)

Module HIP.

(** ** The native graph

    A [hipGraph_t] is the list of the nodes added to it, a [hipGraphNode_t]
    the position of a node in that list. *)

Inductive hipMemoryType : Type :=
  | hipMemoryTypeHost
  | hipMemoryTypeDevice
  | hipMemoryTypeUnified.

Inductive hipMemcpyKind : Type :=
  | hipMemcpyHostToHost
  | hipMemcpyHostToDevice
  | hipMemcpyDeviceToHost
  | hipMemcpyDeviceToDevice.

Record hipMemsetParams : Type := mk_memset {
  dst : Z;
  elementSize : Z;
  height : Z;
  pitch : Z;
  value : Z;
  width : Z
}.

Record hipKernelNodeParams : Type := mk_kernel_params {
  func : Z;
  gridDim : Z * Z * Z;
  blockDim : Z * Z * Z;
  sharedMemBytes : Z;
  kernelParams : list Z
}.

(** The arguments [setCopyRectParams] (declared in [enqueue.hpp]) turns into
    a [hipMemcpy3DParms]. *)
Record copy_rect_args : Type := mk_copy_rect {
  region : Z * Z * Z;
  SrcPtr : Z;
  SrcType : hipMemoryType;
  src_offset : Z * Z * Z;
  src_row_pitch : Z;
  src_slice_pitch : Z;
  DstPtr : Z;
  DstType : hipMemoryType;
  dst_offset : Z * Z * Z;
  dst_row_pitch : Z;
  dst_slice_pitch : Z
}.

Inductive node_params : Type :=
  | EmptyNode
  | MemsetNode (p : hipMemsetParams)
  | KernelNode (p : hipKernelNodeParams)
  | MemcpyNode1D (dst src size : Z) (kind : hipMemcpyKind)
  | MemcpyNode (p : copy_rect_args).

Record hipGraphNode : Type := mk_node {
  params : node_params;
  dependencies : list nat
}.

Definition hipSuccess : Z := 0.
Definition hipErrorInvalidValue : Z := 1.

(** ** Objects *)

(** [ur_exp_command_buffer_handle_t_].  [HIPGraph] and [HIPGraphExec] are
    [None] for [nullptr]. *)
Record ur_exp_command_buffer_handle_t_ : Type := mk_command_buffer {
  Context : Z;
  Device : Z;
  HIPGraph : option (list hipGraphNode);
  HIPGraphExec : option (list hipGraphNode);
  RefCount : Z;
  SyncPoints : gmap Z nat;
  NextSyncPoint : Z
}.

Definition with_HIPGraph (g : option (list hipGraphNode))
    (B : ur_exp_command_buffer_handle_t_) :=
  mk_command_buffer (Context B) (Device B) g (HIPGraphExec B) (RefCount B)
    (SyncPoints B) (NextSyncPoint B).

Definition with_HIPGraphExec (g : option (list hipGraphNode))
    (B : ur_exp_command_buffer_handle_t_) :=
  mk_command_buffer (Context B) (Device B) (HIPGraph B) g (RefCount B)
    (SyncPoints B) (NextSyncPoint B).

Definition with_RefCount (n : Z) (B : ur_exp_command_buffer_handle_t_) :=
  mk_command_buffer (Context B) (Device B) (HIPGraph B) (HIPGraphExec B) n
    (SyncPoints B) (NextSyncPoint B).

(** The kernel object, as far as the command buffer reads it. *)
Record ur_kernel_handle_t_ : Type := mk_kernel {
  kernel_Context : Z;
  kernel_Function : Z;
  LocalSize : Z;
  ArgIndices : list Z
}.

Definition clearLocalSize (K : ur_kernel_handle_t_) : ur_kernel_handle_t_ :=
  mk_kernel (kernel_Context K) (kernel_Function K) 0 (ArgIndices K).

(** A memory object holding a [BufferMem]: its device pointer and size. *)
Record ur_mem_handle_t_ : Type := mk_mem {
  mem_Ptr : Z;
  mem_Size : Z
}.

(** Modelled from the spec: [BufferMem::getPtrWithOffset] is in
    [memory.hpp], which is not among the sources; "device pointer resolution
    with offset". *)
Definition getPtrWithOffset (M : ur_mem_handle_t_) (offset : Z) : Z :=
  mem_Ptr M + offset.

(** The queue, as far as enqueue reads it: its device ([None] for a null
    handle) and the number of compute streams handed out. *)
Record ur_queue_handle_t_ : Type := mk_queue {
  queue_Device : option Z;
  queue_StreamToken : Z
}.

(** The event enqueue returns: its stream and stream token. *)
Record ur_event_handle_t_ : Type := mk_event {
  event_Stream : Z;
  event_StreamToken : Z
}.

(** What enqueue works on besides the command buffer: the context active on
    the calling thread (0 for none), the queue, and the graphs launched, each
    with its stream. *)
Record hip_thread : Type := mk_thread {
  current_context : Z;
  queue : ur_queue_handle_t_;
  launched : list (option (list hipGraphNode) * Z)
}.

(** The driver and the collaborators of the adapter. *)
Record hip_driver : Type := mk_driver {
  (** Status of [hipGraphCreate]. *)
  hipGraphCreate_status : Z;
  (** Status of adding this node to this graph. *)
  hipGraphAddNode_status : list hipGraphNode -> hipGraphNode -> Z;
  (** Status of [hipGraphInstantiateWithFlags]. *)
  hipGraphInstantiate_status : list hipGraphNode -> Z;
  (** Status of [hipGraphLaunch] of this executable graph on this stream. *)
  hipGraphLaunch_status : option (list hipGraphNode) -> Z -> Z;
  (** What [UR_CHECK_ERROR] throws for a status other than [hipSuccess]. *)
  mapErrorUR : Z -> ur_result_t;
  (** [setKernelParams] (declared in [enqueue.hpp]): result, the function
      to launch, threads per block and blocks per grid. *)
  setKernelParams :
    Z -> Z -> option (list Z) -> list Z -> option (list Z) ->
    ur_kernel_handle_t_ -> ur_result_t * Z * ((Z * Z * Z) * (Z * Z * Z));
  (** Whether [new] throws, and whether it throws [std::bad_alloc]. *)
  new_throws : option bool;
  (** [hDevice->getNativeContext()]. *)
  getNativeContext : Z -> Z;
  (** Statuses of [hipCtxGetCurrent] and [hipCtxSetCurrent]. *)
  hipCtxGetCurrent_status : Z;
  hipCtxSetCurrent_status : Z -> Z;
  (** [hQueue->getNextComputeStream]: the stream for this token. *)
  getNextComputeStream : ur_queue_handle_t_ -> list Z -> Z;
  (** [enqueueEventsWait] (declared in [enqueue.hpp]). *)
  enqueueEventsWait : ur_queue_handle_t_ -> Z -> list Z -> ur_result_t;
  (** Statuses of [start] and [record] of the returned event. *)
  event_start_status : Z;
  event_record_status : Z;
  (** Statuses of [hipGraphDestroy] and [hipGraphExecDestroy] of this
      handle ([None] for a null handle). *)
  hipGraphDestroy_status : option (list hipGraphNode) -> Z;
  hipGraphExecDestroy_status : option (list hipGraphNode) -> Z
}.

(** [size_t] arithmetic. *)
Definition SIZE_MOD : Z := 2 ^ 64.
Definition wrap64 (x : Z) : Z := x mod SIZE_MOD.

(** The result of an append: the code returned, the command buffer and the
    sync point left in [*pSyncPoint], if one was written. *)
Record append_result : Type := mk_append_result {
  app_code : ur_result_t;
  app_buffer : ur_exp_command_buffer_handle_t_;
  app_sync_point : option Z
}.

Section Adapter.

Variable D : hip_driver.

(** Modelled from the spec: [AddSyncPoint] is declared in
    [command_buffer.hpp], which is not among the sources.  A sync point is a
    token "minted in strictly increasing order as commands are appended"; the
    registry is a "mapping from an opaque integer handle to the native
    execution node it represents" with "append-only registration".  The
    counter is not wrapped at the width of the token. *)
Definition AddSyncPoint (B : ur_exp_command_buffer_handle_t_) (HIPNode : nat)
    : Z * ur_exp_command_buffer_handle_t_ :=
  let SyncPoint := NextSyncPoint B in
  (SyncPoint,
   mk_command_buffer (Context B) (Device B) (HIPGraph B) (HIPGraphExec B)
     (RefCount B) (<[SyncPoint := HIPNode]> (SyncPoints B))
     (NextSyncPoint B + 1)).

(** A native [hipGraphAdd...Node] call under [UR_CHECK_ERROR]: the error
    thrown, or the command buffer with the node added and the handle of the
    node.  A null graph is an invalid argument for the driver. *)
Definition hipGraphAddNode (B : ur_exp_command_buffer_handle_t_)
    (deps : list nat) (p : node_params)
    : ur_result_t + ur_exp_command_buffer_handle_t_ * nat :=
  match HIPGraph B with
  | None => inl (mapErrorUR D hipErrorInvalidValue)
  | Some g =>
      let node := mk_node p deps in
      let st := hipGraphAddNode_status D g node in
      if st =? hipSuccess then
        inr (with_HIPGraph (Some (g ++ [node])) B, length g)
      else inl (mapErrorUR D st)
  end.

(** ** [getNodesFromSyncPoints] (lines 60-79)

    [HIPNodesList] is the vector passed by reference: on failure it keeps the
    nodes pushed before the unknown sync point. *)
Fixpoint getNodesFromSyncPoints (B : ur_exp_command_buffer_handle_t_)
    (SyncPointWaitList : list Z) (HIPNodesList : list nat)
    : ur_result_t * list nat :=
  match SyncPointWaitList with
  | [] => (UR_RESULT_SUCCESS, HIPNodesList)
  | sp :: rest =>
      match SyncPoints B !! sp with
      | Some NodeHandle =>
          getNodesFromSyncPoints B rest (HIPNodesList ++ [NodeHandle])
      | None => (UR_RESULT_ERROR_INVALID_VALUE, HIPNodesList)
      end
  end.

(** The tail shared by the appends that add one node: add it, then mint a
    sync point for it; a thrown error becomes the result. *)
Definition add_node_and_sync_point (B : ur_exp_command_buffer_handle_t_)
    (DepsList : list nat) (p : node_params) (Result : ur_result_t)
    : append_result :=
  match hipGraphAddNode B DepsList p with
  | inl Err => mk_append_result Err B None
  | inr (B1, GraphNode) =>
      let '(sp, B2) := AddSyncPoint B1 GraphNode in
      mk_append_result Result B2 (Some sp)
  end.

(** ** The fill helper (lines 82-196) *)

(** The bytes a pointer gives access to are a function of the offset. *)
Definition read_u8 (mem : Z -> Z) (offset : Z) : Z := mem offset mod 256.

Definition read_u32 (mem : Z -> Z) : Z :=
  read_u8 mem 0 + read_u8 mem 1 * 2 ^ 8 + read_u8 mem 2 * 2 ^ 16
  + read_u8 mem 3 * 2 ^ 24.

(** The loop of lines 161-190 over the remaining values of [Step]. *)
Fixpoint fill_steps (Pattern : Z -> Z) (DstPtr Size NumberOfSteps : Z)
    (Steps : list Z) (B : ur_exp_command_buffer_handle_t_)
    (HIPNodesList : list nat) (SyncPoint : option Z) (Result : ur_result_t)
    : append_result :=
  match Steps with
  | [] => mk_append_result Result B SyncPoint
  | Step :: rest =>
      let Value := read_u8 Pattern Step in
      let OffsetPtr := DstPtr + Step in
      let NodeParamsStep :=
        mk_memset OffsetPtr 1 (Size / NumberOfSteps) NumberOfSteps Value 1 in
      match hipGraphAddNode B HIPNodesList (MemsetNode NodeParamsStep) with
      | inl Err => mk_append_result Err B SyncPoint
      | inr (B1, GraphNode) =>
          let '(sp, B2) := AddSyncPoint B1 GraphNode in
          (* HIPNodesList.clear(); HIPNodesList.push_back(...) *)
          fill_steps Pattern DstPtr Size NumberOfSteps rest B2 [GraphNode]
            (Some sp) Result
      end
  end.

(** The values [Step] takes: 4, 5, ... below [NumberOfSteps]. *)
Definition steps_from_4 (NumberOfSteps : Z) : list Z :=
  map Z.of_nat (seq 4 (Z.to_nat (NumberOfSteps - 4))).

(** [UR_CALL(Call, Result)] (a macro of [common.hpp]) stores the result of
    the call in [Result]; every other caller of [getNodesFromSyncPoints]
    tests [Result] right after it, this one does not.  [DstDevice] is the
    destination address: what the pointer passed points to for
    [hipMemoryTypeDevice], the pointer itself otherwise.  [Step] is a 32-bit
    counter: the loop does not end for [NumberOfSteps] of 2^32 or more. *)
Definition enqueueCommandBufferFillHelper
    (B : ur_exp_command_buffer_handle_t_) (DstDevice : Z)
    (DstType : hipMemoryType) (Pattern : option (Z -> Z))
    (PatternSize Size : Z) (SyncPointWaitList : list Z)
    : option append_result :=
  let '(Result, DepsList) := getNodesFromSyncPoints B SyncPointWaitList [] in
  if PatternSize =? 0 then None
  else
    let N := Size / PatternSize in
    Pattern ← Pattern;
    let Value := read_u32 Pattern in
    let DstPtr := DstDevice in
    if (PatternSize =? 1) || (PatternSize =? 2) || (PatternSize =? 4) then
      let NodeParams := mk_memset DstPtr PatternSize N PatternSize Value 1 in
      Some (add_node_and_sync_point B DepsList (MemsetNode NodeParams) Result)
    else
      let NumberOfSteps := PatternSize / 1 in
      if 2 ^ 32 <=? NumberOfSteps then None
      else
        let NodeParamsStepFirst :=
          mk_memset DstPtr 4 (Size / NumberOfSteps) (NumberOfSteps * 1)
            Value 1 in
        match hipGraphAddNode B DepsList (MemsetNode NodeParamsStepFirst) with
        | inl Err => Some (mk_append_result Err B None)
        | inr (B1, GraphNodeFirst) =>
            let '(sp, B2) := AddSyncPoint B1 GraphNodeFirst in
            Some (fill_steps Pattern DstPtr Size NumberOfSteps
                    (steps_from_4 NumberOfSteps) B2 [GraphNodeFirst]
                    (Some sp) Result)
        end.

(** ** Creation, retain, release, finalize (lines 24-30 and 198-246) *)

(** The constructor: [HIPGraph{nullptr}, HIPGraphExec{nullptr}, RefCount{1}].
    The registry starts empty.  (The constructor also retains the context and
    the device, which are objects of their own.) *)
Definition new_command_buffer (hContext hDevice : Z)
    : ur_exp_command_buffer_handle_t_ :=
  mk_command_buffer hContext hDevice None None 1 ∅ 0.

(** [pCommandBufferDesc] is [None] for a null pointer and carries
    [isUpdatable] otherwise; the function discards it.  The second component
    is what is left in [*phCommandBuffer]. *)
Definition urCommandBufferCreateExp (hContext hDevice : Z)
    (pCommandBufferDesc : option bool)
    : ur_result_t * option ur_exp_command_buffer_handle_t_ :=
  match new_throws D with
  | Some true => (UR_RESULT_ERROR_OUT_OF_HOST_MEMORY, None)
  | Some false => (UR_RESULT_ERROR_UNKNOWN, None)
  | None =>
      let B := new_command_buffer hContext hDevice in
      if hipGraphCreate_status D =? hipSuccess then
        (UR_RESULT_SUCCESS, Some (with_HIPGraph (Some []) B))
      else (UR_RESULT_ERROR_OUT_OF_RESOURCES, Some B)
  end.

Definition urCommandBufferRetainExp (B : ur_exp_command_buffer_handle_t_)
    : ur_result_t * ur_exp_command_buffer_handle_t_ :=
  (UR_RESULT_SUCCESS, with_RefCount (inc32 (RefCount B)) B).

(** The destructor (lines 34-46), which [delete] runs.  The releases of
    the context and of the device act on objects of their own and their
    results are only traced.  [UR_CHECK_ERROR] throws when the driver rejects
    the destruction of the graph, and then the executable graph is not
    destroyed, or the destruction of the executable graph; the release has no
    handler for it, so the call returns no result. *)
Definition delete_command_buffer (B : ur_exp_command_buffer_handle_t_)
    : option unit :=
  if negb (hipGraphDestroy_status D (HIPGraph B) =? hipSuccess) then None
  else if negb (hipGraphExecDestroy_status D (HIPGraphExec B) =? hipSuccess)
  then None
  else Some tt.

(** The second component is [None] once the object is deleted. *)
Definition urCommandBufferReleaseExp (B : ur_exp_command_buffer_handle_t_)
    : option (ur_result_t * option ur_exp_command_buffer_handle_t_) :=
  let n := dec32 (RefCount B) in
  if negb (n =? 0) then Some (UR_RESULT_SUCCESS, Some (with_RefCount n B))
  else
    _ ← delete_command_buffer B;
    Some (UR_RESULT_SUCCESS, None).

Definition urCommandBufferFinalizeExp (B : ur_exp_command_buffer_handle_t_)
    : ur_result_t * ur_exp_command_buffer_handle_t_ :=
  match HIPGraph B with
  | None => (UR_RESULT_ERROR_UNKNOWN, B)
  | Some g =>
      if hipGraphInstantiate_status D g =? hipSuccess then
        (UR_RESULT_SUCCESS, with_HIPGraphExec (Some g) B)
      else (UR_RESULT_ERROR_UNKNOWN, B)
  end.

(** ** Append operations (lines 248-724) *)

Definition urCommandBufferAppendKernelLaunchExp
    (B : ur_exp_command_buffer_handle_t_) (hKernel : ur_kernel_handle_t_)
    (workDim : Z) (pGlobalWorkOffset : option (list Z))
    (pGlobalWorkSize : list Z) (pLocalWorkSize : option (list Z))
    (pSyncPointWaitList : list Z)
    : option (append_result * ur_kernel_handle_t_) :=
  if negb (Context B =? kernel_Context hKernel) then
    Some (mk_append_result UR_RESULT_ERROR_INVALID_KERNEL B None, hKernel)
  else if negb (0 <? workDim) then
    Some (mk_append_result UR_RESULT_ERROR_INVALID_WORK_DIMENSION B None,
          hKernel)
  else if negb (workDim <? 4) then
    Some (mk_append_result UR_RESULT_ERROR_INVALID_WORK_DIMENSION B None,
          hKernel)
  else
    let '(Result, DepsList) :=
      getNodesFromSyncPoints B pSyncPointWaitList [] in
    if negb (bool_decide (Result = UR_RESULT_SUCCESS)) then
      Some (mk_append_result Result B None, hKernel)
    else
      first ← head pGlobalWorkSize;
      if first =? 0 then
        (* Create an empty node if the kernel workload size is zero *)
        Some (add_node_and_sync_point B DepsList EmptyNode Result, hKernel)
      else
        let LocalSize := LocalSize hKernel in
        let '(Result, HIPFunc, (ThreadsPerBlock, BlocksPerGrid)) :=
          setKernelParams D (Device B) workDim pGlobalWorkOffset
            pGlobalWorkSize pLocalWorkSize hKernel in
        if negb (bool_decide (Result = UR_RESULT_SUCCESS)) then
          Some (mk_append_result Result B None, hKernel)
        else
          let NodeParams :=
            mk_kernel_params HIPFunc BlocksPerGrid ThreadsPerBlock LocalSize
              (ArgIndices hKernel) in
          match hipGraphAddNode B DepsList (KernelNode NodeParams) with
          | inl Err => Some (mk_append_result Err B None, hKernel)
          | inr (B1, GraphNode) =>
              let hKernel' :=
                if negb (LocalSize =? 0) then clearLocalSize hKernel
                else hKernel in
              let '(sp, B2) := AddSyncPoint B1 GraphNode in
              Some (mk_append_result Result B2 (Some sp), hKernel')
          end.

(** The shape shared by the appends that resolve the wait list, return on
    failure, and add one node. *)
Definition append_one_node (B : ur_exp_command_buffer_handle_t_)
    (pSyncPointWaitList : list Z) (p : node_params) (OnSuccess : ur_result_t)
    : append_result :=
  let '(Result, DepsList) :=
    getNodesFromSyncPoints B pSyncPointWaitList [] in
  if negb (bool_decide (Result = UR_RESULT_SUCCESS)) then
    mk_append_result Result B None
  else add_node_and_sync_point B DepsList p OnSuccess.

Definition urCommandBufferAppendUSMMemcpyExp
    (B : ur_exp_command_buffer_handle_t_) (pDst pSrc size : Z)
    (pSyncPointWaitList : list Z) : append_result :=
  append_one_node B pSyncPointWaitList
    (MemcpyNode1D pDst pSrc size hipMemcpyHostToHost) UR_RESULT_SUCCESS.

Definition urCommandBufferAppendMemBufferCopyExp
    (B : ur_exp_command_buffer_handle_t_) (hSrcMem hDstMem : ur_mem_handle_t_)
    (srcOffset dstOffset size : Z) (pSyncPointWaitList : list Z)
    : append_result :=
  if negb (wrap64 (size + dstOffset) <=? mem_Size hDstMem) then
    mk_append_result UR_RESULT_ERROR_INVALID_SIZE B None
  else if negb (wrap64 (size + srcOffset) <=? mem_Size hSrcMem) then
    mk_append_result UR_RESULT_ERROR_INVALID_SIZE B None
  else
    let Src := getPtrWithOffset hSrcMem srcOffset in
    let Dst := getPtrWithOffset hDstMem dstOffset in
    append_one_node B pSyncPointWaitList
      (MemcpyNode1D Dst Src size hipMemcpyDeviceToDevice) UR_RESULT_SUCCESS.

Definition urCommandBufferAppendMemBufferCopyRectExp
    (B : ur_exp_command_buffer_handle_t_) (hSrcMem hDstMem : ur_mem_handle_t_)
    (srcOrigin dstOrigin region : Z * Z * Z)
    (srcRowPitch srcSlicePitch dstRowPitch dstSlicePitch : Z)
    (pSyncPointWaitList : list Z) : append_result :=
  let SrcPtr := mem_Ptr hSrcMem in
  let DstPtr := mem_Ptr hDstMem in
  append_one_node B pSyncPointWaitList
    (MemcpyNode
       (mk_copy_rect region SrcPtr hipMemoryTypeDevice srcOrigin srcRowPitch
          srcSlicePitch DstPtr hipMemoryTypeDevice dstOrigin dstRowPitch
          dstSlicePitch))
    UR_RESULT_SUCCESS.

Definition urCommandBufferAppendMemBufferWriteExp
    (B : ur_exp_command_buffer_handle_t_) (hBuffer : ur_mem_handle_t_)
    (offset size pSrc : Z) (pSyncPointWaitList : list Z) : append_result :=
  let Dst := getPtrWithOffset hBuffer offset in
  append_one_node B pSyncPointWaitList
    (MemcpyNode1D Dst pSrc size hipMemcpyHostToDevice) UR_RESULT_SUCCESS.

Definition urCommandBufferAppendMemBufferReadExp
    (B : ur_exp_command_buffer_handle_t_) (hBuffer : ur_mem_handle_t_)
    (offset size pDst : Z) (pSyncPointWaitList : list Z) : append_result :=
  let Src := getPtrWithOffset hBuffer offset in
  append_one_node B pSyncPointWaitList
    (MemcpyNode1D pDst Src size hipMemcpyDeviceToHost) UR_RESULT_SUCCESS.

Definition urCommandBufferAppendMemBufferWriteRectExp
    (B : ur_exp_command_buffer_handle_t_) (hBuffer : ur_mem_handle_t_)
    (bufferOffset hostOffset region : Z * Z * Z)
    (bufferRowPitch bufferSlicePitch hostRowPitch hostSlicePitch pSrc : Z)
    (pSyncPointWaitList : list Z) : append_result :=
  let DstPtr := mem_Ptr hBuffer in
  append_one_node B pSyncPointWaitList
    (MemcpyNode
       (mk_copy_rect region pSrc hipMemoryTypeHost hostOffset hostRowPitch
          hostSlicePitch DstPtr hipMemoryTypeDevice bufferOffset
          bufferRowPitch bufferSlicePitch))
    UR_RESULT_SUCCESS.

Definition urCommandBufferAppendMemBufferReadRectExp
    (B : ur_exp_command_buffer_handle_t_) (hBuffer : ur_mem_handle_t_)
    (bufferOffset hostOffset region : Z * Z * Z)
    (bufferRowPitch bufferSlicePitch hostRowPitch hostSlicePitch pDst : Z)
    (pSyncPointWaitList : list Z) : append_result :=
  let SrcPtr := mem_Ptr hBuffer in
  append_one_node B pSyncPointWaitList
    (MemcpyNode
       (mk_copy_rect region SrcPtr hipMemoryTypeDevice bufferOffset
          bufferRowPitch bufferSlicePitch pDst hipMemoryTypeHost hostOffset
          hostRowPitch hostSlicePitch))
    UR_RESULT_SUCCESS.

(** Prefetch and advise are replaced by an empty node; once the node is
    added and its sync point minted, the result is the adapter-specific
    code. *)
Definition urCommandBufferAppendUSMPrefetchExp
    (B : ur_exp_command_buffer_handle_t_) (pSyncPointWaitList : list Z)
    : append_result :=
  append_one_node B pSyncPointWaitList EmptyNode
    UR_RESULT_ERROR_ADAPTER_SPECIFIC.

Definition urCommandBufferAppendUSMAdviseExp
    (B : ur_exp_command_buffer_handle_t_) (pSyncPointWaitList : list Z)
    : append_result :=
  append_one_node B pSyncPointWaitList EmptyNode
    UR_RESULT_ERROR_ADAPTER_SPECIFIC.

Definition urCommandBufferAppendMemBufferFillExp
    (B : ur_exp_command_buffer_handle_t_) (hBuffer : ur_mem_handle_t_)
    (pPattern : option (Z -> Z)) (patternSize offset size : Z)
    (pSyncPointWaitList : list Z) : option append_result :=
  if patternSize =? 0 then None  (* offset % patternSize *)
  else
    let ArgsAreMultiplesOfPatternSize :=
      (offset mod patternSize =? 0) || (size mod patternSize =? 0) in
    let PatternIsValid := bool_decide (is_Some pPattern) in
    let PatternSizeIsValid :=
      (Z.land patternSize (wrap64 (patternSize - 1)) =? 0)
      && (0 <? patternSize) in
    if negb (ArgsAreMultiplesOfPatternSize && PatternIsValid
             && PatternSizeIsValid) then
      Some (mk_append_result UR_RESULT_ERROR_INVALID_SIZE B None)
    else
      let DstDevice := getPtrWithOffset hBuffer offset in
      enqueueCommandBufferFillHelper B DstDevice hipMemoryTypeDevice pPattern
        patternSize size pSyncPointWaitList.

Definition urCommandBufferAppendUSMFillExp
    (B : ur_exp_command_buffer_handle_t_) (pPtr : Z)
    (pPattern : option (Z -> Z)) (patternSize size : Z)
    (pSyncPointWaitList : list Z) : option append_result :=
  let PatternIsValid := bool_decide (is_Some pPattern) in
  let PatternSizeIsValid :=
    (Z.land patternSize (wrap64 (patternSize - 1)) =? 0)
    && (0 <? patternSize) in
  if negb (PatternIsValid && PatternSizeIsValid) then
    Some (mk_append_result UR_RESULT_ERROR_INVALID_SIZE B None)
  else
    enqueueCommandBufferFillHelper B pPtr hipMemoryTypeUnified pPattern
      patternSize size pSyncPointWaitList.

(** ** Enqueue (lines 726-764) *)

(** [ScopedContext] of [context.hpp]: the constructor activates the context
    of the device when another one is active and remembers whether the
    original one has to be restored.  The result is the error thrown, or the
    thread after construction together with [Original] and
    [NeedToRecover]. *)
Definition ScopedContext_enter (hDevice : option Z) (T : hip_thread)
    : ur_result_t + hip_thread * Z * bool :=
  match hDevice with
  | None => inl UR_RESULT_ERROR_INVALID_DEVICE
  | Some dev =>
      let Desired := getNativeContext D dev in
      if negb (hipCtxGetCurrent_status D =? hipSuccess) then
        inl (mapErrorUR D (hipCtxGetCurrent_status D))
      else
        let Original := current_context T in
        if negb (Original =? Desired) then
          if negb (hipCtxSetCurrent_status D Desired =? hipSuccess) then
            inl (mapErrorUR D (hipCtxSetCurrent_status D Desired))
          else
            let T1 := mk_thread Desired (queue T) (launched T) in
            if Original =? 0 then inr (T1, Original, false)
            else inr (T1, Original, true)
        else inr (T, Original, false)
  end.

(** The destructor; an error thrown there ends the program. *)
Definition ScopedContext_leave (Original : Z) (NeedToRecover : bool)
    (T : hip_thread) : option hip_thread :=
  if NeedToRecover then
    if hipCtxSetCurrent_status D Original =? hipSuccess then
      Some (mk_thread Original (queue T) (launched T))
    else None
  else Some T.

(** The result of enqueue: the code, the command buffer, the thread and the
    event left in [*phEvent], if one was written. *)
Record enqueue_result : Type := mk_enqueue_result {
  enq_code : ur_result_t;
  enq_buffer : ur_exp_command_buffer_handle_t_;
  enq_thread : hip_thread;
  enq_event : option ur_event_handle_t_
}.

(** The body of the [try] block after [Active] is constructed. *)
Definition enqueue_body (B : ur_exp_command_buffer_handle_t_)
    (phEventWaitList : list Z) (phEvent : bool) (T : hip_thread)
    : ur_result_t * hip_thread * option ur_event_handle_t_ :=
  let hQueue := queue T in
  let StreamToken := queue_StreamToken hQueue in
  let HIPStream := getNextComputeStream D hQueue phEventWaitList in
  let T1 :=
    mk_thread (current_context T)
      (mk_queue (queue_Device hQueue) (StreamToken + 1)) (launched T) in
  let Result := enqueueEventsWait D hQueue HIPStream phEventWaitList in
  if negb (bool_decide (Result = UR_RESULT_SUCCESS)) then (Result, T1, None)
  else if phEvent && negb (event_start_status D =? hipSuccess) then
    (mapErrorUR D (event_start_status D), T1, None)
  else
    (* Launch graph *)
    let st := hipGraphLaunch_status D (HIPGraphExec B) HIPStream in
    if negb (st =? hipSuccess) then (mapErrorUR D st, T1, None)
    else
      let T2 :=
        mk_thread (current_context T1) (queue T1)
          (launched T1 ++ [(HIPGraphExec B, HIPStream)]) in
      if phEvent then
        if negb (event_record_status D =? hipSuccess) then
          (mapErrorUR D (event_record_status D), T2, None)
        else (Result, T2, Some (mk_event HIPStream StreamToken))
      else (Result, T2, None).

Definition urCommandBufferEnqueueExp (B : ur_exp_command_buffer_handle_t_)
    (phEventWaitList : list Z) (phEvent : bool) (T : hip_thread)
    : option enqueue_result :=
  match ScopedContext_enter (queue_Device (queue T)) T with
  | inl Err => Some (mk_enqueue_result Err B T None)
  | inr (T1, Original, NeedToRecover) =>
      let '(Result, T2, Event) :=
        enqueue_body B phEventWaitList phEvent T1 in
      T3 ← ScopedContext_leave Original NeedToRecover T2;
      Some (mk_enqueue_result Result B T3 Event)
  end.

(** ** Every append operation

    The requests a caller can record, and the entry point each one goes
    to. *)
Inductive append_request : Type :=
  | AppendKernelLaunch (hKernel : ur_kernel_handle_t_) (workDim : Z)
      (pGlobalWorkOffset : option (list Z)) (pGlobalWorkSize : list Z)
      (pLocalWorkSize : option (list Z))
  | AppendUSMMemcpy (pDst pSrc size : Z)
  | AppendMemBufferCopy (hSrcMem hDstMem : ur_mem_handle_t_)
      (srcOffset dstOffset size : Z)
  | AppendMemBufferCopyRect (hSrcMem hDstMem : ur_mem_handle_t_)
      (srcOrigin dstOrigin region : Z * Z * Z)
      (srcRowPitch srcSlicePitch dstRowPitch dstSlicePitch : Z)
  | AppendMemBufferWrite (hBuffer : ur_mem_handle_t_) (offset size pSrc : Z)
  | AppendMemBufferRead (hBuffer : ur_mem_handle_t_) (offset size pDst : Z)
  | AppendMemBufferWriteRect (hBuffer : ur_mem_handle_t_)
      (bufferOffset hostOffset region : Z * Z * Z)
      (bufferRowPitch bufferSlicePitch hostRowPitch hostSlicePitch pSrc : Z)
  | AppendMemBufferReadRect (hBuffer : ur_mem_handle_t_)
      (bufferOffset hostOffset region : Z * Z * Z)
      (bufferRowPitch bufferSlicePitch hostRowPitch hostSlicePitch pDst : Z)
  | AppendUSMPrefetch
  | AppendUSMAdvise
  | AppendMemBufferFill (hBuffer : ur_mem_handle_t_)
      (pPattern : option (Z -> Z)) (patternSize offset size : Z)
  | AppendUSMFill (pPtr : Z) (pPattern : option (Z -> Z))
      (patternSize size : Z).

Definition append (r : append_request) (pSyncPointWaitList : list Z)
    (B : ur_exp_command_buffer_handle_t_) : option append_result :=
  match r with
  | AppendKernelLaunch hKernel workDim goff gsize lsize =>
      fst <$> urCommandBufferAppendKernelLaunchExp B hKernel workDim goff
                gsize lsize pSyncPointWaitList
  | AppendUSMMemcpy pDst pSrc size =>
      Some (urCommandBufferAppendUSMMemcpyExp B pDst pSrc size
              pSyncPointWaitList)
  | AppendMemBufferCopy hSrcMem hDstMem srcOffset dstOffset size =>
      Some (urCommandBufferAppendMemBufferCopyExp B hSrcMem hDstMem srcOffset
              dstOffset size pSyncPointWaitList)
  | AppendMemBufferCopyRect hSrcMem hDstMem srcOrigin dstOrigin region
      srcRowPitch srcSlicePitch dstRowPitch dstSlicePitch =>
      Some (urCommandBufferAppendMemBufferCopyRectExp B hSrcMem hDstMem
              srcOrigin dstOrigin region srcRowPitch srcSlicePitch
              dstRowPitch dstSlicePitch pSyncPointWaitList)
  | AppendMemBufferWrite hBuffer offset size pSrc =>
      Some (urCommandBufferAppendMemBufferWriteExp B hBuffer offset size pSrc
              pSyncPointWaitList)
  | AppendMemBufferRead hBuffer offset size pDst =>
      Some (urCommandBufferAppendMemBufferReadExp B hBuffer offset size pDst
              pSyncPointWaitList)
  | AppendMemBufferWriteRect hBuffer bufferOffset hostOffset region
      bufferRowPitch bufferSlicePitch hostRowPitch hostSlicePitch pSrc =>
      Some (urCommandBufferAppendMemBufferWriteRectExp B hBuffer bufferOffset
              hostOffset region bufferRowPitch bufferSlicePitch hostRowPitch
              hostSlicePitch pSrc pSyncPointWaitList)
  | AppendMemBufferReadRect hBuffer bufferOffset hostOffset region
      bufferRowPitch bufferSlicePitch hostRowPitch hostSlicePitch pDst =>
      Some (urCommandBufferAppendMemBufferReadRectExp B hBuffer bufferOffset
              hostOffset region bufferRowPitch bufferSlicePitch hostRowPitch
              hostSlicePitch pDst pSyncPointWaitList)
  | AppendUSMPrefetch =>
      Some (urCommandBufferAppendUSMPrefetchExp B pSyncPointWaitList)
  | AppendUSMAdvise =>
      Some (urCommandBufferAppendUSMAdviseExp B pSyncPointWaitList)
  | AppendMemBufferFill hBuffer pPattern patternSize offset size =>
      urCommandBufferAppendMemBufferFillExp B hBuffer pPattern patternSize
        offset size pSyncPointWaitList
  | AppendUSMFill pPtr pPattern patternSize size =>
      urCommandBufferAppendUSMFillExp B pPtr pPattern patternSize size
        pSyncPointWaitList
  end.

End Adapter.

(** ** Notions used to state the properties *)

(** The wait list resolved through the registry. *)
Definition known_sync_point (B : ur_exp_command_buffer_handle_t_) (sp : Z)
    : Prop :=
  is_Some (SyncPoints B !! sp).

Definition resolved (B : ur_exp_command_buffer_handle_t_)
    (SyncPointWaitList : list Z) : list nat :=
  omap (fun sp => SyncPoints B !! sp) SyncPointWaitList.

(** The registry after [k] sync points are minted from [sp0] on, for the
    nodes [n0], [n0 + 1], ... in this order. *)
Fixpoint register (m : gmap Z nat) (sp0 : Z) (n0 : nat) (k : nat)
    : gmap Z nat :=
  match k with
  | O => m
  | S k' => register (<[sp0 := n0]> m) (sp0 + 1) (S n0) k'
  end.

(** The command buffer after [nodes] are added to its graph, one sync point
    being minted for each. *)
Definition appended (B : ur_exp_command_buffer_handle_t_)
    (nodes : list hipGraphNode) : ur_exp_command_buffer_handle_t_ :=
  match HIPGraph B with
  | None => B
  | Some g =>
      mk_command_buffer (Context B) (Device B) (Some (g ++ nodes))
        (HIPGraphExec B) (RefCount B)
        (register (SyncPoints B) (NextSyncPoint B) (length g) (length nodes))
        (NextSyncPoint B + Z.of_nat (length nodes))
  end.

(** The nodes of a fill.  The first one carries the wait list; it is as wide
    as the pattern for a pattern of 1, 2 or 4 bytes and 4 bytes wide
    otherwise. *)
Definition native_width (PatternSize : Z) : bool :=
  (PatternSize =? 1) || (PatternSize =? 2) || (PatternSize =? 4).

Definition fill_first_node (Pattern : Z -> Z) (DstPtr PatternSize Size : Z)
    (DepsList : list nat) : hipGraphNode :=
  mk_node
    (MemsetNode
       (mk_memset DstPtr (if native_width PatternSize then PatternSize else 4)
          (Size / PatternSize) PatternSize (read_u32 Pattern) 1))
    DepsList.

(** The single-byte node for byte [Step] of the pattern, with the node
    [prev] as its only predecessor. *)
Definition fill_byte_node (Pattern : Z -> Z) (DstPtr PatternSize Size : Z)
    (Step : Z) (prev : nat) : hipGraphNode :=
  mk_node
    (MemsetNode
       (mk_memset (DstPtr + Step) 1 (Size / PatternSize) PatternSize
          (read_u8 Pattern Step) 1))
    [prev].

(** The chain of [n] single-byte nodes for the bytes [a], [a + 1], ...; the
    first one has node [p] as predecessor, each next one the one before. *)
Definition fill_byte_nodes (Pattern : Z -> Z) (DstPtr PatternSize Size : Z)
    (a p n : nat) : list hipGraphNode :=
  map (fun j => fill_byte_node Pattern DstPtr PatternSize Size
                  (Z.of_nat (a + j)) (p + j)%nat)
    (seq 0 n).

Definition fill_nodes (Pattern : Z -> Z) (DstPtr PatternSize Size : Z)
    (first_index : nat) (DepsList : list nat) : list hipGraphNode :=
  fill_first_node Pattern DstPtr PatternSize Size DepsList ::
  (if native_width PatternSize then []
   else fill_byte_nodes Pattern DstPtr PatternSize Size 4 first_index
          (Z.to_nat (PatternSize - 4))).

(** Every node of the graph from position [first] on has every earlier node
    from [first] on among its predecessors. *)
Definition chained_to_all_previous (first : nat) (g : list hipGraphNode)
    : Prop :=
  forall i j node,
    (first <= j < i)%nat -> g !! i = Some node -> j ∈ dependencies node.

(** Every such node other than the one at [first] has the node just before
    it as its only predecessor. *)
Definition chained_to_previous (first : nat) (g : list hipGraphNode) : Prop :=
  forall i node,
    (first < i)%nat -> g !! i = Some node ->
    dependencies node = [(i - 1)%nat].

Definition on_buffer
    (f : ur_exp_command_buffer_handle_t_ -> ur_exp_command_buffer_handle_t_)
    (r : append_result) : append_result :=
  mk_append_result (app_code r) (f (app_buffer r)) (app_sync_point r).

(** The two fill requests. *)
Definition is_fill (r : append_request) : bool :=
  match r with
  | AppendMemBufferFill _ _ _ _ _ | AppendUSMFill _ _ _ _ => true
  | _ => false
  end.

Definition power_of_two (x : Z) : Prop := exists k, 0 <= k /\ x = 2 ^ k.

(** The graph a fill with the 8-byte [sample_pattern] of 64 bytes at address
    1000 leaves in [sample_buffer]. *)
Definition sample_fill_graph : list hipGraphNode :=
  [ mk_node (MemsetNode (mk_memset 1000 4 8 8 0x04030201 1)) [];
    mk_node (MemsetNode (mk_memset 1004 1 8 8 5 1)) [0%nat];
    mk_node (MemsetNode (mk_memset 1005 1 8 8 6 1)) [1%nat];
    mk_node (MemsetNode (mk_memset 1006 1 8 8 7 1)) [2%nat];
    mk_node (MemsetNode (mk_memset 1007 1 8 8 8 1)) [3%nat] ].

(** The driver accepts every node. *)
Definition accepts_every_node (D : hip_driver) : Prop :=
  forall g node, hipGraphAddNode_status D g node = hipSuccess.

(** A driver that accepts every native call and never fails, except that
    it rejects the destruction of a null handle. *)
Definition sample_driver : hip_driver :=
  mk_driver hipSuccess (fun _ _ => hipSuccess) (fun _ => hipSuccess)
    (fun _ _ => hipSuccess) UR_RESULT_ERROR_NATIVE
    (fun _ _ _ _ _ K =>
       (UR_RESULT_SUCCESS, kernel_Function K, ((64, 1, 1), (1, 1, 1))))
    None (fun dev => dev + 100) hipSuccess (fun _ => hipSuccess)
    (fun q _ => queue_StreamToken q) (fun _ _ _ => UR_RESULT_SUCCESS)
    hipSuccess hipSuccess
    (fun g => match g with Some _ => hipSuccess | None => hipErrorInvalidValue
              end)
    (fun g => match g with Some _ => hipSuccess | None => hipErrorInvalidValue
              end).

(** A command buffer as creation leaves it under that driver. *)
Definition sample_buffer : ur_exp_command_buffer_handle_t_ :=
  with_HIPGraph (Some []) (new_command_buffer 1 2).

(** [sample_buffer] after a finalize. *)
Definition finalized_buffer : ur_exp_command_buffer_handle_t_ :=
  with_HIPGraphExec (Some []) sample_buffer.

(** A kernel of the context of [sample_buffer]. *)
Definition sample_kernel : ur_kernel_handle_t_ := mk_kernel 1 9 16 [40; 48].

(** A thread with no active context and a queue on device 2. *)
Definition sample_thread : hip_thread :=
  mk_thread 0 (mk_queue (Some 2) 0) [].

(** A pattern whose byte at offset [i] is [i + 1]. *)
Definition sample_pattern : Z -> Z := fun i => i + 1.

(** The fill of 64 bytes at address 1000 with the 8-byte [sample_pattern],
    run on [sample_buffer]. *)
Definition enqueueCommandBufferFillHelper_sample_result
    : option append_result :=
  enqueueCommandBufferFillHelper sample_driver sample_buffer 1000
    hipMemoryTypeUnified (Some sample_pattern) 8 64 [].

(** ** Notions used to state the properties of a recording *)

(** The nodes of the graph; none for a null graph. *)
Definition graph_nodes (B : ur_exp_command_buffer_handle_t_)
    : list hipGraphNode :=
  default [] (HIPGraph B).

(** Every registered sync point is bound to a node of the graph. *)
Definition registry_in_graph (B : ur_exp_command_buffer_handle_t_) : Prop :=
  forall sp n,
    SyncPoints B !! sp = Some n -> (n < length (graph_nodes B))%nat.

(** Every predecessor of a node is a node added before it. *)
Definition predecessors_earlier (g : list hipGraphNode) : Prop :=
  forall i node d,
    g !! i = Some node -> d ∈ dependencies node -> (d < i)%nat.

Definition well_formed (B : ur_exp_command_buffer_handle_t_) : Prop :=
  registry_in_graph B /\ predecessors_earlier (graph_nodes B).

(** [B'] is [B] with nodes added at the end of the graph: the nodes of [B]
    are the first nodes of [B'], unchanged, and the context, the device, the
    executable graph and the reference count are the same. *)
Definition extends (B B' : ur_exp_command_buffer_handle_t_) : Prop :=
  Context B' = Context B /\ Device B' = Device B /\
  HIPGraphExec B' = HIPGraphExec B /\ RefCount B' = RefCount B /\
  graph_nodes B `prefix_of` graph_nodes B'.

(** Sync point [sp] is bound to the last node of the graph of [B'], a node
    that the graph of [B] does not have. *)
Definition bound_to_new_last_node (B B' : ur_exp_command_buffer_handle_t_)
    (sp : Z) : Prop :=
  exists n,
    SyncPoints B' !! sp = Some n /\
    S n = length (graph_nodes B') /\
    (length (graph_nodes B) <= n)%nat.

(** What every append keeps: the command buffer it returns is well formed
    and extends the one it was given, and the sync point it leaves in
    [*pSyncPoint], if any, is bound to the node added last. *)
Definition sound_outcome (B : ur_exp_command_buffer_handle_t_)
    (res : append_result) : Prop :=
  well_formed (app_buffer res) /\ extends B (app_buffer res) /\
  forall sp,
    app_sync_point res = Some sp ->
    bound_to_new_last_node B (app_buffer res) sp.

(** [B'] is [B] with the reference count [n]: every other field is the
    same. *)
Definition same_but_count (B B' : ur_exp_command_buffer_handle_t_) (n : Z)
    : Prop :=
  RefCount B' = n /\ Context B' = Context B /\ Device B' = Device B /\
  HIPGraph B' = HIPGraph B /\ HIPGraphExec B' = HIPGraphExec B /\
  SyncPoints B' = SyncPoints B /\ NextSyncPoint B' = NextSyncPoint B.

(** The driver destroys the graph and the executable graph of [B]. *)
Definition destroys (D : hip_driver) (B : ur_exp_command_buffer_handle_t_)
    : bool :=
  (hipGraphDestroy_status D (HIPGraph B) =? hipSuccess)
  && (hipGraphExecDestroy_status D (HIPGraphExec B) =? hipSuccess).

(** The outcome of an append that adds one node or nothing. *)
Definition nothing_added (B : ur_exp_command_buffer_handle_t_)
    (res : append_result) : Prop :=
  app_buffer res = B /\ app_sync_point res = None.

Definition one_node_added (B : ur_exp_command_buffer_handle_t_)
    (waits : list Z) (res : append_result) : Prop :=
  exists g p,
    HIPGraph B = Some g /\
    Forall (known_sync_point B) waits /\
    app_buffer res = appended B [mk_node p (resolved B waits)] /\
    app_sync_point res = Some (NextSyncPoint B).

(** A recording: the requests are appended one after the other, whatever
    code each one returns. *)
Fixpoint record (D : hip_driver) (rs : list (append_request * list Z))
    (B : ur_exp_command_buffer_handle_t_)
    : option ur_exp_command_buffer_handle_t_ :=
  match rs with
  | [] => Some B
  | (r, waits) :: rs' =>
      res ← append D r waits B;
      record D rs' (app_buffer res)
  end.

(** The driver maps no failure status to success. *)
Definition failures_are_errors (D : hip_driver) : Prop :=
  forall st, st <> hipSuccess -> mapErrorUR D st <> UR_RESULT_SUCCESS.

(** A buffer object of 256 bytes at address 4096. *)
Definition sample_mem : ur_mem_handle_t_ := mk_mem 4096 256.

(** A thread on which context 7 is active, with a queue on device 2. *)
Definition busy_thread : hip_thread :=
  mk_thread 7 (mk_queue (Some 2) 3) [].

End HIP.

(** * The HIP context ([hip/context.hpp]) *)

Module HIPContext.

(** [deleter_data]: the callback and its argument. *)
Record deleter_data : Type := mk_deleter {
  Function : Z;
  UserData : Z
}.

(** [ur_context_handle_t_]: the device, the reference count and the list of
    extended deleters (the pool set has no inline member). *)
Record ur_context_handle_t_ : Type := mk_context {
  DeviceId : Z;
  RefCount : Z;
  ExtendedDeleters : list deleter_data
}.

(** The constructor: [DeviceId{DevId}, RefCount{1}]. *)
Definition new_context (DevId : Z) : ur_context_handle_t_ :=
  mk_context DevId 1 [].

(** [setExtendedDeleter]: [ExtendedDeleters.emplace_back(...)]. *)
Definition setExtendedDeleter (Function UserData : Z)
    (C : ur_context_handle_t_) : ur_context_handle_t_ :=
  mk_context (DeviceId C) (RefCount C)
    (ExtendedDeleters C ++ [mk_deleter Function UserData]).

(** [invokeExtendedDeleters]: the calls [Function(UserData)] made, in the
    order they are made; the list is left as it is. *)
Definition invokeExtendedDeleters (C : ur_context_handle_t_)
    : list (Z * Z) * ur_context_handle_t_ :=
  (map (fun d => (Function d, UserData d)) (ExtendedDeleters C), C).

Definition incrementReferenceCount (C : ur_context_handle_t_)
    : Z * ur_context_handle_t_ :=
  let n := inc32 (RefCount C) in
  (n, mk_context (DeviceId C) n (ExtendedDeleters C)).

Definition decrementReferenceCount (C : ur_context_handle_t_)
    : Z * ur_context_handle_t_ :=
  let n := dec32 (RefCount C) in
  (n, mk_context (DeviceId C) n (ExtendedDeleters C)).

Definition getReferenceCount (C : ur_context_handle_t_) : Z := RefCount C.

Definition getDevice (C : ur_context_handle_t_) : Z := DeviceId C.

(** Registering the deleters of a list, first to last. *)
Definition register_all (l : list (Z * Z)) (C : ur_context_handle_t_)
    : ur_context_handle_t_ :=
  foldl (fun C d => setExtendedDeleter d.1 d.2 C) C l.

End HIPContext.

(** * Asynchronous USM allocation of the CUDA adapter ([cuda/async_alloc.cpp]) *)

Module CUDA.


(** The calls the entry points make after the context is active. *)
Inductive cu_call : Type :=
  | call_enqueueEventsWait (stream : Z) (waits : list Z)
  | call_event_start (stream : Z)
  | call_cuMemAllocFromPoolAsync (size pool stream : Z)
  | call_cuMemAllocAsync (size stream : Z)
  | call_cuMemFreeAsync (pMem stream : Z)
  | call_event_record (stream : Z).

(** The driver and the collaborators.  A step under [UR_CHECK_ERROR] either
    throws a result, which the function-level [catch] returns, or goes on. *)
Record cu_driver : Type := mk_driver {
  (** What the constructor of [ScopedContext] throws for this device. *)
  ScopedContext_throws : option Z -> option ur_result_t;
  (** [hQueue->getNextComputeStream] for this wait list. *)
  getNextComputeStream : list Z -> Z;
  enqueueEventsWait_throws : Z -> list Z -> option ur_result_t;
  event_start_throws : option ur_result_t;
  (** The result thrown, or the pointer stored in [*ppMem]. *)
  cuMemAllocFromPoolAsync : Z -> Z -> Z -> ur_result_t + Z;
  cuMemAllocAsync : Z -> Z -> ur_result_t + Z;
  cuMemFreeAsync_throws : Z -> Z -> option ur_result_t;
  event_record_throws : option ur_result_t
}.

(** The result of an entry point: the code, the calls made, the pointer left
    in [*ppMem] and the stream of the event left in [*phEvent], when they are
    written. *)
Record enqueue_result : Type := mk_result {
  res_code : ur_result_t;
  res_calls : list cu_call;
  res_mem : option Z;
  res_event : option Z
}.

Section Adapter.

Variable D : cu_driver.






(** Lines 108-113. *)
Definition urEnqueueUSMSharedAllocExp : enqueue_result :=
  mk_result UR_RESULT_ERROR_UNSUPPORTED_FEATURE [] None None.


End Adapter.

(** ** Notions used to state the properties *)






(** Nothing the driver or a collaborator throws is the success code. *)
Definition failures_are_errors (D : cu_driver) : Prop :=
  (forall d Err, ScopedContext_throws D d = Some Err ->
     Err <> UR_RESULT_SUCCESS)
  /\ (forall s w Err, enqueueEventsWait_throws D s w = Some Err ->
        Err <> UR_RESULT_SUCCESS)
  /\ (forall Err, event_start_throws D = Some Err ->
        Err <> UR_RESULT_SUCCESS)
  /\ (forall n p s Err, cuMemAllocFromPoolAsync D n p s = inl Err ->
        Err <> UR_RESULT_SUCCESS)
  /\ (forall n s Err, cuMemAllocAsync D n s = inl Err ->
        Err <> UR_RESULT_SUCCESS)
  /\ (forall m s Err, cuMemFreeAsync_throws D m s = Some Err ->
        Err <> UR_RESULT_SUCCESS)
  /\ (forall Err, event_record_throws D = Some Err ->
        Err <> UR_RESULT_SUCCESS).




(** A driver on which every step passes; allocations give the address
    65536. *)
Definition sample_driver : cu_driver :=
  mk_driver (fun _ => None) (fun _ => 5) (fun _ _ => None) None
    (fun _ _ _ => inr 65536) (fun _ _ => inr 65536) (fun _ _ => None) None.


End CUDA.

(** * Properties *)

(** ** Counters *)

Lemma dec32_pos x : 1 <= x < UINT32_MOD -> dec32 x = x - 1.
Proof. intros H. unfold dec32. apply Z.mod_small. lia. Qed.

Lemma dec32_zero_iff x : 0 <= x < UINT32_MOD -> (dec32 x = 0 <-> x = 1).
Proof.
  intros H. unfold dec32, UINT32_MOD in *. split.
  - intros E. destruct (Z.eq_dec x 0) as [->|Hx].
    + vm_compute in E. discriminate.
    + rewrite Z.mod_small in E by lia. lia.
  - intros ->. reflexivity.
Qed.

Lemma inc32_small x : 0 <= x < UINT32_MOD - 1 -> inc32 x = x + 1.
Proof. intros H. unfold inc32. apply Z.mod_small. lia. Qed.

(** ** OpenCL: the two reference counts *)

Section OpenCL_reference_counts.
Import OpenCL.
Variable D : cl_driver.

Lemma with_RefCountInternal_same B :
  with_RefCountInternal (RefCountInternal B) B = B.
Proof. by destruct B. Qed.

Lemma with_RefCountInternal_twice n m B :
  with_RefCountInternal n (with_RefCountInternal m B) =
  with_RefCountInternal n B.
Proof. reflexivity. Qed.

(** An internal release that does not reach zero only stores the count. *)
Lemma commandBufferReleaseInternal_keep b s B :
  buffers s !! b = Some B ->
  dec32 (RefCountInternal B) <> 0 ->
  commandBufferReleaseInternal D b s =
    Some (UR_RESULT_SUCCESS,
          set_buffer b (with_RefCountInternal (dec32 (RefCountInternal B)) B) s).
Proof.
  intros HB Hn. unfold commandBufferReleaseInternal. rewrite HB. simpl.
  destruct (Z.eqb_spec (dec32 (RefCountInternal B)) 0); done.
Qed.

(** An internal release that reaches zero runs the destructor and frees the
    object. *)
Lemma commandBufferReleaseInternal_delete b s B :
  buffers s !! b = Some B ->
  getExtFuncFromContext D (hContext B) ReleaseCommandBufferName = true ->
  dec32 (RefCountInternal B) = 0 ->
  commandBufferReleaseInternal D b s =
    Some (UR_RESULT_SUCCESS,
          mk_state (delete b (buffers s)) (commands s)
            (trace s ++ destructor_calls B)).
Proof.
  intros HB Hext Hn. unfold commandBufferReleaseInternal. rewrite HB. simpl.
  rewrite Hn. simpl. unfold delete_command_buffer. simpl.
  rewrite lookup_insert_eq. simpl. rewrite Hext. simpl.
  unfold free_buffer, issue, destructor_calls. simpl.
  rewrite delete_insert_eq, <- app_assoc. reflexivity.
Qed.

Lemma count_last_ext s1 s2 cs :
  (forall c, c ∈ cs -> commands s1 !! c = commands s2 !! c) ->
  count_last s1 cs = count_last s2 cs.
Proof.
  induction cs as [|c cs IH]; intros H; simpl; [done|].
  rewrite (H c) by apply list_elem_of_here.
  rewrite IH; [done|]. intros c' Hc'. apply H. by apply list_elem_of_further.
Qed.

Lemma count_last_nonneg s cs : 0 <= count_last s cs.
Proof.
  induction cs as [|c cs IH]; simpl; [lia|].
  destruct (commands s !! c ≫= released_command); lia.
Qed.

(** The cascade over the registered handles: as long as the buffer holds
    more internal references than there are handles to delete, every handle
    is released once, the buffer loses one internal reference per deleted
    handle, and no native call is issued. *)
Lemma release_commands_spec b cs :
  forall s B,
    buffers s !! b = Some B ->
    registered b cs s ->
    count_last s cs < RefCountInternal B < UINT32_MOD ->
    exists s',
      release_commands D b cs s = Some s' /\
      buffers s' =
        <[b := with_RefCountInternal (RefCountInternal B - count_last s cs) B]>
          (buffers s) /\
      trace s' = trace s /\
      forall c,
        commands s' !! c =
          if decide (c ∈ cs) then commands s !! c ≫= released_command
          else commands s !! c.
Proof.
  induction cs as [|c cs IH]; intros s B HB [Hnd Hreg] Hcnt.
  - exists s. simpl. rewrite Z.sub_0_r, with_RefCountInternal_same.
    rewrite insert_id by done. repeat split; done.
  - apply NoDup_cons in Hnd as [Hnotin Hnd].
    destruct (Hreg c) as (C & HC & Hparent); [apply list_elem_of_here|].
    simpl in Hcnt. rewrite HC in Hcnt. simpl in Hcnt.
    simpl. rewrite HB. simpl.
    unfold commandHandleReleaseInternal. rewrite HC. simpl.
    unfold released_command in Hcnt.
    destruct (Z.eqb_spec (dec32 (cmdRefCountInternal C)) 0) as [Hz|Hz]; simpl.
    + (* the handle is deleted and the parent released once *)
      pose proof (count_last_nonneg s cs) as Hk.
      rewrite Hparent.
      erewrite commandBufferReleaseInternal_keep; [|exact HB|];
        [|rewrite dec32_pos by lia; lia].
      simpl. rewrite dec32_pos by lia.
      set (s2 := free_command c _).
      assert (Hs2 : forall c', c' ∈ cs -> commands s2 !! c' = commands s !! c').
      { intros c' Hc'. subst s2. simpl.
        assert (c <> c') by (intros ->; done).
        by rewrite lookup_delete_ne, lookup_insert_ne. }
      destruct (IH s2 (with_RefCountInternal (RefCountInternal B - 1) B))
        as (s' & Hrun & Hbuf & Htr & Hcmd).
      * subst s2. simpl. apply lookup_insert_eq.
      * split; [done|]. intros c' Hc'. rewrite (Hs2 c' Hc'). by apply Hreg, list_elem_of_further.
      * rewrite (count_last_ext s2 s cs Hs2). simpl. lia.
      * exists s'. split; [exact Hrun|]. split; [|split].
        -- rewrite Hbuf, (count_last_ext _ s cs Hs2). subst s2. simpl.
           rewrite insert_insert_eq. unfold released_command.
           destruct (Z.eqb_spec (dec32 (cmdRefCountInternal C)) 0); [|done].
           f_equal. unfold with_RefCountInternal. simpl. f_equal. lia.
        -- rewrite Htr. reflexivity.
        -- intros c'. rewrite Hcmd. subst s2. simpl.
           destruct (decide (c' = c)) as [->|Hne].
           ++ rewrite decide_False by done.
              rewrite decide_True by apply list_elem_of_here.
              rewrite lookup_delete_eq, HC. simpl. unfold released_command.
              by destruct (Z.eqb_spec (dec32 (cmdRefCountInternal C)) 0).
           ++ rewrite lookup_delete_ne, lookup_insert_ne by done.
              destruct (decide (c' ∈ cs)) as [Hin|Hnin].
              ** by rewrite decide_True by (by apply list_elem_of_further).
              ** rewrite decide_False; [done|].
                 intros [->|?]%elem_of_cons; done.
    + (* the handle keeps references: only its count changes *)
      set (s1 := set_command c _ s).
      assert (Hs1 : forall c', c' ∈ cs -> commands s1 !! c' = commands s !! c').
      { intros c' Hc'. subst s1. simpl.
        assert (c <> c') by (intros ->; done).
        by rewrite lookup_insert_ne. }
      destruct (IH s1 B) as (s' & Hrun & Hbuf & Htr & Hcmd).
      * done.
      * split; [done|]. intros c' Hc'. rewrite (Hs1 c' Hc'). by apply Hreg, list_elem_of_further.
      * rewrite (count_last_ext s1 s cs Hs1).
        destruct (Z.eqb_spec (dec32 (cmdRefCountInternal C)) 0); [done|].
        simpl in Hcnt. lia.
      * exists s'. split; [exact Hrun|]. split; [|split].
        -- rewrite Hbuf, (count_last_ext _ s cs Hs1). subst s1. simpl.
           unfold released_command.
           by destruct (Z.eqb_spec (dec32 (cmdRefCountInternal C)) 0).
        -- rewrite Htr. reflexivity.
        -- intros c'. rewrite Hcmd. subst s1. simpl.
           destruct (decide (c' = c)) as [->|Hne].
           ++ rewrite decide_False by done.
              rewrite decide_True by apply list_elem_of_here.
              rewrite lookup_insert_eq, HC. simpl. unfold released_command.
              by destruct (Z.eqb_spec (dec32 (cmdRefCountInternal C)) 0).
           ++ rewrite lookup_insert_ne by done.
              destruct (decide (c' ∈ cs)) as [Hin|Hnin].
              ** by rewrite decide_True by (by apply list_elem_of_further).
              ** rewrite decide_False; [done|].
                 intros [->|?]%elem_of_cons; done.
Qed.

(** The buffer store and the trace after an internal release do not depend
    on the command store. *)
Lemma commandBufferReleaseInternal_frame b s B cmds :
  buffers s !! b = Some B ->
  getExtFuncFromContext D (hContext B) ReleaseCommandBufferName = true ->
  exists s1 s2,
    commandBufferReleaseInternal D b s = Some (UR_RESULT_SUCCESS, s1) /\
    commandBufferReleaseInternal D b (mk_state (buffers s) cmds (trace s)) =
      Some (UR_RESULT_SUCCESS, s2) /\
    buffers s2 = buffers s1 /\ trace s2 = trace s1 /\
    commands s1 = commands s /\ commands s2 = cmds.
Proof.
  intros HB Hext.
  destruct (Z.eq_dec (dec32 (RefCountInternal B)) 0) as [Hz|Hz].
  - rewrite (commandBufferReleaseInternal_delete b s B HB Hext Hz).
    rewrite (commandBufferReleaseInternal_delete b
               (mk_state (buffers s) cmds (trace s)) B HB Hext Hz).
    eexists _, _. repeat split; reflexivity.
  - rewrite (commandBufferReleaseInternal_keep b s B HB Hz).
    rewrite (commandBufferReleaseInternal_keep b
               (mk_state (buffers s) cmds (trace s)) B HB Hz).
    eexists _, _. repeat split; reflexivity.
Qed.

(** C1 (OpenCL adapter).  For a live command buffer [b] whose counters are
    32-bit values and whose native release function can be looked up:
    - retain increments the internal and the external count and returns
      success, whatever the state of the buffer: the two counts read from
      the object afterwards are the old ones plus one (modulo 2^32), and
      nothing else changes;
    - an internal release of the buffer returns success, decrements the
      internal count and deletes the object, issuing the two native release
      calls of the destructor, exactly when the count reaches zero; when it
      does not, the internal count read afterwards is the old one minus one
      and the external count is as before;
    - release decrements the external count; when it does not reach zero the
      call is that one internal release of the buffer, and the counts read
      afterwards, if the object is still there, are both the old ones minus
      one;
    - when it reaches zero, with the registered handles distinct live
      children of [b] and the buffer holding more internal references than
      there are handles to delete, every registered handle gets one internal
      release (it is deleted when that was its last reference), no other
      handle is touched, and the buffer ends with its internal count lowered
      once per deleted handle and once for itself, deleted exactly when that
      is zero, and with an external count that reads 0 when it is not;
    - an internal release of a command handle of [b] that reaches zero
      deletes the handle and acts on the buffers and the native calls as
      exactly one internal release of [b]; one that does not reach zero
      leaves the buffers alone, and the internal count read from the handle
      afterwards is the old one minus one. *)
Theorem C1_dual_reference_count_lifecycle
    (s : state) (b : positive) (B : ur_exp_command_buffer_handle_t_) :
  buffers s !! b = Some B ->
  getExtFuncFromContext D (hContext B) ReleaseCommandBufferName = true ->
  0 <= RefCountInternal B < UINT32_MOD ->
  (* retain *)
  urCommandBufferRetainExp b s =
    Some (UR_RESULT_SUCCESS,
          set_buffer b
            (with_RefCountExternal (inc32 (RefCountExternal B))
               (with_RefCountInternal (inc32 (RefCountInternal B)) B)) s)
  /\
  (exists s',
     urCommandBufferRetainExp b s = Some (UR_RESULT_SUCCESS, s') /\
     buffer_with_counts b s' B (inc32 (RefCountInternal B))
       (inc32 (RefCountExternal B)) /\
     (forall b', b' <> b -> buffers s' !! b' = buffers s !! b') /\
     commands s' = commands s /\ trace s' = trace s)
  /\
  (* internal release of the buffer *)
  (exists s',
     commandBufferReleaseInternal D b s = Some (UR_RESULT_SUCCESS, s') /\
     commands s' = commands s /\
     (buffers s' !! b = None <-> dec32 (RefCountInternal B) = 0) /\
     (dec32 (RefCountInternal B) = 0 ->
        buffers s' = delete b (buffers s) /\
        trace s' = trace s ++ destructor_calls B) /\
     (dec32 (RefCountInternal B) <> 0 ->
        buffers s' =
          <[b := with_RefCountInternal (dec32 (RefCountInternal B)) B]>
            (buffers s) /\
        trace s' = trace s /\
        buffer_with_counts b s' B (dec32 (RefCountInternal B))
          (RefCountExternal B)))
  /\
  (* release that leaves external references *)
  (dec32 (RefCountExternal B) <> 0 ->
     urCommandBufferReleaseExp D b s =
       commandBufferReleaseInternal D b
         (set_buffer b (with_RefCountExternal (dec32 (RefCountExternal B)) B)
            s) /\
     exists s',
       urCommandBufferReleaseExp D b s = Some (UR_RESULT_SUCCESS, s') /\
       commands s' = commands s /\
       (dec32 (RefCountInternal B) <> 0 ->
          buffer_with_counts b s' B (dec32 (RefCountInternal B))
            (dec32 (RefCountExternal B)) /\
          trace s' = trace s) /\
       (dec32 (RefCountInternal B) = 0 ->
          buffers s' !! b = None /\
          trace s' = trace s ++ destructor_calls B))
  /\
  (* release of the last external reference *)
  (dec32 (RefCountExternal B) = 0 ->
   registered b (CommandHandles B) s ->
   count_last s (CommandHandles B) < RefCountInternal B ->
   exists s',
     urCommandBufferReleaseExp D b s = Some (UR_RESULT_SUCCESS, s') /\
     (forall c,
        commands s' !! c =
          if decide (c ∈ CommandHandles B)
          then commands s !! c ≫= released_command
          else commands s !! c) /\
     (RefCountInternal B = count_last s (CommandHandles B) + 1 ->
        buffers s' = delete b (buffers s) /\
        trace s' = trace s ++ destructor_calls B) /\
     (RefCountInternal B <> count_last s (CommandHandles B) + 1 ->
        buffers s' =
          <[b := with_RefCountInternal
                   (RefCountInternal B - count_last s (CommandHandles B) - 1)
                   (with_RefCountExternal 0 B)]> (buffers s) /\
        trace s' = trace s /\
        buffer_with_counts b s' B
          (RefCountInternal B - count_last s (CommandHandles B) - 1) 0))
  /\
  (* internal release of a command handle *)
  (forall c C,
     commands s !! c = Some C -> hCommandBuffer C = b ->
     exists s',
       commandHandleReleaseInternal D c s = Some (UR_RESULT_SUCCESS, s') /\
       commands s' !! c = released_command C /\
       (forall c', c' <> c -> commands s' !! c' = commands s !! c') /\
       (dec32 (cmdRefCountInternal C) <> 0 ->
          buffers s' = buffers s /\ trace s' = trace s /\
          command_with_counts c s' C (dec32 (cmdRefCountInternal C))
            (cmdRefCountExternal C)) /\
       (dec32 (cmdRefCountInternal C) = 0 ->
          exists s'',
            commandBufferReleaseInternal D b s =
              Some (UR_RESULT_SUCCESS, s'') /\
            buffers s' = buffers s'' /\ trace s' = trace s'')).
Proof.
  intros HB Hext Hrange. split; [|split; [|split; [|split; [|split]]]].
  - unfold urCommandBufferRetainExp. rewrite HB. reflexivity.
  - unfold urCommandBufferRetainExp. rewrite HB. simpl.
    eexists. split; [reflexivity|]. simpl. split.
    + eexists. split; [apply lookup_insert_eq|]. by repeat split.
    + split; [|done]. intros b' Hne. by rewrite lookup_insert_ne.
  - destruct (Z.eq_dec (dec32 (RefCountInternal B)) 0) as [Hz|Hz].
    + rewrite (commandBufferReleaseInternal_delete b s B HB Hext Hz).
      eexists. split; [reflexivity|]. simpl.
      split; [done|]. split; [by rewrite lookup_delete_eq|].
      split; [done|]. intros Hn. by destruct Hn.
    + rewrite (commandBufferReleaseInternal_keep b s B HB Hz).
      eexists. split; [reflexivity|]. simpl.
      split; [done|]. split.
      * rewrite lookup_insert_eq. split; [done|]. intros Hn. by destruct Hz.
      * split; [intros Hn; by destruct Hz|]. intros _.
        split; [done|]. split; [done|].
        eexists. split; [apply lookup_insert_eq|]. by repeat split.
  - intros Hz.
    assert (Heq : urCommandBufferReleaseExp D b s =
              commandBufferReleaseInternal D b
                (set_buffer b
                   (with_RefCountExternal (dec32 (RefCountExternal B)) B) s)).
    { unfold urCommandBufferReleaseExp. rewrite HB. simpl.
      by destruct (Z.eqb_spec (dec32 (RefCountExternal B)) 0). }
    split; [exact Heq|]. rewrite Heq.
    set (B1 := with_RefCountExternal (dec32 (RefCountExternal B)) B).
    assert (HB1 : buffers (set_buffer b B1 s) !! b = Some B1)
      by apply lookup_insert_eq.
    destruct (Z.eq_dec (dec32 (RefCountInternal B)) 0) as [Hi|Hi].
    + rewrite (commandBufferReleaseInternal_delete b _ B1 HB1 Hext Hi).
      eexists. split; [reflexivity|]. simpl. split; [done|].
      split; [intros Hn; by destruct Hn|]. intros _.
      split; [by rewrite lookup_delete_eq|done].
    + rewrite (commandBufferReleaseInternal_keep b _ B1 HB1 Hi).
      eexists. split; [reflexivity|]. simpl. split; [done|].
      split; [|intros Hn; by destruct Hi]. intros _. split; [|done].
      eexists. split; [apply lookup_insert_eq|]. by repeat split.
  - intros Hz Hreg Hcnt.
    unfold urCommandBufferReleaseExp. rewrite HB. simpl. rewrite Hz. simpl.
    set (B1 := with_RefCountExternal 0 B).
    set (s1 := set_buffer b B1 s).
    pose proof (count_last_nonneg s (CommandHandles B)) as Hk.
    assert (Hcl : count_last s1 (CommandHandles B) =
                  count_last s (CommandHandles B))
      by (by apply count_last_ext).
    destruct (release_commands_spec b (CommandHandles B) s1 B1)
      as (s2 & Hrun & Hbuf & Htr & Hcmd).
    { subst s1. simpl. apply lookup_insert_eq. }
    { exact Hreg. }
    { rewrite Hcl. simpl. lia. }
    rewrite Hrun. simpl.
    rewrite Hcl in Hbuf.
    set (k := count_last s (CommandHandles B)) in *.
    simpl in Hbuf.
    set (B2 := with_RefCountInternal (RefCountInternal B - k) B1) in *.
    assert (HB2 : buffers s2 !! b = Some B2)
      by (rewrite Hbuf; apply lookup_insert_eq).
    assert (Hdec : dec32 (RefCountInternal B2) = RefCountInternal B - k - 1).
    { subst B2. simpl. rewrite dec32_pos by lia. reflexivity. }
    destruct (Z.eq_dec (RefCountInternal B) (k + 1)) as [He|He].
    + rewrite (commandBufferReleaseInternal_delete b s2 B2 HB2 Hext)
        by (rewrite Hdec; lia).
      eexists. split; [reflexivity|]. simpl. split; [exact Hcmd|]. split.
      * intros _. rewrite Hbuf, Htr. subst s1. simpl.
        rewrite !delete_insert_eq. done.
      * intros Hn. by destruct Hn.
    + rewrite (commandBufferReleaseInternal_keep b s2 B2 HB2)
        by (rewrite Hdec; lia).
      eexists. split; [reflexivity|]. simpl. split; [exact Hcmd|]. split.
      * intros Hn. by destruct He.
      * intros _. simpl in Hdec. rewrite Hbuf, Htr, Hdec. subst s1. simpl.
        rewrite !insert_insert_eq. split; [done|]. split; [done|].
        eexists. split; [apply lookup_insert_eq|]. subst B1.
        rewrite <- Hz. by repeat split.
  - intros c C HC Hparent.
    unfold commandHandleReleaseInternal. rewrite HC. simpl.
    unfold released_command.
    destruct (Z.eqb_spec (dec32 (cmdRefCountInternal C)) 0) as [Hz|Hz]; simpl.
    + rewrite Hparent.
      destruct (commandBufferReleaseInternal_frame b s B
                  (<[c := with_cmdRefCountInternal
                            (dec32 (cmdRefCountInternal C)) C]> (commands s))
                  HB Hext)
        as (s1 & s2 & H1 & H2 & Hb & Ht & Hc1 & Hc2).
      unfold set_command. rewrite H2. simpl.
      eexists. split; [reflexivity|]. simpl. rewrite Hc2.
      split; [by rewrite lookup_delete_eq|]. split.
      * intros c' Hne. by rewrite lookup_delete_ne, lookup_insert_ne.
      * split; [intros Hn; by destruct Hn|].
        intros _. exists s1. done.
    + eexists. split; [reflexivity|]. simpl.
      split; [by rewrite lookup_insert_eq|]. split.
      * intros c' Hne. by rewrite lookup_insert_ne.
      * split; [|intros Hn; by destruct Hz]. intros _.
        split; [done|]. split; [done|].
        eexists. split; [apply lookup_insert_eq|]. by repeat split.
Qed.

End OpenCL_reference_counts.

(** ** OpenCL: update of a kernel launch *)

Section OpenCL_update.
Import OpenCL.
Variable D : cl_driver.

(** The exec-info loop ends without an error when every property name is one
    of the three the adapter knows. *)
Lemma exec_infos_known l :
  Forall known_exec_info l ->
  forall acc, exists infos, exec_infos l acc = inr infos.
Proof.
  induction 1 as [|e l He _ IH]; intros acc; simpl; [by eexists|].
  unfold known_exec_info in He.
  destruct (propName e) as [| | |code]; try apply IH.
  by destruct (He code).
Qed.

Lemma usm_args_readable l :
  Forall (fun a => is_Some (pNewPointerArg a)) l ->
  exists args, usm_args l = Some args.
Proof.
  induction 1 as [|a l [v Hv] _ [args IH]]; simpl; [by eexists|].
  rewrite Hv, IH. simpl. by eexists.
Qed.

(** C7 (OpenCL adapter).  An update of a kernel launch through a live command
    handle whose parent command buffer is not both updatable and finalized
    returns invalid-operation, and the state it returns is the state it was
    given: no object is changed and no native call is issued, whatever the
    request. *)
Theorem C7_update_requires_updatable_finalized
    (s : state) (c : positive) (C : ur_exp_command_buffer_command_handle_t_)
    (B : ur_exp_command_buffer_handle_t_)
    (pUpdateKernelLaunch : ur_exp_command_buffer_update_kernel_launch_desc_t) :
  commands s !! c = Some C ->
  buffers s !! hCommandBuffer C = Some B ->
  IsUpdatable B && IsFinalized B = false ->
  urCommandBufferUpdateKernelLaunchExp D c pUpdateKernelLaunch s =
    Some (UR_RESULT_ERROR_INVALID_OPERATION, s).
Proof.
  intros HC HB Hnot. unfold urCommandBufferUpdateKernelLaunchExp.
  rewrite HC. simpl. rewrite HB. simpl.
  destruct (getExtFuncFromContext D (hContext B) UpdateMutableCommandsName);
    simpl; [|reflexivity].
  destruct (IsUpdatable B), (IsFinalized B); simpl in *; done.
Qed.

(** C8 (OpenCL adapter).  An update of a kernel launch that reaches the
    dimension test (the update function is available, the parent is
    finalized and updatable, the exec-info names are known and the pointer
    arguments can be read) and asks for a work dimension that is neither 0,
    which stands for no change, nor the one recorded at append time returns
    unsupported-feature, and the state it returns is the state it was given:
    the recorded [WorkDim] is kept and no native update is issued. *)
Theorem C8_update_work_dimension_mismatch
    (s : state) (c : positive) (C : ur_exp_command_buffer_command_handle_t_)
    (B : ur_exp_command_buffer_handle_t_)
    (pUpdateKernelLaunch : ur_exp_command_buffer_update_kernel_launch_desc_t) :
  commands s !! c = Some C ->
  buffers s !! hCommandBuffer C = Some B ->
  getExtFuncFromContext D (hContext B) UpdateMutableCommandsName = true ->
  IsFinalized B = true ->
  IsUpdatable B = true ->
  Forall known_exec_info (pNewExecInfoList pUpdateKernelLaunch) ->
  Forall (fun a => is_Some (pNewPointerArg a))
    (pNewPointerArgList pUpdateKernelLaunch) ->
  newWorkDim pUpdateKernelLaunch <> 0 ->
  newWorkDim pUpdateKernelLaunch <> WorkDim C ->
  urCommandBufferUpdateKernelLaunchExp D c pUpdateKernelLaunch s =
    Some (UR_RESULT_ERROR_UNSUPPORTED_FEATURE, s).
Proof.
  intros HC HB Hext Hfin Hupd Hexec Hptr Hnz Hne.
  unfold urCommandBufferUpdateKernelLaunchExp.
  rewrite HC. simpl. rewrite HB. simpl. rewrite Hext, Hfin, Hupd. simpl.
  destruct (exec_infos_known _ Hexec []) as [infos ->].
  destruct (usm_args_readable _ Hptr) as [args ->]. simpl.
  destruct (Z.eqb_spec (newWorkDim pUpdateKernelLaunch) 0); [done|].
  destruct (Z.eqb_spec (newWorkDim pUpdateKernelLaunch) (WorkDim C)); done.
Qed.

(** Whatever the earlier tests answer, a request with such a work dimension
    never reaches the native update: the call does not succeed and does not
    change the state. *)
Lemma update_work_dimension_mismatch_never_applied
    (s : state) (c : positive) (C : ur_exp_command_buffer_command_handle_t_)
    (pUpdateKernelLaunch : ur_exp_command_buffer_update_kernel_launch_desc_t)
    (code : ur_result_t) (s' : state) :
  commands s !! c = Some C ->
  newWorkDim pUpdateKernelLaunch <> 0 ->
  newWorkDim pUpdateKernelLaunch <> WorkDim C ->
  urCommandBufferUpdateKernelLaunchExp D c pUpdateKernelLaunch s =
    Some (code, s') ->
  code <> UR_RESULT_SUCCESS /\ s' = s.
Proof.
  intros HC Hnz Hne. unfold urCommandBufferUpdateKernelLaunchExp.
  rewrite HC. simpl.
  destruct (buffers s !! hCommandBuffer C) as [B|]; simpl; [|done].
  destruct (getExtFuncFromContext D (hContext B) UpdateMutableCommandsName);
    simpl; [|by intros [= <- <-]].
  destruct (negb (IsFinalized B) || negb (IsUpdatable B));
    [by intros [= <- <-]|].
  destruct (exec_infos _ _) as [err|infos] eqn:Hinfos.
  - intros [= <- <-]. split; [|done].
    clear -Hinfos. revert Hinfos.
    generalize (@nil cl_mutable_dispatch_exec_info_khr).
    induction (pNewExecInfoList pUpdateKernelLaunch) as [|e l IH];
      intros acc; simpl; [done|].
    destruct (propName e); try apply IH. by intros [= <-].
  - destruct (usm_args _); simpl; [|done].
    destruct (Z.eqb_spec (newWorkDim pUpdateKernelLaunch) 0); [done|].
    destruct (Z.eqb_spec (newWorkDim pUpdateKernelLaunch) (WorkDim C));
      [done|].
    simpl. by intros [= <- <-].
Qed.

End OpenCL_update.

(** ** HIP: wait lists, nodes and sync points *)

Section HIP_appends.
Import HIP.
Variable D : hip_driver.

Lemma getNodesFromSyncPoints_known B waits :
  Forall (known_sync_point B) waits ->
  forall acc,
    getNodesFromSyncPoints B waits acc =
      (UR_RESULT_SUCCESS, acc ++ resolved B waits).
Proof.
  induction 1 as [|sp waits [n Hn] _ IH]; intros acc; simpl.
  - by rewrite app_nil_r.
  - unfold resolved. simpl. rewrite Hn. simpl. rewrite IH.
    by rewrite <- app_assoc.
Qed.

Lemma getNodesFromSyncPoints_unknown B waits :
  ~ Forall (known_sync_point B) waits ->
  forall acc,
    exists nodes,
      getNodesFromSyncPoints B waits acc =
        (UR_RESULT_ERROR_INVALID_VALUE, nodes).
Proof.
  induction waits as [|sp waits IH]; intros Hex acc; simpl.
  - destruct Hex. constructor.
  - destruct (SyncPoints B !! sp) as [n|] eqn:Hsp; [|by eexists].
    apply IH. intros Hall. apply Hex. constructor; [by exists n|done].
Qed.

Lemma getNodesFromSyncPoints_code B waits acc :
  (getNodesFromSyncPoints B waits acc).1 = UR_RESULT_SUCCESS \/
  (getNodesFromSyncPoints B waits acc).1 = UR_RESULT_ERROR_INVALID_VALUE.
Proof.
  revert acc. induction waits as [|sp waits IH]; intros acc; simpl;
    [by left|].
  destruct (SyncPoints B !! sp); [apply IH|by right].
Qed.

Lemma register_lookup_below m sp0 n0 k sp :
  sp < sp0 -> register m sp0 n0 k !! sp = m !! sp.
Proof.
  revert m sp0 n0. induction k as [|k IH]; intros m sp0 n0 Hlt; simpl;
    [done|].
  rewrite IH by lia. apply lookup_insert_ne. lia.
Qed.

(** The [i]-th sync point minted is bound to the [i]-th node added. *)
Lemma register_lookup m sp0 n0 k (i : nat) :
  (i < k)%nat ->
  register m sp0 n0 k !! (sp0 + Z.of_nat i) = Some (n0 + i)%nat.
Proof.
  revert m sp0 n0 i. induction k as [|k IH]; intros m sp0 n0 i Hlt; simpl;
    [lia|].
  destruct i as [|i].
  - rewrite register_lookup_below by lia.
    rewrite Z.add_0_r, Nat.add_0_r. apply lookup_insert_eq.
  - replace (sp0 + Z.of_nat (S i)) with (sp0 + 1 + Z.of_nat i) by lia.
    rewrite IH by lia. f_equal. lia.
Qed.

Lemma register_app m sp0 n0 k1 k2 :
  register (register m sp0 n0 k1) (sp0 + Z.of_nat k1) (n0 + k1) k2 =
  register m sp0 n0 (k1 + k2).
Proof.
  revert m sp0 n0. induction k1 as [|k1 IH]; intros m sp0 n0; simpl.
  - by rewrite Z.add_0_r, Nat.add_0_r.
  - rewrite <- IH. f_equal; lia.
Qed.

Lemma appended_app B g l1 l2 :
  HIPGraph B = Some g ->
  appended (appended B l1) l2 = appended B (l1 ++ l2).
Proof.
  intros Hg. unfold appended. rewrite Hg. simpl.
  rewrite !length_app, <- app_assoc, Nat2Z.inj_add, register_app.
  f_equal. lia.
Qed.

Lemma HIPGraph_appended B g l :
  HIPGraph B = Some g -> HIPGraph (appended B l) = Some (g ++ l).
Proof. intros Hg. unfold appended. by rewrite Hg. Qed.

(** Adding one node and minting its sync point. *)
Lemma add_node_and_sync_point_ok B g deps p Result :
  accepts_every_node D ->
  HIPGraph B = Some g ->
  add_node_and_sync_point D B deps p Result =
    mk_append_result Result (appended B [mk_node p deps])
      (Some (NextSyncPoint B)).
Proof.
  intros Hok Hg. unfold add_node_and_sync_point, hipGraphAddNode.
  rewrite Hg, Hok. simpl. unfold appended. rewrite Hg. reflexivity.
Qed.

(** The loop of the fill helper: [n] steps from byte [a] on, entered with
    the last node of the graph as the only entry of [HIPNodesList]. *)
Lemma fill_steps_spec Pattern DstPtr Size PatternSize Result :
  accepts_every_node D ->
  forall (n a : nat) B g sp,
    HIPGraph B = Some g ->
    (0 < length g)%nat ->
    fill_steps D Pattern DstPtr Size PatternSize
      (map Z.of_nat (seq a n)) B [(length g - 1)%nat] sp Result =
    mk_append_result Result
      (appended B
         (fill_byte_nodes Pattern DstPtr PatternSize Size a (length g - 1) n))
      (match n with
       | O => sp
       | S n' => Some (NextSyncPoint B + Z.of_nat n')
       end).
Proof.
  intros Hok. induction n as [|n IH]; intros a B g sp Hg Hlen; simpl.
  - unfold appended, fill_byte_nodes. rewrite Hg. simpl.
    rewrite app_nil_r, Z.add_0_r. f_equal. by destruct B; simpl in *; subst.
  - unfold hipGraphAddNode. rewrite Hg, Hok. simpl.
    set (node := mk_node _ _).
    set (B2 := mk_command_buffer _ _ _ _ _ _ _).
    assert (HB2 : B2 = appended B [node]).
    { subst B2. unfold appended. by rewrite Hg. }
    rewrite HB2.
    pose proof (HIPGraph_appended B g [node] Hg) as Hg2.
    specialize (IH (S a) (appended B [node]) (g ++ [node])
                  (Some (NextSyncPoint B)) Hg2).
    rewrite length_app in IH. simpl in IH.
    replace (length g + 1 - 1)%nat with (length g) in IH by lia.
    rewrite IH by lia.
    rewrite (appended_app B g) by done.
    f_equal.
    + f_equal. unfold fill_byte_nodes. simpl. f_equal.
      * subst node. unfold fill_byte_node.
        rewrite !Nat.add_0_r. reflexivity.
      * rewrite <- seq_shift, map_map. apply map_ext. intros j.
        f_equal; [f_equal|]; lia.
    + destruct n as [|n]; simpl.
      * f_equal. lia.
      * f_equal. unfold appended. rewrite Hg. simpl. lia.
Qed.

(** C10 (HIP adapter).  A kernel-launch append whose kernel belongs to the
    context of the command buffer, with a work dimension of 1, 2 or 3, a wait
    list of sync points of this buffer and a global work size whose first
    element is 0, on a driver that accepts the node, returns success.  The
    graph gains one empty node whose predecessors are the nodes of the wait
    list, in order; the sync point returned is the next one of the buffer
    and is bound to that node; nothing else changes.  The outcome names
    neither the function, the arguments or the local size of the kernel, nor
    the offset and local work size of the request, and the kernel is
    returned as it was given. *)
Theorem C10_zero_size_kernel_launch_adds_empty_node
    (B : ur_exp_command_buffer_handle_t_) (g : list hipGraphNode)
    (hKernel : ur_kernel_handle_t_) (workDim : Z)
    (pGlobalWorkOffset pLocalWorkSize : option (list Z))
    (pGlobalWorkSize : list Z) (pSyncPointWaitList : list Z) :
  HIPGraph B = Some g ->
  Context B = kernel_Context hKernel ->
  0 < workDim < 4 ->
  Forall (known_sync_point B) pSyncPointWaitList ->
  head pGlobalWorkSize = Some 0 ->
  hipGraphAddNode_status D g
    (mk_node EmptyNode (resolved B pSyncPointWaitList)) = hipSuccess ->
  urCommandBufferAppendKernelLaunchExp D B hKernel workDim pGlobalWorkOffset
    pGlobalWorkSize pLocalWorkSize pSyncPointWaitList =
    Some (mk_append_result UR_RESULT_SUCCESS
            (mk_command_buffer (Context B) (Device B)
               (Some (g ++ [mk_node EmptyNode
                              (resolved B pSyncPointWaitList)]))
               (HIPGraphExec B) (RefCount B)
               (<[NextSyncPoint B := length g]> (SyncPoints B))
               (NextSyncPoint B + 1))
            (Some (NextSyncPoint B)),
          hKernel).
Proof.
  intros Hg Hctx Hdim Hknown Hzero Hok.
  unfold urCommandBufferAppendKernelLaunchExp.
  rewrite Hctx, Z.eqb_refl. simpl.
  destruct (Z.ltb_spec 0 workDim); [|lia]. simpl.
  destruct (Z.ltb_spec workDim 4); [|lia]. simpl.
  rewrite (getNodesFromSyncPoints_known B _ Hknown []). simpl.
  rewrite Hzero. simpl.
  unfold add_node_and_sync_point, hipGraphAddNode. rewrite Hg, Hok. simpl.
  rewrite Hctx. reflexivity.
Qed.

Lemma length_fill_byte_nodes Pattern DstPtr PatternSize Size a p n :
  length (fill_byte_nodes Pattern DstPtr PatternSize Size a p n) = n.
Proof. unfold fill_byte_nodes. by rewrite length_map, length_seq. Qed.

Lemma lookup_fill_byte_nodes Pattern DstPtr PatternSize Size a p n (i : nat) :
  (i < n)%nat ->
  fill_byte_nodes Pattern DstPtr PatternSize Size a p n !! i =
    Some (fill_byte_node Pattern DstPtr PatternSize Size (Z.of_nat (a + i))
            (p + i)%nat).
Proof.
  intros Hi. unfold fill_byte_nodes.
  change (map ?f ?l) with (f <$> l).
  rewrite list_lookup_fmap, lookup_seq_lt by done. reflexivity.
Qed.

(** What the fill helper does on a driver that accepts every node, in closed
    form: the result of resolving the wait list is what it returns, and the
    nodes are added whatever that result is. *)
Lemma enqueueCommandBufferFillHelper_run B g Pattern DstDevice DstType
    PatternSize Size waits :
  accepts_every_node D ->
  HIPGraph B = Some g ->
  0 < PatternSize < 2 ^ 32 ->
  let Result := (getNodesFromSyncPoints B waits []).1 in
  let DepsList := (getNodesFromSyncPoints B waits []).2 in
  enqueueCommandBufferFillHelper D B DstDevice DstType (Some Pattern)
    PatternSize Size waits =
    Some (mk_append_result Result
            (appended B
               (fill_nodes Pattern DstDevice PatternSize Size (length g)
                  DepsList))
            (Some (NextSyncPoint B +
                   Z.of_nat (length
                     (fill_nodes Pattern DstDevice PatternSize Size
                        (length g) DepsList)) - 1))).
Proof.
  intros Hok Hg Hps Result DepsList. unfold enqueueCommandBufferFillHelper.
  subst Result DepsList.
  destruct (getNodesFromSyncPoints B waits []) as [Result DepsList]. simpl.
  destruct (Z.eqb_spec PatternSize 0); [lia|].
  unfold fill_nodes, fill_first_node.
  fold (native_width PatternSize).
  destruct (native_width PatternSize) eqn:Hw.
  - rewrite (add_node_and_sync_point_ok B g) by done. simpl.
    do 3 f_equal. lia.
  - rewrite Z.div_1_r, Z.mul_1_r.
    destruct (Z.leb_spec (2 ^ 32) PatternSize); [lia|].
    unfold hipGraphAddNode. rewrite Hg, Hok. simpl.
    set (first := mk_node _ _).
    set (B2 := mk_command_buffer _ _ _ _ _ _ _).
    assert (HB2 : B2 = appended B [first]).
    { subst B2. unfold appended. by rewrite Hg. }
    rewrite HB2. unfold steps_from_4.
    pose proof (HIPGraph_appended B g [first] Hg) as Hg2.
    pose proof (fill_steps_spec Pattern DstDevice Size PatternSize
                  Result Hok (Z.to_nat (PatternSize - 4)) 4%nat
                  (appended B [first]) (g ++ [first])
                  (Some (NextSyncPoint B)) Hg2) as Hloop.
    rewrite length_app in Hloop. simpl in Hloop.
    replace (length g + 1 - 1)%nat with (length g) in Hloop by lia.
    rewrite Hloop by lia.
    rewrite (appended_app B g) by done. simpl.
    rewrite length_fill_byte_nodes.
    do 2 f_equal.
    destruct (Z.to_nat (PatternSize - 4)) as [|n'] eqn:Hn.
    + f_equal. lia.
    + f_equal. unfold appended. rewrite Hg. simpl. lia.
Qed.

Lemma enqueueCommandBufferFillHelper_spec B g Pattern DstDevice DstType
    PatternSize Size waits :
  accepts_every_node D ->
  HIPGraph B = Some g ->
  Forall (known_sync_point B) waits ->
  0 < PatternSize < 2 ^ 32 ->
  enqueueCommandBufferFillHelper D B DstDevice DstType (Some Pattern)
    PatternSize Size waits =
    Some (mk_append_result UR_RESULT_SUCCESS
            (appended B
               (fill_nodes Pattern DstDevice PatternSize Size (length g)
                  (resolved B waits)))
            (Some (NextSyncPoint B +
                   Z.of_nat (length
                     (fill_nodes Pattern DstDevice PatternSize Size
                        (length g) (resolved B waits))) - 1))).
Proof.
  intros Hok Hg Hknown Hps.
  rewrite (enqueueCommandBufferFillHelper_run B g) by done.
  by rewrite (getNodesFromSyncPoints_known B _ Hknown []).
Qed.

(** C3, as the code has it (HIP adapter).  For a fill on a command buffer
    with a graph, a readable pattern of 1 to 2^32 - 1 bytes and a wait list
    of sync points of this buffer, on a driver that accepts every node:
    the helper returns success, adds the nodes [fill_nodes] to the graph and
    mints one sync point per node; the first node has the nodes of the wait
    list as predecessors; for a pattern of 1, 2 or 4 bytes it is the only
    node; for a larger pattern it is 4 bytes wide and is followed by one
    single-byte node per remaining byte, each of which has the node emitted
    just before it as its only predecessor; the sync point returned is the
    last one minted and is bound to the last node emitted. *)
Theorem C3_fill_decomposition
    (B : ur_exp_command_buffer_handle_t_) (g : list hipGraphNode)
    (Pattern : Z -> Z) (DstDevice : Z) (DstType : hipMemoryType)
    (PatternSize Size : Z) (waits : list Z) :
  accepts_every_node D ->
  HIPGraph B = Some g ->
  Forall (known_sync_point B) waits ->
  0 < PatternSize < 2 ^ 32 ->
  let nodes :=
    fill_nodes Pattern DstDevice PatternSize Size (length g)
      (resolved B waits) in
  let last := (length g + length nodes - 1)%nat in
  let SyncPoint := NextSyncPoint B + Z.of_nat (length nodes) - 1 in
  enqueueCommandBufferFillHelper D B DstDevice DstType (Some Pattern)
    PatternSize Size waits =
    Some (mk_append_result UR_RESULT_SUCCESS (appended B nodes)
            (Some SyncPoint))
  /\ HIPGraph (appended B nodes) = Some (g ++ nodes)
  /\ nodes !! 0%nat =
       Some (fill_first_node Pattern DstDevice PatternSize Size
               (resolved B waits))
  /\ (native_width PatternSize = true -> length nodes = 1%nat)
  /\ (4 < PatternSize ->
        length nodes = S (Z.to_nat (PatternSize - 4)) /\
        (forall i : nat,
           (i < Z.to_nat (PatternSize - 4))%nat ->
           nodes !! S i =
             Some (fill_byte_node Pattern DstDevice PatternSize Size
                     (4 + Z.of_nat i) (length g + i)%nat)) /\
        chained_to_previous (length g) (g ++ nodes))
  /\ SyncPoints (appended B nodes) !! SyncPoint = Some last.
Proof.
  intros Hok Hg Hknown Hps nodes last SyncPoint.
  split; [by apply enqueueCommandBufferFillHelper_spec|].
  split; [by apply HIPGraph_appended|].
  split; [reflexivity|].
  assert (Hlen : (0 < length nodes)%nat) by (subst nodes; simpl; lia).
  split; [|split].
  - intros Hw. subst nodes. unfold fill_nodes. by rewrite Hw.
  - intros Hbig.
    assert (Hw : native_width PatternSize = false).
    { unfold native_width.
      destruct (Z.eqb_spec PatternSize 1); [lia|].
      destruct (Z.eqb_spec PatternSize 2); [lia|].
      destruct (Z.eqb_spec PatternSize 4); [lia|done]. }
    assert (Hnodes : nodes =
      fill_first_node Pattern DstDevice PatternSize Size (resolved B waits) ::
      fill_byte_nodes Pattern DstDevice PatternSize Size 4 (length g)
        (Z.to_nat (PatternSize - 4))).
    { subst nodes. unfold fill_nodes. by rewrite Hw. }
    split; [|split].
    + rewrite Hnodes. simpl. by rewrite length_fill_byte_nodes.
    + intros i Hi. rewrite Hnodes. simpl.
      rewrite lookup_fill_byte_nodes by done.
      do 2 f_equal. lia.
    + intros i node Hi Hlook.
      rewrite lookup_app_r in Hlook by lia.
      rewrite Hnodes in Hlook.
      destruct (i - length g)%nat as [|k] eqn:Hk; [lia|].
      simpl in Hlook.
      destruct (decide (k < Z.to_nat (PatternSize - 4))%nat) as [Hlt|Hge].
      * rewrite lookup_fill_byte_nodes in Hlook by done.
        injection Hlook as <-. simpl. f_equal. lia.
      * rewrite lookup_ge_None_2 in Hlook; [done|].
        rewrite length_fill_byte_nodes. lia.
  - subst SyncPoint last. clearbody nodes.
    unfold appended. rewrite Hg. simpl.
    replace (NextSyncPoint B + Z.of_nat (length nodes) - 1)
      with (NextSyncPoint B + Z.of_nat (length nodes - 1)) by lia.
    rewrite register_lookup by lia. f_equal. lia.
Qed.

End HIP_appends.

(** ** HIP: the validity test of the fill pattern *)

Section HIP_fill_validity.
Import HIP.
Variable D : hip_driver.

(** [x & (x - 1) == 0] holds exactly for the powers of two among the
    positive values. *)
Lemma land_pred_power_of_two x :
  0 < x -> (Z.land x (x - 1) = 0 <-> power_of_two x).
Proof.
  intros Hx. split.
  - intros Hland.
    exists (Z.log2 x). split; [apply Z.log2_nonneg|].
    destruct (Z.log2_spec x Hx) as [Hlo Hhi].
    destruct (Z.eq_dec x (2 ^ Z.log2 x)) as [|Hne]; [done|exfalso].
    assert (Hbit : Z.testbit (Z.land x (x - 1)) (Z.log2 x) = true).
    { rewrite Z.land_spec, Z.bit_log2 by done. simpl.
      assert (Hlog : Z.log2 (x - 1) = Z.log2 x).
      { apply Z.log2_unique; [apply Z.log2_nonneg|].
        rewrite <- Z.add_1_r in *. lia. }
      rewrite <- Hlog. apply Z.bit_log2.
      pose proof (Z.pow_pos_nonneg 2 (Z.log2 x)) as Hp.
      specialize (Hp ltac:(lia) (Z.log2_nonneg x)). lia. }
    rewrite Hland in Hbit. by rewrite Z.bits_0 in Hbit.
  - intros (k & Hk & ->).
    replace (2 ^ k - 1) with (Z.ones k) by (rewrite Z.ones_equiv; lia).
    rewrite Z.land_ones by done. apply Z.mod_same.
    pose proof (Z.pow_pos_nonneg 2 k). lia.
Qed.

Lemma pattern_size_test PatternSize :
  0 <= PatternSize < SIZE_MOD ->
  (Z.land PatternSize (wrap64 (PatternSize - 1)) =? 0) && (0 <? PatternSize)
    = true
  <-> power_of_two PatternSize.
Proof.
  intros Hrange. rewrite andb_true_iff, Z.eqb_eq, Z.ltb_lt. split.
  - intros [Hland Hpos]. apply land_pred_power_of_two; [done|].
    unfold wrap64 in Hland. by rewrite Z.mod_small in Hland by lia.
  - intros Hpow.
    assert (0 < PatternSize).
    { destruct Hpow as (k & Hk & ->). by apply Z.pow_pos_nonneg. }
    split; [|done]. unfold wrap64. rewrite Z.mod_small by lia.
    by apply land_pred_power_of_two.
Qed.

(** The USM fill rejects a null pattern and a pattern size that is not a
    power of two with invalid-size, and leaves the command buffer alone. *)
Lemma urCommandBufferAppendUSMFillExp_invalid B pPtr pPattern patternSize
    size waits :
  0 <= patternSize < SIZE_MOD ->
  pPattern = None \/ ~ power_of_two patternSize ->
  urCommandBufferAppendUSMFillExp D B pPtr pPattern patternSize size waits =
    Some (mk_append_result UR_RESULT_ERROR_INVALID_SIZE B None).
Proof.
  intros Hrange Hbad. unfold urCommandBufferAppendUSMFillExp.
  destruct Hbad as [->|Hnp]; [done|].
  destruct ((Z.land patternSize (wrap64 (patternSize - 1)) =? 0)
            && (0 <? patternSize)) eqn:Htest.
  - by apply pattern_size_test in Htest.
  - by rewrite andb_false_r.
Qed.

(** So does the buffer fill, for a pattern size other than 0. *)
Lemma urCommandBufferAppendMemBufferFillExp_invalid B hBuffer pPattern
    patternSize offset size waits :
  0 < patternSize < SIZE_MOD ->
  pPattern = None \/ ~ power_of_two patternSize ->
  urCommandBufferAppendMemBufferFillExp D B hBuffer pPattern patternSize
    offset size waits =
    Some (mk_append_result UR_RESULT_ERROR_INVALID_SIZE B None).
Proof.
  intros Hrange Hbad. unfold urCommandBufferAppendMemBufferFillExp.
  destruct (Z.eqb_spec patternSize 0); [lia|].
  destruct Hbad as [->|Hnp]; [by rewrite andb_false_r|].
  destruct ((Z.land patternSize (wrap64 (patternSize - 1)) =? 0)
            && (0 <? patternSize)) eqn:Htest.
  - apply pattern_size_test in Htest; [done|lia].
  - by rewrite andb_false_r.
Qed.

(** A valid USM fill is the fill helper. *)
Lemma urCommandBufferAppendUSMFillExp_valid B pPtr Pattern patternSize size
    waits :
  0 <= patternSize < SIZE_MOD ->
  power_of_two patternSize ->
  urCommandBufferAppendUSMFillExp D B pPtr (Some Pattern) patternSize size
    waits =
    enqueueCommandBufferFillHelper D B pPtr hipMemoryTypeUnified
      (Some Pattern) patternSize size waits.
Proof.
  intros Hrange Hpow. unfold urCommandBufferAppendUSMFillExp.
  apply pattern_size_test in Hpow; [|done]. by rewrite Hpow.
Qed.

(** C5 (HIP adapter), where the code departs from it.  The buffer fill
    computes [offset % patternSize] before it tests the pattern size: for a
    pattern size of 0, which is not a positive power of two, the call
    divides by zero and returns no result, whatever the other arguments. *)
Theorem C5_buffer_fill_pattern_size_zero
    (B : ur_exp_command_buffer_handle_t_) (hBuffer : ur_mem_handle_t_)
    (pPattern : option (Z -> Z)) (offset size : Z) (waits : list Z) :
  urCommandBufferAppendMemBufferFillExp D B hBuffer pPattern 0 offset size
    waits = None.
Proof. reflexivity. Qed.

End HIP_fill_validity.

(** ** HIP: runs on the sample driver *)

Section HIP_runs.
Import HIP.

(** C3, as the claim states it, fails.  After a fill with an 8-byte pattern
    the graph holds five nodes; the third one has the second one as its only
    predecessor, not the first one. *)
Lemma C3_counterexample :
  (app_buffer <$>
     enqueueCommandBufferFillHelper sample_driver sample_buffer 1000
       hipMemoryTypeUnified (Some sample_pattern) 8 64 []) ≫= HIPGraph
    = Some sample_fill_graph
  /\ ~ chained_to_all_previous 0 sample_fill_graph.
Proof.
  split; [vm_compute; reflexivity|].
  intros Hall.
  specialize (Hall 2%nat 0%nat
                (mk_node (MemsetNode (mk_memset 1005 1 8 8 6 1)) [1%nat])).
  simpl in Hall.
  assert (Hin : 0%nat ∈ [1%nat]) by (apply Hall; [lia|reflexivity]).
  apply list_elem_of_singleton in Hin. discriminate.
Qed.

(** C4 (HIP adapter), where the code departs from it.  On a command buffer
    that has minted no sync point, a USM fill that waits on sync point 7
    returns invalid-value, and yet the graph has gained the fill node and
    sync point 0 has been minted for it and left in [*pSyncPoint]. *)
Theorem C4_fill_with_unknown_sync_point_adds_node :
  ~ known_sync_point sample_buffer 7 /\
  urCommandBufferAppendUSMFillExp sample_driver sample_buffer 1000
    (Some sample_pattern) 4 64 [7] =
    Some (mk_append_result UR_RESULT_ERROR_INVALID_VALUE
            (mk_command_buffer 1 2
               (Some [mk_node (MemsetNode (mk_memset 1000 4 16 4 0x04030201 1))
                        []])
               None 1 {[0 := 0%nat]} 1)
            (Some 0)).
Proof.
  split.
  - unfold known_sync_point. simpl. rewrite lookup_empty. by intros [? ?].
  - vm_compute. reflexivity.
Qed.

End HIP_runs.

(** ** HIP: appends do not look at the executable graph *)

Section HIP_finalize.
Import HIP.
Variable D : hip_driver.

Lemma getNodesFromSyncPoints_with_HIPGraphExec x B waits acc :
  getNodesFromSyncPoints (with_HIPGraphExec x B) waits acc =
  getNodesFromSyncPoints B waits acc.
Proof.
  revert acc. induction waits as [|sp waits IH]; intros acc; simpl; [done|].
  destruct (SyncPoints B !! sp); [apply IH|done].
Qed.

Lemma add_node_and_sync_point_with_HIPGraphExec x B deps p Result :
  add_node_and_sync_point D (with_HIPGraphExec x B) deps p Result =
  on_buffer (with_HIPGraphExec x) (add_node_and_sync_point D B deps p Result).
Proof.
  unfold add_node_and_sync_point, hipGraphAddNode. simpl.
  destruct (HIPGraph B) as [g|]; [|done].
  by destruct (hipGraphAddNode_status D g (mk_node p deps) =? hipSuccess).
Qed.

Lemma append_one_node_with_HIPGraphExec x B waits p OnSuccess :
  append_one_node D (with_HIPGraphExec x B) waits p OnSuccess =
  on_buffer (with_HIPGraphExec x) (append_one_node D B waits p OnSuccess).
Proof.
  unfold append_one_node.
  rewrite getNodesFromSyncPoints_with_HIPGraphExec.
  destruct (getNodesFromSyncPoints B waits []) as [Result DepsList].
  destruct (bool_decide (Result = UR_RESULT_SUCCESS)); simpl; [|done].
  apply add_node_and_sync_point_with_HIPGraphExec.
Qed.

Lemma fill_steps_with_HIPGraphExec x Pattern DstPtr Size N Result Steps :
  forall B HIPNodesList SyncPoint,
    fill_steps D Pattern DstPtr Size N Steps (with_HIPGraphExec x B)
      HIPNodesList SyncPoint Result =
    on_buffer (with_HIPGraphExec x)
      (fill_steps D Pattern DstPtr Size N Steps B HIPNodesList SyncPoint
         Result).
Proof.
  induction Steps as [|Step Steps IH]; intros B HIPNodesList SyncPoint;
    simpl; [done|].
  unfold hipGraphAddNode. simpl.
  destruct (HIPGraph B) as [g|]; [|done].
  destruct (hipGraphAddNode_status D g _ =? hipSuccess); [|done].
  simpl. apply (IH (mk_command_buffer _ _ _ _ _ _ _)).
Qed.

Lemma enqueueCommandBufferFillHelper_with_HIPGraphExec x B DstDevice DstType
    Pattern PatternSize Size waits :
  enqueueCommandBufferFillHelper D (with_HIPGraphExec x B) DstDevice DstType
    Pattern PatternSize Size waits =
  on_buffer (with_HIPGraphExec x) <$>
    enqueueCommandBufferFillHelper D B DstDevice DstType Pattern PatternSize
      Size waits.
Proof.
  unfold enqueueCommandBufferFillHelper.
  rewrite getNodesFromSyncPoints_with_HIPGraphExec.
  destruct (getNodesFromSyncPoints B waits []) as [Result DepsList].
  destruct (PatternSize =? 0); [done|].
  destruct Pattern as [Pattern|]; [simpl|done].
  destruct ((PatternSize =? 1) || (PatternSize =? 2) || (PatternSize =? 4)).
  - simpl. f_equal. apply add_node_and_sync_point_with_HIPGraphExec.
  - destruct (2 ^ 32 <=? PatternSize / 1); [done|].
    unfold hipGraphAddNode. simpl.
    destruct (HIPGraph B) as [g|]; [|done].
    destruct (hipGraphAddNode_status D g _ =? hipSuccess); [|done].
    simpl. f_equal.
    apply (fill_steps_with_HIPGraphExec x _ _ _ _ _ _
             (mk_command_buffer _ _ _ _ _ _ _)).
Qed.

(** No append reads [HIPGraphExec]: with another executable graph in the
    command buffer, every append returns the same code and sync point and
    makes the same changes. *)
Lemma append_with_HIPGraphExec x r waits B :
  append D r waits (with_HIPGraphExec x B) =
  on_buffer (with_HIPGraphExec x) <$> append D r waits B.
Proof.
  destruct r; simpl;
    try (f_equal; unfold urCommandBufferAppendUSMMemcpyExp,
           urCommandBufferAppendMemBufferCopyRectExp,
           urCommandBufferAppendMemBufferWriteExp,
           urCommandBufferAppendMemBufferReadExp,
           urCommandBufferAppendMemBufferWriteRectExp,
           urCommandBufferAppendMemBufferReadRectExp,
           urCommandBufferAppendUSMPrefetchExp,
           urCommandBufferAppendUSMAdviseExp;
         apply append_one_node_with_HIPGraphExec).
  - (* kernel launch *)
    unfold urCommandBufferAppendKernelLaunchExp. simpl.
    destruct (Context B =? kernel_Context hKernel); [simpl|done].
    destruct (0 <? workDim); [simpl|done].
    destruct (workDim <? 4); [simpl|done].
    rewrite getNodesFromSyncPoints_with_HIPGraphExec.
    destruct (getNodesFromSyncPoints B waits []) as [Result DepsList].
    destruct (bool_decide (Result = UR_RESULT_SUCCESS)); [simpl|done].
    destruct (head pGlobalWorkSize) as [first|]; [simpl|done].
    destruct (first =? 0).
    + simpl. f_equal. apply add_node_and_sync_point_with_HIPGraphExec.
    + destruct (setKernelParams D _ _ _ _ _ _) as [[R HIPFunc] [T G]].
      destruct (bool_decide (R = UR_RESULT_SUCCESS)); [simpl|done].
      unfold hipGraphAddNode. simpl.
      destruct (HIPGraph B) as [g|]; [|done].
      by destruct (hipGraphAddNode_status D g _ =? hipSuccess).
  - (* buffer copy *)
    unfold urCommandBufferAppendMemBufferCopyExp.
    destruct (wrap64 (size + dstOffset) <=? mem_Size hDstMem); [simpl|done].
    destruct (wrap64 (size + srcOffset) <=? mem_Size hSrcMem); [simpl|done].
    f_equal. apply append_one_node_with_HIPGraphExec.
  - (* buffer fill *)
    unfold urCommandBufferAppendMemBufferFillExp.
    destruct (patternSize =? 0); [done|].
    destruct (negb _); [done|].
    apply enqueueCommandBufferFillHelper_with_HIPGraphExec.
  - (* USM fill *)
    unfold urCommandBufferAppendUSMFillExp.
    destruct (negb _); [done|].
    apply enqueueCommandBufferFillHelper_with_HIPGraphExec.
Qed.

(** Finalize stores the instantiated graph and nothing else. *)
Lemma urCommandBufferFinalizeExp_success B B' :
  urCommandBufferFinalizeExp D B = (UR_RESULT_SUCCESS, B') ->
  B' = with_HIPGraphExec (HIPGraph B) B /\ is_Some (HIPGraph B).
Proof.
  unfold urCommandBufferFinalizeExp.
  destruct (HIPGraph B) as [g|]; [|done].
  destruct (hipGraphInstantiate_status D g =? hipSuccess); [|done].
  intros [= <-]. by split; [|eexists].
Qed.

(** An append other than a fill whose wait list names a sync point the
    command buffer has not minted leaves the command buffer as it was and
    writes no sync point; it returns invalid-value, or the error of one of
    the tests that precede the wait list. *)
Lemma append_unknown_sync_point r waits B res :
  is_fill r = false ->
  ~ Forall (known_sync_point B) waits ->
  append D r waits B = Some res ->
  app_buffer res = B /\ app_sync_point res = None /\
  app_code res ∈ [UR_RESULT_ERROR_INVALID_VALUE;
                  UR_RESULT_ERROR_INVALID_KERNEL;
                  UR_RESULT_ERROR_INVALID_WORK_DIMENSION;
                  UR_RESULT_ERROR_INVALID_SIZE].
Proof.
  intros Hfill Hunknown.
  destruct (getNodesFromSyncPoints_unknown B waits Hunknown [])
    as [nodes Hnodes].
  assert (Hone : forall p OnSuccess,
            append_one_node D B waits p OnSuccess =
              mk_append_result UR_RESULT_ERROR_INVALID_VALUE B None).
  { intros p OnSuccess. unfold append_one_node. by rewrite Hnodes. }
  destruct r; simpl in *; try discriminate;
    try (unfold urCommandBufferAppendUSMMemcpyExp,
           urCommandBufferAppendMemBufferCopyRectExp,
           urCommandBufferAppendMemBufferWriteExp,
           urCommandBufferAppendMemBufferReadExp,
           urCommandBufferAppendMemBufferWriteRectExp,
           urCommandBufferAppendMemBufferReadRectExp,
           urCommandBufferAppendUSMPrefetchExp,
           urCommandBufferAppendUSMAdviseExp;
         rewrite Hone; intros [= <-]; simpl;
         repeat split; set_solver).
  - unfold urCommandBufferAppendKernelLaunchExp.
    destruct (Context B =? kernel_Context hKernel); simpl;
      [|intros [= <-]; simpl; repeat split; set_solver].
    destruct (0 <? workDim); simpl;
      [|intros [= <-]; simpl; repeat split; set_solver].
    destruct (workDim <? 4); simpl;
      [|intros [= <-]; simpl; repeat split; set_solver].
    rewrite Hnodes. simpl.
    intros [= <-]; simpl; repeat split; set_solver.
  - unfold urCommandBufferAppendMemBufferCopyExp.
    destruct (wrap64 (size + dstOffset) <=? mem_Size hDstMem); simpl;
      [|intros [= <-]; simpl; repeat split; set_solver].
    destruct (wrap64 (size + srcOffset) <=? mem_Size hSrcMem); simpl;
      [|intros [= <-]; simpl; repeat split; set_solver].
    rewrite Hone. intros [= <-]; simpl; repeat split; set_solver.
Qed.

End HIP_finalize.

(** ** OpenCL: appends do not look at [IsFinalized] *)

Section OpenCL_finalize.
Import OpenCL.
Variable D : cl_driver.

Lemma forward_append_set_finalized f b name mk_call s B :
  buffers s !! b = Some B ->
  forward_append D b name mk_call (set_finalized b f s) =
  on_state (set_finalized b f) <$> forward_append D b name mk_call s.
Proof.
  intros HB. unfold forward_append. simpl.
  rewrite lookup_alter_eq, HB. simpl.
  destruct (getExtFuncFromContext D (hContext B) name); simpl; [|done].
  by destruct (status (cl_native D (trace s) (mk_call (CLCommandBuffer B)))
               =? CL_SUCCESS).
Qed.

Lemma insert_after_alter {A} (g : A -> A) (b : positive) (x : A)
    (m : gmap positive A) :
  <[b := g x]> (alter g b m) = alter g b (<[b := x]> m).
Proof.
  apply map_eq. intros k. destruct (decide (k = b)) as [->|Hne].
  - by rewrite lookup_insert_eq, lookup_alter_eq, lookup_insert_eq.
  - by rewrite lookup_insert_ne, !lookup_alter_ne, lookup_insert_ne.
Qed.

(** No append reads [IsFinalized]: with the flag of the command buffer set
    either way, every append issues the same native call and returns the
    same code, sync point and command handle. *)
Lemma append_set_finalized f r waits b s B :
  buffers s !! b = Some B ->
  append D r waits b (set_finalized b f s) =
  on_state (set_finalized b f) <$> append D r waits b s.
Proof.
  intros HB.
  destruct r; simpl; try done;
    try (unfold urCommandBufferAppendMemBufferCopyExp,
           urCommandBufferAppendMemBufferCopyRectExp,
           urCommandBufferAppendMemBufferFillExp;
         by apply forward_append_set_finalized with (B := B)).
  unfold urCommandBufferAppendKernelLaunchExp. simpl.
  rewrite lookup_alter_eq, HB. simpl.
  destruct (getExtFuncFromContext D (hContext B) CommandNRRangeKernelName);
    simpl; [|done].
  destruct (status _ =? CL_SUCCESS); simpl; [|done].
  destruct (make_unique_throws D _); [done|].
  destruct phCommandHandle; simpl; [|done].
  unfold on_state, set_finalized, set_buffer, set_command. simpl.
  do 3 f_equal.
  apply (insert_after_alter (with_IsFinalized f) b
           (with_CommandHandles _ (with_RefCountInternal _ B))).
Qed.

End OpenCL_finalize.

(** ** Appends after finalize *)

Section Append_after_finalize.
Variable H : HIP.hip_driver.
Variable D : OpenCL.cl_driver.

(** C2, as the code has it.  Neither adapter rejects an append because the
    command buffer is finalized.
    - HIP: a successful finalize stores the instantiated graph in
      [HIPGraphExec] and changes nothing else, and every append on the
      finalized command buffer returns the same code and sync point and
      makes the same changes to the graph and to the sync-point registry as
      the same append on the command buffer before finalize.
    - OpenCL: every append has the same outcome, native call included,
      whether [IsFinalized] is set or not: the unsupported operations return
      unsupported-feature, the others what the extension lookup and the
      native command decide. *)
Theorem C2_append_after_finalize_not_rejected :
  (forall B B' r waits,
     HIP.urCommandBufferFinalizeExp H B = (UR_RESULT_SUCCESS, B') ->
     B' = HIP.with_HIPGraphExec (HIP.HIPGraph B) B /\
     HIP.append H r waits B' =
       HIP.on_buffer (HIP.with_HIPGraphExec (HIP.HIPGraph B)) <$>
         HIP.append H r waits B)
  /\
  (forall s b B r waits f,
     OpenCL.buffers s !! b = Some B ->
     OpenCL.append D r waits b (OpenCL.set_finalized b f s) =
       OpenCL.on_state (OpenCL.set_finalized b f) <$>
         OpenCL.append D r waits b s).
Proof.
  split.
  - intros B B' r waits Hfin.
    apply urCommandBufferFinalizeExp_success in Hfin as [-> _].
    split; [done|]. apply append_with_HIPGraphExec.
  - intros s b B r waits f HB. by apply append_set_finalized with (B := B).
Qed.

End Append_after_finalize.

Section Append_after_finalize_runs.

(** C2, as the claim states it, fails.  On the HIP adapter a command buffer
    is created and finalized; the USM copy appended next returns success
    and the graph gains its node. *)
Lemma C2_counterexample :
  HIP.urCommandBufferFinalizeExp HIP.sample_driver HIP.sample_buffer =
    (UR_RESULT_SUCCESS,
     HIP.with_HIPGraphExec (Some []) HIP.sample_buffer)
  /\
  HIP.urCommandBufferAppendUSMMemcpyExp HIP.sample_driver
    (HIP.with_HIPGraphExec (Some []) HIP.sample_buffer) 10 20 8 [] =
    HIP.mk_append_result UR_RESULT_SUCCESS
      (HIP.mk_command_buffer 1 2
         (Some [HIP.mk_node
                  (HIP.MemcpyNode1D 10 20 8 HIP.hipMemcpyHostToHost) []])
         (Some []) 1 {[0 := 0%nat]} 1)
      (Some 0).
Proof. split; vm_compute; reflexivity. Qed.

End Append_after_finalize_runs.

(** ** Creation *)

Section Creation.
Variable H : HIP.hip_driver.
Variable D : OpenCL.cl_driver.

(** C6, as the code has it.
    - OpenCL: a create call that reaches the capability test (the internal
      queue is created, the native create function is found, the device
      query succeeds) with a descriptor that asks for an updatable command
      buffer, on a device that does not report support for update, returns
      invalid-operation; it writes no handle, adds no command buffer and
      does not call the native create function.
    - OpenCL: when update is not asked for or is supported, and the native
      create call and the allocation succeed, the call returns success with
      the handle of a new command buffer, which is not finalized, carries
      the flag asked for, and has an external reference count of 1.
    - HIP: the descriptor is not read; the call succeeds whenever the
      allocation and [hipGraphCreate] do, and a command buffer it returns
      with success has a reference count of 1. *)
Theorem C6_create_updatable_gate :
  (forall s ctx dev Queue,
     OpenCL.urQueueCreate D (OpenCL.trace s) ctx dev =
       (UR_RESULT_SUCCESS, Queue) ->
     OpenCL.getExtFuncFromContext D ctx OpenCL.CreateCommandBufferName
       = true ->
     OpenCL.deviceSupportsURCommandBufferKernelUpdate D dev =
       (OpenCL.CL_SUCCESS, false) ->
     OpenCL.urCommandBufferCreateExp D ctx dev (Some true) s =
       Some (UR_RESULT_ERROR_INVALID_OPERATION,
             OpenCL.issue (OpenCL.call_urQueueCreate ctx dev) s,
             OpenCL.not_written))
  /\
  (forall s ctx dev desc Queue supported,
     let requested := match desc with Some u => u | None => false end in
     let call := OpenCL.call_clCreateCommandBufferKHR Queue requested in
     let s1 := OpenCL.issue (OpenCL.call_urQueueCreate ctx dev) s in
     OpenCL.urQueueCreate D (OpenCL.trace s) ctx dev =
       (UR_RESULT_SUCCESS, Queue) ->
     OpenCL.getExtFuncFromContext D ctx OpenCL.CreateCommandBufferName
       = true ->
     OpenCL.deviceSupportsURCommandBufferKernelUpdate D dev =
       (OpenCL.CL_SUCCESS, supported) ->
     requested = false \/ supported = true ->
     OpenCL.status (OpenCL.cl_native D (OpenCL.trace s1) call) =
       OpenCL.CL_SUCCESS ->
     OpenCL.make_unique_throws D (OpenCL.trace s1 ++ [call]) = false ->
     exists b B s',
       OpenCL.urCommandBufferCreateExp D ctx dev desc s =
         Some (UR_RESULT_SUCCESS, s', OpenCL.set_to b) /\
       OpenCL.buffers s !! b = None /\
       OpenCL.buffers s' = <[b := B]> (OpenCL.buffers s) /\
       OpenCL.commands s' = OpenCL.commands s /\
       OpenCL.RefCountExternal B = 1 /\
       OpenCL.IsUpdatable B = requested /\
       OpenCL.IsFinalized B = false)
  /\
  (forall ctx dev desc,
     HIP.urCommandBufferCreateExp H ctx dev desc =
       HIP.urCommandBufferCreateExp H ctx dev None /\
     (HIP.new_throws H = None ->
      HIP.hipGraphCreate_status H = HIP.hipSuccess ->
      HIP.urCommandBufferCreateExp H ctx dev desc =
        (UR_RESULT_SUCCESS,
         Some (HIP.with_HIPGraph (Some []) (HIP.new_command_buffer ctx dev))))
     /\
     (forall B,
        HIP.urCommandBufferCreateExp H ctx dev desc =
          (UR_RESULT_SUCCESS, Some B) ->
        HIP.RefCount B = 1)).
Proof.
  split; [|split].
  - intros s ctx dev Queue HQ Hext Hdev.
    unfold OpenCL.urCommandBufferCreateExp.
    rewrite HQ. simpl. rewrite Hext. simpl. rewrite Hdev. reflexivity.
  - intros s ctx dev desc Queue supported requested call s1
      HQ Hext Hdev Hgate Hnative Halloc.
    unfold OpenCL.urCommandBufferCreateExp.
    rewrite HQ. simpl. rewrite Hext. simpl. rewrite Hdev. simpl.
    fold requested.
    assert (Hg : requested && negb supported = false).
    { destruct Hgate as [->| ->]; [done|by rewrite andb_false_r]. }
    rewrite Hg. subst call s1. simpl in Hnative, Halloc.
    rewrite Hnative. simpl. rewrite Halloc.
    eexists _, _, _. split; [reflexivity|]. simpl.
    split; [|by repeat split].
    apply not_elem_of_dom, is_fresh.
  - intros ctx dev desc. unfold HIP.urCommandBufferCreateExp.
    split; [done|]. split.
    + by intros -> ->.
    + intros B. destruct (HIP.new_throws H) as [[|]|]; try done.
      destruct (HIP.hipGraphCreate_status H =? HIP.hipSuccess); [|done].
      by intros [= <-].
Qed.

End Creation.

Section Creation_runs.

(** C6, as the claim states it, fails.  On the HIP adapter a create call
    whose descriptor asks for an updatable command buffer returns success
    and a command buffer: the adapter has no update and does not read the
    descriptor. *)
Lemma C6_counterexample :
  HIP.urCommandBufferCreateExp HIP.sample_driver 1 2 (Some true) =
    (UR_RESULT_SUCCESS, Some HIP.sample_buffer).
Proof. reflexivity. Qed.

End Creation_runs.

(** ** Enqueue *)

Section Enqueue.
Variable H : HIP.hip_driver.
Variable D : OpenCL.cl_driver.

(** C9.  Enqueue does not change the command buffer, finalized or not,
    whatever the queue, the wait list and the event slot.
    - OpenCL: for a live command buffer the call returns, and the store of
      command buffers (native handle, flags, command-handle list, both
      reference counts) and the store of command handles are the ones it was
      given; only the native enqueue is added to the calls issued.
    - HIP: whenever the call returns, the command buffer it returns (graph,
      executable graph, sync-point registry, reference count) is the one it
      was given, and it returns whenever the driver can restore the
      context of the thread. *)
Theorem C9_enqueue_leaves_command_buffer :
  (forall s b B hQueue phEventWaitList phEvent,
     OpenCL.buffers s !! b = Some B ->
     exists code s' event,
       OpenCL.urCommandBufferEnqueueExp D b hQueue phEventWaitList phEvent s
         = Some (code, s', event) /\
       OpenCL.buffers s' = OpenCL.buffers s /\
       OpenCL.commands s' = OpenCL.commands s)
  /\
  (forall B phEventWaitList phEvent T,
     (forall r,
        HIP.urCommandBufferEnqueueExp H B phEventWaitList phEvent T = Some r ->
        HIP.enq_buffer r = B) /\
     ((forall c, HIP.hipCtxSetCurrent_status H c = HIP.hipSuccess) ->
      is_Some (HIP.urCommandBufferEnqueueExp H B phEventWaitList phEvent T))).
Proof.
  split.
  - intros s b B hQueue waits phEvent HB.
    unfold OpenCL.urCommandBufferEnqueueExp. rewrite HB. simpl.
    destruct (OpenCL.getExtFuncFromContext D _ _); simpl;
      [|by eexists _, _, _].
    destruct (OpenCL.status _ =? OpenCL.CL_SUCCESS); simpl;
      by eexists _, _, _.
  - intros B waits phEvent T. unfold HIP.urCommandBufferEnqueueExp. split.
    + intros r.
      destruct (HIP.ScopedContext_enter H _ T) as [Err|[[T1 Original] Need]];
        [by intros [= <-]|].
      destruct (HIP.enqueue_body H B waits phEvent T1) as [[Result T2] Event].
      destruct (HIP.ScopedContext_leave H Original Need T2); simpl;
        [by intros [= <-]|done].
    + intros Hset.
      destruct (HIP.ScopedContext_enter H _ T) as [Err|[[T1 Original] Need]];
        [by eexists|].
      destruct (HIP.enqueue_body H B waits phEvent T1) as [[Result T2] Event].
      unfold HIP.ScopedContext_leave. rewrite Hset.
      destruct Need; simpl; by eexists.
Qed.

End Enqueue.

(** ** The theorems at the sample inputs *)

Section Witnesses.

Lemma sample_state_registered :
  OpenCL.registered 1%positive
    (OpenCL.CommandHandles OpenCL.sample_buffer) OpenCL.sample_state.
Proof.
  split.
  - apply NoDup_cons. split; [|apply NoDup_singleton].
    intros Hin. apply list_elem_of_singleton in Hin. discriminate.
  - intros c Hc. apply elem_of_cons in Hc as [->|Hc].
    + eexists. split; reflexivity.
    + apply list_elem_of_singleton in Hc as ->.
      eexists. split; reflexivity.
Defined.

(** C1 at [sample_state]: retain brings the counts to 4 and 2; release
    drops the last external reference, deletes the first handle, keeps the
    second with one reference, and leaves the buffer alive with one internal
    reference and no external one. *)
Lemma C1_witness :
  OpenCL.buffers OpenCL.sample_state !! 1%positive
    = Some OpenCL.sample_buffer /\
  OpenCL.getExtFuncFromContext OpenCL.sample_driver
    (OpenCL.hContext OpenCL.sample_buffer) OpenCL.ReleaseCommandBufferName
    = true /\
  0 <= OpenCL.RefCountInternal OpenCL.sample_buffer < UINT32_MOD /\
  OpenCL.urCommandBufferRetainExp 1%positive OpenCL.sample_state =
    Some (UR_RESULT_SUCCESS,
          OpenCL.set_buffer 1%positive
            (OpenCL.with_RefCountExternal 2
               (OpenCL.with_RefCountInternal 4 OpenCL.sample_buffer))
            OpenCL.sample_state) /\
  (exists s',
     OpenCL.urCommandBufferRetainExp 1%positive OpenCL.sample_state =
       Some (UR_RESULT_SUCCESS, s') /\
     OpenCL.buffer_with_counts 1%positive s' OpenCL.sample_buffer 4 2) /\
  exists s',
    OpenCL.urCommandBufferReleaseExp OpenCL.sample_driver 1%positive
      OpenCL.sample_state = Some (UR_RESULT_SUCCESS, s') /\
    OpenCL.buffers s' !! 1%positive =
      Some (OpenCL.with_RefCountInternal 1
              (OpenCL.with_RefCountExternal 0 OpenCL.sample_buffer)) /\
    OpenCL.buffer_with_counts 1%positive s' OpenCL.sample_buffer 1 0 /\
    OpenCL.commands s' !! 1%positive = None /\
    OpenCL.commands s' !! 2%positive =
      Some (OpenCL.mk_command 1%positive 8 3 1 1) /\
    OpenCL.trace s' = [].
Proof.
  assert (H1 : OpenCL.buffers OpenCL.sample_state !! 1%positive
               = Some OpenCL.sample_buffer) by reflexivity.
  assert (H2 : OpenCL.getExtFuncFromContext OpenCL.sample_driver
                 (OpenCL.hContext OpenCL.sample_buffer)
                 OpenCL.ReleaseCommandBufferName = true) by reflexivity.
  assert (H3 : 0 <= OpenCL.RefCountInternal OpenCL.sample_buffer
               < UINT32_MOD) by (split; [discriminate|reflexivity]).
  destruct (C1_dual_reference_count_lifecycle OpenCL.sample_driver
              OpenCL.sample_state 1%positive OpenCL.sample_buffer H1 H2 H3)
    as (Hretain & Hcounts & _ & _ & Hrelease & _).
  split; [exact H1|]. split; [exact H2|]. split; [exact H3|].
  split; [exact Hretain|].
  split.
  { destruct Hcounts as (s' & Hrun & Hc & _). exists s'.
    split; [exact Hrun|exact Hc]. }
  destruct Hrelease as (s' & Hrun & Hcmd & _ & Hkeep).
  - reflexivity.
  - exact sample_state_registered.
  - reflexivity.
  - destruct Hkeep as (Hbuf & Htrace & Hc); [vm_compute; discriminate|].
    exists s'. split; [exact Hrun|]. split; [|split; [|split; [|split]]].
    + rewrite Hbuf. reflexivity.
    + exact Hc.
    + rewrite Hcmd. reflexivity.
    + rewrite Hcmd. reflexivity.
    + exact Htrace.
Defined.

(** C7 at [sample_state] with the finalized flag cleared. *)
Lemma C7_witness :
  OpenCL.IsUpdatable (OpenCL.with_IsFinalized false OpenCL.sample_buffer)
  && OpenCL.IsFinalized (OpenCL.with_IsFinalized false OpenCL.sample_buffer)
    = false /\
  OpenCL.urCommandBufferUpdateKernelLaunchExp OpenCL.sample_driver
    1%positive OpenCL.sample_update
    (OpenCL.set_finalized 1%positive false OpenCL.sample_state) =
    Some (UR_RESULT_ERROR_INVALID_OPERATION,
          OpenCL.set_finalized 1%positive false OpenCL.sample_state).
Proof.
  split; [reflexivity|].
  apply (C7_update_requires_updatable_finalized OpenCL.sample_driver
           (OpenCL.set_finalized 1%positive false OpenCL.sample_state)
           1%positive (OpenCL.mk_command 1%positive 7 2 1 0)
           (OpenCL.with_IsFinalized false OpenCL.sample_buffer)
           OpenCL.sample_update).
  - reflexivity.
  - reflexivity.
  - reflexivity.
Defined.

(** C8 at [sample_state]: the first handle was recorded with two
    dimensions, the request asks for three. *)
Lemma C8_witness :
  OpenCL.newWorkDim OpenCL.sample_update <> 0 /\
  OpenCL.newWorkDim OpenCL.sample_update
    <> OpenCL.WorkDim (OpenCL.mk_command 1%positive 7 2 1 0) /\
  OpenCL.urCommandBufferUpdateKernelLaunchExp OpenCL.sample_driver
    1%positive OpenCL.sample_update OpenCL.sample_state =
    Some (UR_RESULT_ERROR_UNSUPPORTED_FEATURE, OpenCL.sample_state).
Proof.
  split; [discriminate|]. split; [discriminate|].
  apply (C8_update_work_dimension_mismatch OpenCL.sample_driver
           OpenCL.sample_state 1%positive
           (OpenCL.mk_command 1%positive 7 2 1 0) OpenCL.sample_buffer
           OpenCL.sample_update).
  - reflexivity.
  - reflexivity.
  - reflexivity.
  - reflexivity.
  - reflexivity.
  - constructor.
  - constructor.
  - discriminate.
  - discriminate.
Defined.

Lemma sample_driver_accepts_every_node :
  HIP.accepts_every_node HIP.sample_driver.
Proof. intros g node. reflexivity. Defined.

(** C10 at [sample_buffer]: a launch of [sample_kernel] over no work
    item. *)
Lemma C10_witness :
  HIP.urCommandBufferAppendKernelLaunchExp HIP.sample_driver
    HIP.sample_buffer HIP.sample_kernel 1 None [0] None [] =
    Some (HIP.mk_append_result UR_RESULT_SUCCESS
            (HIP.mk_command_buffer 1 2 (Some [HIP.mk_node HIP.EmptyNode []])
               None 1 (<[0 := 0%nat]> ∅) 1)
            (Some 0),
          HIP.sample_kernel).
Proof.
  apply (C10_zero_size_kernel_launch_adds_empty_node HIP.sample_driver
           HIP.sample_buffer [] HIP.sample_kernel 1 None None [0] []).
  - reflexivity.
  - reflexivity.
  - split; reflexivity.
  - constructor.
  - reflexivity.
  - reflexivity.
Defined.

(** C3 at [sample_buffer]: the 8-byte pattern gives five nodes, and the sync
    point returned, 4, is bound to the fifth. *)
Lemma C3_witness :
  HIP.enqueueCommandBufferFillHelper_sample_result =
    Some (HIP.mk_append_result UR_RESULT_SUCCESS
            (HIP.appended HIP.sample_buffer HIP.sample_fill_graph) (Some 4))
  /\ HIP.chained_to_previous 0 HIP.sample_fill_graph
  /\ HIP.SyncPoints (HIP.appended HIP.sample_buffer HIP.sample_fill_graph)
       !! 4 = Some 4%nat.
Proof.
  pose proof (C3_fill_decomposition HIP.sample_driver HIP.sample_buffer []
                HIP.sample_pattern 1000 HIP.hipMemoryTypeUnified 8 64 []
                sample_driver_accepts_every_node eq_refl
                (List.Forall_nil _) (conj eq_refl eq_refl))
    as (Hrun & _ & _ & _ & Hbig & Hbound).
  split; [exact Hrun|]. split.
  - apply Hbig. reflexivity.
  - exact Hbound.
Defined.

(** C2 at the sample inputs: a USM copy appended to the finalized
    [sample_buffer], and a buffer copy appended in [sample_state] with the
    finalized flag cleared. *)
Lemma C2_witness :
  HIP.urCommandBufferFinalizeExp HIP.sample_driver HIP.sample_buffer =
    (UR_RESULT_SUCCESS, HIP.with_HIPGraphExec (Some []) HIP.sample_buffer)
  /\
  HIP.append HIP.sample_driver (HIP.AppendUSMMemcpy 10 20 8) []
    (HIP.with_HIPGraphExec (Some []) HIP.sample_buffer) =
    HIP.on_buffer (HIP.with_HIPGraphExec (Some [])) <$>
      HIP.append HIP.sample_driver (HIP.AppendUSMMemcpy 10 20 8) []
        HIP.sample_buffer
  /\
  OpenCL.append OpenCL.sample_driver (OpenCL.AppendMemBufferCopy 11 12 0 0 8)
    [] 1%positive (OpenCL.set_finalized 1%positive false OpenCL.sample_state)
    =
    OpenCL.on_state (OpenCL.set_finalized 1%positive false) <$>
      OpenCL.append OpenCL.sample_driver
        (OpenCL.AppendMemBufferCopy 11 12 0 0 8) [] 1%positive
        OpenCL.sample_state.
Proof.
  destruct (C2_append_after_finalize_not_rejected HIP.sample_driver
              OpenCL.sample_driver) as [Hhip Hcl].
  split; [reflexivity|]. split.
  - apply (Hhip HIP.sample_buffer
             (HIP.with_HIPGraphExec (Some []) HIP.sample_buffer)
             (HIP.AppendUSMMemcpy 10 20 8) [] eq_refl).
  - apply (Hcl OpenCL.sample_state 1%positive OpenCL.sample_buffer
             (OpenCL.AppendMemBufferCopy 11 12 0 0 8) [] false eq_refl).
Defined.

(** C6 at the sample inputs: the OpenCL sample device does not support
    update. *)
Lemma C6_witness :
  OpenCL.urCommandBufferCreateExp OpenCL.sample_driver 1 2 (Some true)
    OpenCL.sample_state =
    Some (UR_RESULT_ERROR_INVALID_OPERATION,
          OpenCL.issue (OpenCL.call_urQueueCreate 1 2) OpenCL.sample_state,
          OpenCL.not_written)
  /\
  (exists b B s',
     OpenCL.urCommandBufferCreateExp OpenCL.sample_driver 1 2 (Some false)
       OpenCL.sample_state = Some (UR_RESULT_SUCCESS, s', OpenCL.set_to b) /\
     OpenCL.buffers OpenCL.sample_state !! b = None /\
     OpenCL.buffers s' = <[b := B]> (OpenCL.buffers OpenCL.sample_state) /\
     OpenCL.commands s' = OpenCL.commands OpenCL.sample_state /\
     OpenCL.RefCountExternal B = 1 /\
     OpenCL.IsUpdatable B = false /\
     OpenCL.IsFinalized B = false)
  /\
  HIP.urCommandBufferCreateExp HIP.sample_driver 1 2 (Some true) =
    (UR_RESULT_SUCCESS,
     Some (HIP.with_HIPGraph (Some []) (HIP.new_command_buffer 1 2))).
Proof.
  destruct (C6_create_updatable_gate HIP.sample_driver OpenCL.sample_driver)
    as (Hgate & Hcreate & Hhip).
  split; [|split].
  - apply (Hgate OpenCL.sample_state 1 2 5); reflexivity.
  - apply (Hcreate OpenCL.sample_state 1 2 (Some false) 5 false);
      try reflexivity.
    left. reflexivity.
  - apply (Hhip 1 2 (Some true)); reflexivity.
Defined.

(** C9 at the sample inputs. *)
Lemma C9_witness :
  (exists code s' event,
     OpenCL.urCommandBufferEnqueueExp OpenCL.sample_driver 1%positive 6 []
       true OpenCL.sample_state = Some (code, s', event) /\
     OpenCL.buffers s' = OpenCL.buffers OpenCL.sample_state /\
     OpenCL.commands s' = OpenCL.commands OpenCL.sample_state)
  /\
  is_Some (HIP.urCommandBufferEnqueueExp HIP.sample_driver HIP.sample_buffer
             [] true HIP.sample_thread).
Proof.
  destruct (C9_enqueue_leaves_command_buffer HIP.sample_driver
              OpenCL.sample_driver) as [Hcl Hhip].
  split.
  - apply (Hcl OpenCL.sample_state 1%positive OpenCL.sample_buffer 6 []
             true eq_refl).
  - apply (Hhip HIP.sample_buffer [] true HIP.sample_thread).
    intros c. reflexivity.
Defined.

End Witnesses.

(** * Further properties *)

(** ** HIP: resolving a wait list *)

Section HIP_wait_lists.
Import HIP.

Lemma getNodesFromSyncPoints_success_inv B waits :
  forall acc nodes,
    getNodesFromSyncPoints B waits acc = (UR_RESULT_SUCCESS, nodes) ->
    Forall (known_sync_point B) waits /\ nodes = acc ++ resolved B waits.
Proof.
  induction waits as [|sp waits IH]; intros acc nodes; simpl.
  - intros [= <-]. split; [constructor|]. by rewrite app_nil_r.
  - unfold resolved. simpl.
    destruct (SyncPoints B !! sp) as [n|] eqn:Hsp; [|done].
    intros Hrun. apply IH in Hrun as [Hall ->]. split.
    + constructor; [by exists n|done].
    + simpl. by rewrite <- app_assoc.
Qed.

Lemma length_resolved B waits :
  Forall (known_sync_point B) waits ->
  length (resolved B waits) = length waits.
Proof.
  induction 1 as [|sp waits [n Hn] _ IH]; [done|].
  unfold resolved in *. simpl. rewrite Hn. simpl. f_equal. exact IH.
Qed.

(** X1.  [getNodesFromSyncPoints] returns success exactly when every sync
    point of the wait list is in the registry of the command buffer, and
    invalid-value otherwise.  On success the nodes returned are the nodes the
    sync points are bound to, one per entry and in the order of the wait
    list (duplicates included). *)
Theorem X1_wait_list_resolution
    (B : ur_exp_command_buffer_handle_t_) (waits : list Z) :
  ((getNodesFromSyncPoints B waits []).1 = UR_RESULT_SUCCESS
     <-> Forall (known_sync_point B) waits)
  /\ ((getNodesFromSyncPoints B waits []).1 = UR_RESULT_ERROR_INVALID_VALUE
     <-> ~ Forall (known_sync_point B) waits)
  /\ (Forall (known_sync_point B) waits ->
      (getNodesFromSyncPoints B waits []).2 = resolved B waits /\
      length (resolved B waits) = length waits /\
      forall i sp,
        waits !! i = Some sp ->
        resolved B waits !! i = SyncPoints B !! sp).
Proof.
  split; [|split].
  - split.
    + destruct (getNodesFromSyncPoints B waits []) as [code nodes] eqn:Hrun.
      simpl. intros ->.
      apply getNodesFromSyncPoints_success_inv in Hrun as [Hall _].
      exact Hall.
    + intros Hall. by rewrite (getNodesFromSyncPoints_known B _ Hall []).
  - split.
    + intros Hcode Hall.
      rewrite (getNodesFromSyncPoints_known B _ Hall []) in Hcode.
      discriminate.
    + intros Hnot.
      destruct (getNodesFromSyncPoints_unknown B waits Hnot []) as [l ->].
      reflexivity.
  - intros Hall. rewrite (getNodesFromSyncPoints_known B _ Hall []).
    split; [done|]. split; [by apply length_resolved|].
    induction Hall as [|sp0 waits [n Hn] Hall IH];
      intros i sp Hi; [done|].
    unfold resolved in *. simpl. rewrite Hn. simpl.
    destruct i as [|i]; simpl in *.
    + injection Hi as <-. done.
    + by apply IH.
Qed.

End HIP_wait_lists.

(** ** HIP: what an append adds *)

Section HIP_append_outcomes.
Import HIP.
Variable D : hip_driver.

Lemma add_node_and_sync_point_outcome B deps p Result :
  let res := add_node_and_sync_point D B deps p Result in
  (nothing_added B res /\
   exists st, st <> hipSuccess /\ app_code res = mapErrorUR D st)
  \/
  (exists g,
     HIPGraph B = Some g /\
     res = mk_append_result Result (appended B [mk_node p deps])
             (Some (NextSyncPoint B))).
Proof.
  unfold add_node_and_sync_point, hipGraphAddNode.
  destruct (HIPGraph B) as [g|] eqn:Hg; simpl.
  - destruct (Z.eqb_spec (hipGraphAddNode_status D g (mk_node p deps))
                hipSuccess) as [Hst|Hst]; simpl.
    + right. exists g. split; [done|]. unfold appended. by rewrite Hg.
    + left. split; [done|]. by eexists.
  - left. split; [done|]. exists hipErrorInvalidValue. done.
Qed.

Lemma append_one_node_outcome B waits p OnSuccess :
  let res := append_one_node D B waits p OnSuccess in
  (nothing_added B res /\
   (failures_are_errors D -> app_code res <> UR_RESULT_SUCCESS))
  \/
  (one_node_added B waits res /\ app_code res = OnSuccess).
Proof.
  unfold append_one_node.
  destruct (getNodesFromSyncPoints B waits []) as [Result DepsList] eqn:Hrun.
  destruct (decide (Result = UR_RESULT_SUCCESS)) as [->|Hne].
  - rewrite bool_decide_eq_true_2 by done. simpl.
    apply getNodesFromSyncPoints_success_inv in Hrun as [Hall ->]. simpl.
    destruct (add_node_and_sync_point_outcome B (resolved B waits) p
                OnSuccess) as [[Hsame (st & Hst & Hcode)]|(g & Hg & ->)].
    + left. split; [done|]. intros Hmap. rewrite Hcode. by apply Hmap.
    + right. split; [|done]. by exists g, p.
  - rewrite bool_decide_eq_false_2 by done. simpl. left. by split.
Qed.

(** X2.  Every HIP append other than the two fills adds one node or
    nothing.  Either the command buffer is returned as it was and no sync
    point is written; or the wait list was resolved, exactly one node was
    added at the end of the graph with the nodes of the wait list as
    predecessors, and the sync point returned is the next one of the buffer,
    bound to that node.  The code is success or, for prefetch and advise,
    the adapter-specific code only in the second case, as long as the driver
    maps no failure status to success. *)
Theorem X2_append_adds_one_node_or_nothing
    (r : append_request) (waits : list Z)
    (B : ur_exp_command_buffer_handle_t_) (res : append_result) :
  is_fill r = false ->
  append D r waits B = Some res ->
  (nothing_added B res /\
   (failures_are_errors D -> app_code res <> UR_RESULT_SUCCESS))
  \/
  (one_node_added B waits res /\
   (app_code res = UR_RESULT_SUCCESS \/
    app_code res = UR_RESULT_ERROR_ADAPTER_SPECIFIC)).
Proof.
  intros Hfill.
  assert (Hone : forall p OnSuccess,
            OnSuccess = UR_RESULT_SUCCESS \/
            OnSuccess = UR_RESULT_ERROR_ADAPTER_SPECIFIC ->
            Some (append_one_node D B waits p OnSuccess) = Some res ->
            (nothing_added B res /\
             (failures_are_errors D -> app_code res <> UR_RESULT_SUCCESS))
            \/
            (one_node_added B waits res /\
             (app_code res = UR_RESULT_SUCCESS \/
              app_code res = UR_RESULT_ERROR_ADAPTER_SPECIFIC))).
  { intros p OnSuccess Hcode [= <-].
    destruct (append_one_node_outcome B waits p OnSuccess)
      as [Hl|[Hadd Hc]]; [by left|].
    right. split; [done|]. by rewrite Hc. }
  destruct r; simpl in *; try discriminate;
    try (apply Hone; first [by left|by right]).
  - (* kernel launch *)
    unfold urCommandBufferAppendKernelLaunchExp.
    destruct (Context B =? kernel_Context hKernel); simpl;
      [|intros [= <-]; left; by split].
    destruct (0 <? workDim); simpl; [|intros [= <-]; left; by split].
    destruct (workDim <? 4); simpl; [|intros [= <-]; left; by split].
    destruct (getNodesFromSyncPoints B waits []) as [Result DepsList]
      eqn:Hrun.
    destruct (decide (Result = UR_RESULT_SUCCESS)) as [->|Hne].
    2:{ rewrite bool_decide_eq_false_2 by done. simpl.
        intros [= <-]. left. by split. }
    rewrite bool_decide_eq_true_2 by done. simpl.
    apply getNodesFromSyncPoints_success_inv in Hrun as [Hall ->]. simpl.
    destruct (head pGlobalWorkSize) as [first|]; simpl; [|done].
    destruct (first =? 0).
    + simpl. intros [= <-].
      destruct (add_node_and_sync_point_outcome B (resolved B waits)
                  EmptyNode UR_RESULT_SUCCESS)
        as [[Hsame (st & Hst & Hcode)]|(g & Hg & ->)].
      * left. split; [done|]. intros Hmap. rewrite Hcode. by apply Hmap.
      * right. split; [by exists g, EmptyNode|by left].
    + destruct (setKernelParams D _ _ _ _ _ _) as [[R HIPFunc] [T G]].
      destruct (decide (R = UR_RESULT_SUCCESS)) as [->|HR].
      2:{ rewrite bool_decide_eq_false_2 by done. simpl.
          intros [= <-]. left. by split. }
      rewrite bool_decide_eq_true_2 by done. simpl.
      unfold hipGraphAddNode.
      destruct (HIPGraph B) as [g|] eqn:Hg.
      2:{ intros [= <-]. left. split; [done|]. intros Hmap. by apply Hmap. }
      destruct (Z.eqb_spec (hipGraphAddNode_status D g
                  (mk_node (KernelNode (mk_kernel_params HIPFunc G T
                     (LocalSize hKernel) (ArgIndices hKernel)))
                     (resolved B waits))) hipSuccess) as [Hst|Hst].
      * simpl. intros [= <-]. right. split; [|by left].
        exists g, (KernelNode (mk_kernel_params HIPFunc G T
                     (LocalSize hKernel) (ArgIndices hKernel))).
        repeat split; try done. simpl. unfold appended. by rewrite Hg.
      * intros [= <-]. left. split; [done|]. intros Hmap. by apply Hmap.
  - (* buffer copy *)
    unfold urCommandBufferAppendMemBufferCopyExp.
    destruct (wrap64 (size + dstOffset) <=? mem_Size hDstMem); simpl;
      [|intros [= <-]; left; by split].
    destruct (wrap64 (size + srcOffset) <=? mem_Size hSrcMem); simpl;
      [|intros [= <-]; left; by split].
    apply Hone. by left.
Qed.

End HIP_append_outcomes.

(** ** HIP: the graph stays acyclic and only grows *)

Section HIP_well_formed.
Import HIP.
Variable D : hip_driver.

Lemma extends_refl B : extends B B.
Proof. by repeat split. Qed.

Lemma extends_trans B1 B2 B3 : extends B1 B2 -> extends B2 B3 -> extends B1 B3.
Proof.
  intros (Hc1 & Hd1 & He1 & Hr1 & Hg1) (Hc2 & Hd2 & He2 & Hr2 & Hg2).
  repeat split; try congruence. by etrans.
Qed.

Lemma extends_length B B' :
  extends B B' -> (length (graph_nodes B) <= length (graph_nodes B'))%nat.
Proof. intros (_ & _ & _ & _ & Hg). by apply prefix_length. Qed.

Lemma sound_outcome_unchanged B code :
  well_formed B -> sound_outcome B (mk_append_result code B None).
Proof. intros Hwf. split; [done|]. split; [apply extends_refl|done]. Qed.

(** One node added and its sync point registered, under whatever token. *)
Lemma step_well_formed B deps p B1 n :
  well_formed B ->
  (forall d, d ∈ deps -> (d < length (graph_nodes B))%nat) ->
  hipGraphAddNode D B deps p = inr (B1, n) ->
  let B2 := (AddSyncPoint B1 n).2 in
  well_formed B2 /\ extends B B2 /\
  n = length (graph_nodes B) /\
  length (graph_nodes B2) = S (length (graph_nodes B)) /\
  SyncPoints B2 !! (AddSyncPoint B1 n).1 = Some n.
Proof.
  intros [Hreg Hpred] Hdeps. unfold hipGraphAddNode.
  destruct (HIPGraph B) as [g|] eqn:Hg; [|done].
  assert (HgB : graph_nodes B = g) by (unfold graph_nodes; by rewrite Hg).
  rewrite HgB in *.
  assert (Hreg' : forall sp m, SyncPoints B !! sp = Some m ->
                    (m < length g)%nat).
  { intros sp m Hlook. rewrite <- HgB. by eapply Hreg. }
  clear Hreg.
  destruct (hipGraphAddNode_status D g (mk_node p deps) =? hipSuccess);
    [|done].
  intros [= <- <-]. simpl.
  set (B2 := mk_command_buffer _ _ _ _ _ _ _).
  assert (HgB2 : graph_nodes B2 = g ++ [mk_node p deps]) by done.
  rewrite HgB2, length_app. simpl.
  split; [split|split; [repeat split|]].
  - intros sp m. subst B2. simpl. rewrite lookup_insert, HgB2, length_app.
    simpl. case_decide as Hsp.
    + intros [= <-]. lia.
    + intros Hlook. specialize (Hreg' sp m Hlook). lia.
  - rewrite HgB2. intros i node d Hlook Hd.
    destruct (decide (i < length g)%nat) as [Hi|Hi].
    + rewrite lookup_app_l in Hlook by done. by eapply Hpred.
    + rewrite lookup_app_r in Hlook by lia.
      destruct (i - length g)%nat eqn:Hk; [|done].
      injection Hlook as <-. simpl in Hd. specialize (Hdeps d Hd). lia.
  - rewrite HgB, HgB2. by apply prefix_app_r.
  - repeat split; [lia|]. subst B2. simpl. apply lookup_insert_eq.
Qed.

(** After such a step the sync point minted is bound to the new last node,
    for every command buffer [B0] the step started from or came after. *)
Lemma step_bound_to_new_last_node B0 B deps p B1 n :
  well_formed B ->
  extends B0 B ->
  (forall d, d ∈ deps -> (d < length (graph_nodes B))%nat) ->
  hipGraphAddNode D B deps p = inr (B1, n) ->
  bound_to_new_last_node B0 (AddSyncPoint B1 n).2 (AddSyncPoint B1 n).1.
Proof.
  intros Hwf Hext Hdeps Hadd.
  destruct (step_well_formed B deps p B1 n Hwf Hdeps Hadd)
    as (_ & _ & Hn & Hlen & Hlook).
  exists n. split; [exact Hlook|]. split; [by rewrite Hlen, Hn|].
  rewrite Hn. by apply extends_length.
Qed.

Lemma add_node_and_sync_point_sound B deps p Result :
  well_formed B ->
  (forall d, d ∈ deps -> (d < length (graph_nodes B))%nat) ->
  sound_outcome B (add_node_and_sync_point D B deps p Result).
Proof.
  intros Hwf Hdeps. unfold add_node_and_sync_point.
  destruct (hipGraphAddNode D B deps p) as [Err|[B1 n]] eqn:Hadd.
  - by apply sound_outcome_unchanged.
  - destruct (step_well_formed B deps p B1 n Hwf Hdeps Hadd)
      as (Hwf2 & Hext & _).
    pose proof (step_bound_to_new_last_node B B deps p B1 n Hwf
                  (extends_refl B) Hdeps Hadd) as Hbound.
    unfold AddSyncPoint in *. simpl in *.
    split; [done|]. split; [done|]. simpl. by intros x [= <-].
Qed.

(** The nodes a wait list resolves to are nodes of the graph. *)
Lemma getNodesFromSyncPoints_in_graph B waits :
  well_formed B ->
  forall acc,
    (forall d, d ∈ acc -> (d < length (graph_nodes B))%nat) ->
    forall d,
      d ∈ (getNodesFromSyncPoints B waits acc).2 ->
      (d < length (graph_nodes B))%nat.
Proof.
  intros [Hreg _]. induction waits as [|sp waits IH]; intros acc Hacc;
    simpl; [done|].
  destruct (SyncPoints B !! sp) as [n|] eqn:Hsp; [|done].
  apply IH. intros d [Hd|Hd]%elem_of_app; [by apply Hacc|].
  apply list_elem_of_singleton in Hd as ->. by eapply Hreg.
Qed.

Lemma append_one_node_sound B waits p OnSuccess :
  well_formed B ->
  sound_outcome B (append_one_node D B waits p OnSuccess).
Proof.
  intros Hwf. unfold append_one_node.
  pose proof (getNodesFromSyncPoints_in_graph B waits Hwf []) as Hdeps.
  destruct (getNodesFromSyncPoints B waits []) as [Result DepsList].
  destruct (bool_decide (Result = UR_RESULT_SUCCESS)); simpl.
  - apply add_node_and_sync_point_sound; [done|].
    apply Hdeps. intros d Hd. by apply elem_of_nil in Hd.
  - by apply sound_outcome_unchanged.
Qed.

Lemma fill_steps_sound Pattern DstPtr Size N Result Steps B0 :
  forall B HIPNodesList SyncPoint,
    well_formed B ->
    extends B0 B ->
    (forall d, d ∈ HIPNodesList -> (d < length (graph_nodes B))%nat) ->
    (forall x, SyncPoint = Some x -> bound_to_new_last_node B0 B x) ->
    sound_outcome B0
      (fill_steps D Pattern DstPtr Size N Steps B HIPNodesList SyncPoint
         Result).
Proof.
  induction Steps as [|Step Steps IH];
    intros B HIPNodesList SyncPoint Hwf Hext Hdeps Hsp; simpl.
  - by split.
  - destruct (hipGraphAddNode D B HIPNodesList _) as [Err|[B1 n]] eqn:Hadd.
    + by split.
    + destruct (step_well_formed B HIPNodesList _ B1 n Hwf Hdeps Hadd)
        as (Hwf2 & Hext2 & Hn & Hlen & _).
      pose proof (step_bound_to_new_last_node B0 B HIPNodesList _ B1 n Hwf
                    Hext Hdeps Hadd) as Hbound.
      unfold AddSyncPoint in *. simpl in *.
      apply IH.
      * done.
      * by eapply extends_trans.
      * intros d Hd. apply list_elem_of_singleton in Hd as ->. lia.
      * by intros x [= <-].
Qed.

Lemma enqueueCommandBufferFillHelper_sound B DstDevice DstType Pattern
    PatternSize Size waits res :
  well_formed B ->
  enqueueCommandBufferFillHelper D B DstDevice DstType Pattern PatternSize
    Size waits = Some res ->
  sound_outcome B res.
Proof.
  intros Hwf. unfold enqueueCommandBufferFillHelper.
  pose proof (getNodesFromSyncPoints_in_graph B waits Hwf []) as Hdeps.
  destruct (getNodesFromSyncPoints B waits []) as [Result DepsList].
  simpl in Hdeps.
  assert (Hd : forall d, d ∈ DepsList -> (d < length (graph_nodes B))%nat).
  { apply Hdeps. intros d Hd. by apply elem_of_nil in Hd. }
  destruct (PatternSize =? 0); [done|].
  destruct Pattern as [Pattern|]; [simpl|done].
  destruct ((PatternSize =? 1) || (PatternSize =? 2) || (PatternSize =? 4)).
  - intros [= <-]. by apply add_node_and_sync_point_sound.
  - destruct (2 ^ 32 <=? PatternSize / 1); [done|].
    destruct (hipGraphAddNode D B DepsList _) as [Err|[B1 n]] eqn:Hadd.
    + intros [= <-]. by apply sound_outcome_unchanged.
    + destruct (step_well_formed B DepsList _ B1 n Hwf Hd Hadd)
        as (Hwf2 & Hext2 & Hn & Hlen & _).
      pose proof (step_bound_to_new_last_node B B DepsList _ B1 n Hwf
                    (extends_refl B) Hd Hadd) as Hbound.
      unfold AddSyncPoint in *. simpl in *.
      intros [= <-]. apply fill_steps_sound.
      * done.
      * done.
      * intros d Hd'. apply list_elem_of_singleton in Hd' as ->. lia.
      * by intros x [= <-].
Qed.

Lemma append_sound r waits B res :
  well_formed B ->
  append D r waits B = Some res ->
  sound_outcome B res.
Proof.
  intros Hwf.
  destruct r; simpl;
    try (intros [= <-];
         unfold urCommandBufferAppendUSMMemcpyExp,
           urCommandBufferAppendMemBufferCopyRectExp,
           urCommandBufferAppendMemBufferWriteExp,
           urCommandBufferAppendMemBufferReadExp,
           urCommandBufferAppendMemBufferWriteRectExp,
           urCommandBufferAppendMemBufferReadRectExp,
           urCommandBufferAppendUSMPrefetchExp,
           urCommandBufferAppendUSMAdviseExp;
         by apply append_one_node_sound).
  - (* kernel launch *)
    unfold urCommandBufferAppendKernelLaunchExp.
    pose proof (getNodesFromSyncPoints_in_graph B waits Hwf []) as Hdeps.
    destruct (Context B =? kernel_Context hKernel); simpl;
      [|intros [= <-]; by apply sound_outcome_unchanged].
    destruct (0 <? workDim); simpl;
      [|intros [= <-]; by apply sound_outcome_unchanged].
    destruct (workDim <? 4); simpl;
      [|intros [= <-]; by apply sound_outcome_unchanged].
    destruct (getNodesFromSyncPoints B waits []) as [Result DepsList].
    simpl in Hdeps.
    assert (Hd : forall d, d ∈ DepsList -> (d < length (graph_nodes B))%nat).
    { apply Hdeps. intros d Hd. by apply elem_of_nil in Hd. }
    destruct (bool_decide (Result = UR_RESULT_SUCCESS)); simpl;
      [|intros [= <-]; by apply sound_outcome_unchanged].
    destruct (head pGlobalWorkSize) as [first|]; simpl; [|done].
    destruct (first =? 0).
    + simpl. intros [= <-]. by apply add_node_and_sync_point_sound.
    + destruct (setKernelParams D _ _ _ _ _ _) as [[R HIPFunc] [T G]].
      destruct (bool_decide (R = UR_RESULT_SUCCESS)); simpl;
        [|intros [= <-]; by apply sound_outcome_unchanged].
      destruct (hipGraphAddNode D B DepsList _) as [Err|[B1 n]] eqn:Hadd.
      * intros [= <-]. by apply sound_outcome_unchanged.
      * destruct (step_well_formed B DepsList _ B1 n Hwf Hd Hadd)
          as (Hwf2 & Hext2 & _).
        pose proof (step_bound_to_new_last_node B B DepsList _ B1 n Hwf
                      (extends_refl B) Hd Hadd) as Hbound.
        unfold AddSyncPoint in *. simpl in *.
        intros [= <-]. simpl. split; [done|]. split; [done|]. simpl.
        by intros x [= <-].
  - (* buffer copy *)
    unfold urCommandBufferAppendMemBufferCopyExp.
    destruct (wrap64 (size + dstOffset) <=? mem_Size hDstMem); simpl;
      [|intros [= <-]; by apply sound_outcome_unchanged].
    destruct (wrap64 (size + srcOffset) <=? mem_Size hSrcMem); simpl;
      [|intros [= <-]; by apply sound_outcome_unchanged].
    intros [= <-]. by apply append_one_node_sound.
  - (* buffer fill *)
    unfold urCommandBufferAppendMemBufferFillExp.
    destruct (patternSize =? 0); [done|].
    destruct (negb _); [intros [= <-]; by apply sound_outcome_unchanged|].
    by apply enqueueCommandBufferFillHelper_sound.
  - (* USM fill *)
    unfold urCommandBufferAppendUSMFillExp.
    destruct (negb _); [intros [= <-]; by apply sound_outcome_unchanged|].
    by apply enqueueCommandBufferFillHelper_sound.
Qed.

(** A command buffer with an empty graph and an empty registry is well
    formed, whatever its counter of sync points holds. *)
Lemma well_formed_empty B :
  HIPGraph B = Some [] -> SyncPoints B = ∅ -> well_formed B.
Proof.
  intros Hg Hs. split.
  - intros sp n. rewrite Hs. by rewrite lookup_empty.
  - unfold graph_nodes. rewrite Hg. intros i node d Hlook. by destruct i.
Qed.

Lemma record_sound rs :
  forall B B',
    well_formed B -> record D rs B = Some B' ->
    well_formed B' /\ extends B B'.
Proof.
  induction rs as [|[r waits] rs IH]; intros B B' Hwf; simpl.
  - intros [= <-]. split; [done|apply extends_refl].
  - destruct (append D r waits B) as [res|] eqn:Hres; [simpl|done].
    intros Hrec.
    destruct (append_sound r waits B res Hwf Hres) as (Hwf1 & Hext1 & _).
    destruct (IH _ _ Hwf1 Hrec) as [Hwf2 Hext2].
    split; [done|by eapply extends_trans].
Qed.

(** X3.  Recording keeps the graph acyclic.  Take a command buffer in
    which every predecessor of a node of the graph is a node added before it
    and every registered sync point is bound to a node of the graph; a
    command buffer with an empty graph and no sync point is one, whatever
    its counter of sync points holds.  After any sequence of appends, with
    any arguments and wait lists and whatever codes the appends return, the
    same holds of the result: every predecessor of a node is an earlier
    node, so the graph has no cycle, and the wait list of a later append can
    only resolve to nodes of the graph.  The nodes the graph had are still
    its first nodes, unchanged.  None of this reads the value of a sync
    point. *)
Theorem X3_recorded_graph_is_acyclic
    (B B' : ur_exp_command_buffer_handle_t_)
    (rs : list (append_request * list Z)) :
  predecessors_earlier (graph_nodes B) ->
  registry_in_graph B ->
  record D rs B = Some B' ->
  predecessors_earlier (graph_nodes B') /\ registry_in_graph B'
  /\ graph_nodes B `prefix_of` graph_nodes B'.
Proof.
  intros Hpred Hreg Hrec.
  destruct (record_sound rs B B' (conj Hreg Hpred) Hrec)
    as [[Hreg' Hpred'] (_ & _ & _ & _ & Hg)].
  by repeat split.
Qed.

(** X4.  What one append does to a well-formed command buffer, whether it
    fails or not: it never removes or changes a node of the graph (the old
    nodes are the first nodes of the new graph), it leaves the context, the
    device, the executable graph and the reference count alone, and the
    command buffer stays well formed.  A sync point it leaves in
    [*pSyncPoint] is registered and bound to the last node of the new graph,
    which is a node this append added, so that a later append can wait on
    it.  This holds for the fills as well, with their several nodes, and
    does not read the value of the sync point. *)
Theorem X4_append_only_extends
    (r : append_request) (waits : list Z)
    (B : ur_exp_command_buffer_handle_t_) (res : append_result) :
  well_formed B ->
  append D r waits B = Some res ->
  well_formed (app_buffer res) /\
  extends B (app_buffer res) /\
  forall sp,
    app_sync_point res = Some sp ->
    bound_to_new_last_node B (app_buffer res) sp /\
    known_sync_point (app_buffer res) sp.
Proof.
  intros Hwf Hrun.
  destruct (append_sound r waits B res Hwf Hrun) as (Hwf' & Hext & Hsp).
  split; [done|]. split; [done|].
  intros sp Hres. destruct (Hsp sp Hres) as (n & Hlook & Hlast & Hnew).
  split; [by exists n|]. by exists n.
Qed.

End HIP_well_formed.

(** ** HIP: fills, kernel launches, reference count *)

Section HIP_more_appends.
Import HIP.
Variable D : hip_driver.

(** X5.  The buffer fill tests that the offset or the size is a multiple of
    the pattern size (one of the two is enough).  For a pattern size other
    than 0: when neither is, the call returns invalid-size and changes
    nothing; when one is, the call is the USM fill at the address of the
    buffer plus the offset: same code, same nodes, same sync point. *)
Theorem X5_buffer_fill_is_usm_fill_at_offset
    (B : ur_exp_command_buffer_handle_t_) (hBuffer : ur_mem_handle_t_)
    (pPattern : option (Z -> Z)) (patternSize offset size : Z)
    (waits : list Z) :
  patternSize <> 0 ->
  (offset mod patternSize <> 0 /\ size mod patternSize <> 0 ->
   urCommandBufferAppendMemBufferFillExp D B hBuffer pPattern patternSize
     offset size waits =
     Some (mk_append_result UR_RESULT_ERROR_INVALID_SIZE B None))
  /\
  (offset mod patternSize = 0 \/ size mod patternSize = 0 ->
   urCommandBufferAppendMemBufferFillExp D B hBuffer pPattern patternSize
     offset size waits =
     urCommandBufferAppendUSMFillExp D B (mem_Ptr hBuffer + offset) pPattern
       patternSize size waits).
Proof.
  intros Hps. unfold urCommandBufferAppendMemBufferFillExp,
    urCommandBufferAppendUSMFillExp.
  destruct (Z.eqb_spec patternSize 0); [done|]. split.
  - intros [Ho Hs].
    destruct (Z.eqb_spec (offset mod patternSize) 0); [done|].
    destruct (Z.eqb_spec (size mod patternSize) 0); [done|]. done.
  - intros Hmult.
    assert (Hargs : (offset mod patternSize =? 0)
                    || (size mod patternSize =? 0) = true).
    { destruct Hmult as [-> | ->]; [done|by rewrite orb_true_r]. }
    rewrite Hargs. simpl.
    destruct (negb _); [done|]. reflexivity.
Qed.

(** X6.  The USM fill returns invalid-size, returns the command buffer as
    it was and writes no sync point when the pattern pointer is null or the
    pattern size, a [size_t], is not a power of two (0 included), before it
    looks at the wait list.  With a non-null pattern whose size is a power
    of two it is the fill helper, which does not return invalid-size of its
    own. *)
Theorem X6_usm_fill_pattern_validity
    (B : ur_exp_command_buffer_handle_t_) (pPtr : Z)
    (pPattern : option (Z -> Z)) (patternSize size : Z) (waits : list Z) :
  0 <= patternSize < SIZE_MOD ->
  (pPattern = None \/ ~ power_of_two patternSize ->
   urCommandBufferAppendUSMFillExp D B pPtr pPattern patternSize size waits =
     Some (mk_append_result UR_RESULT_ERROR_INVALID_SIZE B None))
  /\
  (forall Pattern,
     pPattern = Some Pattern -> power_of_two patternSize ->
     urCommandBufferAppendUSMFillExp D B pPtr pPattern patternSize size waits
       = enqueueCommandBufferFillHelper D B pPtr hipMemoryTypeUnified
           (Some Pattern) patternSize size waits).
Proof.
  intros Hrange. split.
  - by apply urCommandBufferAppendUSMFillExp_invalid.
  - intros Pattern -> Hpow.
    by apply urCommandBufferAppendUSMFillExp_valid.
Qed.

(** X7.  A kernel launch over a non-empty range, with a kernel of the
    context of the command buffer, a work dimension of 1 to 3, a wait list of
    known sync points and a driver that accepts the node.  When
    [setKernelParams] succeeds the graph gains one kernel node that launches
    the function [setKernelParams] chose with its grid and block sizes, the
    local-memory size of the kernel as shared memory and the argument table
    of the kernel, after the nodes of the wait list; the local-memory size
    of the kernel is then cleared, and nothing else of the kernel changes.
    When [setKernelParams] fails its code is returned, nothing is added and
    the kernel keeps its local-memory size. *)
Theorem X7_kernel_launch_adds_kernel_node
    (B : ur_exp_command_buffer_handle_t_) (g : list hipGraphNode)
    (hKernel : ur_kernel_handle_t_) (workDim first : Z)
    (pGlobalWorkOffset pLocalWorkSize : option (list Z))
    (rest : list Z) (waits : list Z)
    (R : ur_result_t) (HIPFunc : Z) (Threads Blocks : Z * Z * Z) :
  HIPGraph B = Some g ->
  Context B = kernel_Context hKernel ->
  0 < workDim < 4 ->
  Forall (known_sync_point B) waits ->
  first <> 0 ->
  setKernelParams D (Device B) workDim pGlobalWorkOffset (first :: rest)
    pLocalWorkSize hKernel = (R, HIPFunc, (Threads, Blocks)) ->
  accepts_every_node D ->
  let node :=
    mk_node
      (KernelNode
         (mk_kernel_params HIPFunc Blocks Threads (LocalSize hKernel)
            (ArgIndices hKernel)))
      (resolved B waits) in
  urCommandBufferAppendKernelLaunchExp D B hKernel workDim pGlobalWorkOffset
    (first :: rest) pLocalWorkSize waits =
    Some (if decide (R = UR_RESULT_SUCCESS) then
            (mk_append_result UR_RESULT_SUCCESS (appended B [node])
               (Some (NextSyncPoint B)),
             mk_kernel (kernel_Context hKernel) (kernel_Function hKernel) 0
               (ArgIndices hKernel))
          else (mk_append_result R B None, hKernel)).
Proof.
  intros Hg Hctx Hdim Hknown Hfirst Hparams Hok node.
  unfold urCommandBufferAppendKernelLaunchExp.
  rewrite Hctx, Z.eqb_refl. simpl.
  destruct (Z.ltb_spec 0 workDim); [|lia]. simpl.
  destruct (Z.ltb_spec workDim 4); [|lia]. simpl.
  rewrite (getNodesFromSyncPoints_known B _ Hknown []). simpl.
  destruct (Z.eqb_spec first 0); [done|].
  rewrite Hparams.
  destruct (decide (R = UR_RESULT_SUCCESS)) as [->|HR].
  - rewrite bool_decide_eq_true_2 by done. simpl.
    unfold hipGraphAddNode. rewrite Hg, Hok. simpl.
    unfold appended, clearLocalSize. rewrite Hg. subst node.
    destruct (Z.eqb_spec (LocalSize hKernel) 0) as [Hz|Hz]; simpl.
    + clear Hparams. destruct hKernel; simpl in *. by subst.
    + reflexivity.
  - by rewrite bool_decide_eq_false_2.
Qed.

Lemma dec32_inc32 x : 0 <= x < UINT32_MOD -> dec32 (inc32 x) = x.
Proof.
  intros Hx. unfold dec32, inc32, UINT32_MOD in *.
  destruct (Z.eq_dec x (2 ^ 32 - 1)) as [->|Hne]; [reflexivity|].
  rewrite (Z.mod_small (x + 1)) by lia.
  replace (x + 1 - 1) with x by lia. apply Z.mod_small. lia.
Qed.

Lemma inc32_dec32 x : 0 <= x < UINT32_MOD -> inc32 (dec32 x) = x.
Proof.
  intros Hx. unfold dec32, inc32, UINT32_MOD in *.
  destruct (Z.eq_dec x 0) as [->|Hne]; [reflexivity|].
  rewrite (Z.mod_small (x - 1)) by lia.
  replace (x - 1 + 1) with x by lia. apply Z.mod_small. lia.
Qed.

(** The release of the last reference is the destructor. *)
Lemma urCommandBufferReleaseExp_last
    (B : ur_exp_command_buffer_handle_t_) :
  dec32 (RefCount B) = 0 ->
  urCommandBufferReleaseExp D B =
    if destroys D B then Some (UR_RESULT_SUCCESS, None) else None.
Proof.
  intros Hz. unfold urCommandBufferReleaseExp, delete_command_buffer,
    destroys.
  rewrite Hz. simpl.
  destruct (hipGraphDestroy_status D (HIPGraph B) =? hipSuccess);
    simpl; [|done].
  by destruct (hipGraphExecDestroy_status D (HIPGraphExec B) =? hipSuccess).
Qed.

(** X8.  The reference count of a HIP command buffer, a 32-bit counter.
    Retain returns success and the same object with the count raised by one
    (wrapping to 0 at the top of the range).  A release of a count other
    than 1 returns success and the same object with the count lowered by
    one; nothing is destroyed.  A release of a count of 1 runs the
    destructor: when the driver destroys the graph and then the executable
    graph, the call returns success and the object is deleted; when the
    driver rejects one of the two handles, the error thrown in the
    destructor is not handled and the call returns no result.  A release
    after a retain gives back the command buffer as it was before the
    retain, for every count from 1 on, without reaching the destructor. *)
Theorem X8_hip_retain_release
    (B : ur_exp_command_buffer_handle_t_) :
  0 <= RefCount B < UINT32_MOD ->
  (urCommandBufferRetainExp B).1 = UR_RESULT_SUCCESS
  /\ same_but_count B (urCommandBufferRetainExp B).2 (inc32 (RefCount B))
  /\ (RefCount B <> 1 ->
      exists B',
        urCommandBufferReleaseExp D B = Some (UR_RESULT_SUCCESS, Some B')
        /\ same_but_count B B' (dec32 (RefCount B)))
  /\ (RefCount B = 1 ->
      urCommandBufferReleaseExp D B =
        if destroys D B then Some (UR_RESULT_SUCCESS, None) else None)
  /\ (0 < RefCount B ->
      urCommandBufferReleaseExp D (urCommandBufferRetainExp B).2 =
        Some (UR_RESULT_SUCCESS, Some B)).
Proof.
  intros Hrange. split; [done|]. split; [by repeat split|].
  split; [|split].
  - intros Hne. unfold urCommandBufferReleaseExp.
    destruct (Z.eqb_spec (dec32 (RefCount B)) 0) as [Hz|Hz]; simpl.
    + destruct Hne. by apply dec32_zero_iff.
    + eexists. split; [reflexivity|]. by repeat split.
  - intros H1. apply urCommandBufferReleaseExp_last. by apply dec32_zero_iff.
  - intros Hpos. unfold urCommandBufferReleaseExp, urCommandBufferRetainExp.
    simpl. rewrite dec32_inc32 by done.
    destruct (Z.eqb_spec (RefCount B) 0); [lia|]. simpl.
    do 2 f_equal. by destruct B.
Qed.



End HIP_more_appends.

(** ** HIP: enqueue *)

Section HIP_enqueue.
Import HIP.
Variable D : hip_driver.

Lemma enqueue_body_context (B : ur_exp_command_buffer_handle_t_)
    (waits : list Z) (phEvent : bool) (T : hip_thread) :
  current_context (enqueue_body D B waits phEvent T).1.2 = current_context T.
Proof.
  unfold enqueue_body.
  repeat (match goal with |- context [if ?c then _ else _] => destruct c end;
          simpl; try reflexivity).
Qed.

Lemma enqueue_body_outcome (B : ur_exp_command_buffer_handle_t_)
    (waits : list Z) (phEvent : bool) (T : hip_thread) :
  let stream := getNextComputeStream D (queue T) waits in
  let r := enqueue_body D B waits phEvent T in
  queue r.1.2 =
    mk_queue (queue_Device (queue T)) (queue_StreamToken (queue T) + 1)
  /\ (launched r.1.2 = launched T
      /\ r.2 = None
      /\ (failures_are_errors D -> r.1.1 <> UR_RESULT_SUCCESS)
      \/ launched r.1.2 = launched T ++ [(HIPGraphExec B, stream)]
         /\ hipGraphLaunch_status D (HIPGraphExec B) stream = hipSuccess
         /\ (r.2 = None /\ phEvent = true
             /\ (failures_are_errors D -> r.1.1 <> UR_RESULT_SUCCESS)
             \/ r.1.1 = UR_RESULT_SUCCESS
                /\ r.2 = (if phEvent then
                            Some (mk_event stream
                                    (queue_StreamToken (queue T)))
                          else None))).
Proof.
  intros stream r. subst r. unfold enqueue_body. fold stream.
  destruct (decide (enqueueEventsWait D (queue T) stream waits
                    = UR_RESULT_SUCCESS)) as [Hw|Hw].
  2:{ rewrite bool_decide_eq_false_2 by done. simpl.
      split; [done|]. left. by repeat split. }
  rewrite bool_decide_eq_true_2 by done. simpl.
  destruct phEvent; simpl.
  - destruct (Z.eqb_spec (event_start_status D) hipSuccess) as [Hs|Hs]; simpl.
    2:{ split; [done|]. left. repeat split; try done.
        intros Herr. by apply Herr. }
    destruct (Z.eqb_spec (hipGraphLaunch_status D (HIPGraphExec B) stream)
                hipSuccess) as [Hl|Hl]; simpl.
    2:{ split; [done|]. left. repeat split; try done.
        intros Herr. by apply Herr. }
    destruct (Z.eqb_spec (event_record_status D) hipSuccess) as [Hr|Hr];
      simpl.
    + split; [done|]. right. repeat split; try done. by right.
    + split; [done|]. right. repeat split; try done. left.
      repeat split; try done. intros Herr. by apply Herr.
  - destruct (Z.eqb_spec (hipGraphLaunch_status D (HIPGraphExec B) stream)
                hipSuccess) as [Hl|Hl]; simpl.
    2:{ split; [done|]. left. repeat split; try done.
        intros Herr. by apply Herr. }
    split; [done|]. right. repeat split; try done. by right.
Qed.

(** X9.  The context of the calling thread after enqueue.  For a queue with
    a device and a driver that can report the current context: whenever the
    call returns, with any code, the thread has the context it had before
    the call, except in one case: it had none (null) and the context of the
    device could be activated; then the context of the device stays active.
    A queue without a device gives invalid-device and leaves the thread as it
    was. *)
Theorem X9_enqueue_context_policy
    (B : ur_exp_command_buffer_handle_t_) (waits : list Z) (phEvent : bool)
    (T : hip_thread) (r : enqueue_result) :
  hipCtxGetCurrent_status D = hipSuccess ->
  urCommandBufferEnqueueExp D B waits phEvent T = Some r ->
  match queue_Device (queue T) with
  | None =>
      enq_code r = UR_RESULT_ERROR_INVALID_DEVICE /\ enq_thread r = T
      /\ enq_event r = None
  | Some dev =>
      let Desired := getNativeContext D dev in
      current_context (enq_thread r) =
        if (current_context T =? 0)
           && (hipCtxSetCurrent_status D Desired =? hipSuccess)
        then Desired else current_context T
  end.
Proof.
  intros Hget Hrun. unfold urCommandBufferEnqueueExp in Hrun.
  destruct (queue_Device (queue T)) as [dev|] eqn:Hdev; simpl in Hrun.
  2:{ by inversion Hrun. }
  rewrite Hget in Hrun. simpl in Hrun.
  set (Desired := getNativeContext D dev) in *. simpl.
  destruct (Z.eqb_spec (current_context T) Desired) as [Hsame|Hdiff];
    simpl in Hrun.
  - destruct (enqueue_body D B waits phEvent T) as [[R T2] Ev] eqn:Hbody.
    simpl in Hrun. inversion Hrun; subst r; simpl.
    pose proof (enqueue_body_context B waits phEvent T) as Hc.
    rewrite Hbody in Hc. simpl in Hc. rewrite Hc.
    destruct (Z.eqb_spec (current_context T) 0) as [Hz|Hz]; simpl; [|done].
    by destruct (_ =? _).
  - destruct (Z.eqb_spec (hipCtxSetCurrent_status D Desired) hipSuccess)
      as [Hset|Hset]; simpl in Hrun.
    2:{ inversion Hrun; subst r; simpl. by rewrite andb_false_r. }
    rewrite andb_true_r.
    destruct (Z.eqb_spec (current_context T) 0) as [Hz|Hz]; simpl in Hrun.
    + match type of Hrun with
      | context [enqueue_body D B waits phEvent ?T1] =>
          pose proof (enqueue_body_context B waits phEvent T1) as Hc;
          destruct (enqueue_body D B waits phEvent T1) as [[R T2] Ev]
      end.
      simpl in Hrun, Hc. inversion Hrun; subst r; simpl. exact Hc.
    + match type of Hrun with
      | context [enqueue_body D B waits phEvent ?T1] =>
          destruct (enqueue_body D B waits phEvent T1) as [[R T2] Ev]
      end.
      simpl in Hrun.
      destruct (hipCtxSetCurrent_status D (current_context T) =? hipSuccess);
        simpl in Hrun; [|done].
      by inversion Hrun; subst r.
Qed.

(** The outcome of enqueue: what was launched and which event was
    written. *)
Lemma enqueue_outcome
    (B : ur_exp_command_buffer_handle_t_) (waits : list Z) (phEvent : bool)
    (T : hip_thread) (r : enqueue_result) :
  urCommandBufferEnqueueExp D B waits phEvent T = Some r ->
  let stream := getNextComputeStream D (queue T) waits in
  let launch := (HIPGraphExec B, stream) in
  (launched (enq_thread r) = launched T
   \/ launched (enq_thread r) = launched T ++ [launch])
  /\ (forall e, enq_event r = Some e ->
        enq_code r = UR_RESULT_SUCCESS /\ phEvent = true
        /\ e = mk_event stream (queue_StreamToken (queue T)))
  /\ (failures_are_errors D -> enq_code r = UR_RESULT_SUCCESS ->
        launched (enq_thread r) = launched T ++ [launch]
        /\ (is_Some (enq_event r) <-> phEvent = true)).
Proof.
  intros Hrun stream launch. unfold urCommandBufferEnqueueExp in Hrun.
  destruct (ScopedContext_enter D (queue_Device (queue T)) T)
    as [Err|[[T1 Original] Need]] eqn:Henter.
  { inversion Hrun; subst r; simpl. split; [by left|]. split; [done|].
    intros Herr Hcode. exfalso. revert Henter Hcode.
    unfold ScopedContext_enter.
    destruct (queue_Device (queue T)); [|by intros [= <-]].
    destruct (Z.eqb_spec (hipCtxGetCurrent_status D) hipSuccess); simpl.
    2:{ intros [= <-]. by apply Herr. }
    destruct (_ =? _); simpl; [done|].
    destruct (Z.eqb_spec (hipCtxSetCurrent_status D
                (getNativeContext D z)) hipSuccess); simpl.
    - by destruct (_ =? _).
    - intros [= <-]. by apply Herr. }
  assert (HT1 : queue T1 = queue T /\ launched T1 = launched T).
  { revert Henter. unfold ScopedContext_enter.
    destruct (queue_Device (queue T)); [|done].
    destruct (negb (_ =? _)); [done|].
    destruct (negb (_ =? _)); [|by intros [= <- _ _]].
    destruct (negb (_ =? _)); [done|].
    destruct (_ =? _); by intros [= <- _ _]. }
  destruct HT1 as [Hq Hl].
  pose proof (enqueue_body_outcome B waits phEvent T1) as Hout.
  destruct (enqueue_body D B waits phEvent T1) as [[R T2] Ev].
  simpl in Hrun, Hout. rewrite Hq, Hl in Hout. fold stream in Hout.
  destruct (ScopedContext_leave D Original Need T2) as [T3|] eqn:Hleave;
    [|done].
  simpl in Hrun. inversion Hrun; subst r; simpl. clear Hrun.
  assert (Hl3 : launched T3 = launched T2).
  { revert Hleave. unfold ScopedContext_leave.
    destruct Need; [|by intros [= <-]].
    destruct (_ =? _); [|done]. by intros [= <-]. }
  rewrite Hl3. destruct Hout as [_ Hout].
  destruct Hout as [(Hsame & Hev & Hcode)
                   |(Hone & Hst & [(Hev & Hp & Hcode)|(Hcode & Hev)])].
  - split; [by left|]. split; [by rewrite Hev|].
    intros Herr HR. by destruct (Hcode Herr).
  - split; [by right|]. split; [by rewrite Hev|].
    intros Herr HR. by destruct (Hcode Herr).
  - split; [by right|]. split.
    + intros e He. rewrite Hev in He. destruct phEvent; [|done].
      by inversion He.
    + intros _ _. split; [done|]. rewrite Hev.
      destruct phEvent; split; try done; first [by eexists|by intros [? ?]].
Qed.

(** X10.  What enqueue submits.  Whenever the call returns, the executable
    graph of the command buffer was launched at most once, on the stream
    [getNextComputeStream] gave for the queue and the wait list, and nothing
    else was launched.  An event is written only by a call that returns
    success and was asked for one, and it is an event of that stream.  With a
    driver whose failures map to error codes, a call that returns success
    has launched the graph exactly once and has written the event if and
    only if one was asked for. *)
Theorem X10_enqueue_launches_at_most_once
    (B : ur_exp_command_buffer_handle_t_) (waits : list Z) (phEvent : bool)
    (T : hip_thread) (r : enqueue_result) :
  urCommandBufferEnqueueExp D B waits phEvent T = Some r ->
  let stream := getNextComputeStream D (queue T) waits in
  let launch := (HIPGraphExec B, stream) in
  (launched (enq_thread r) = launched T
   \/ launched (enq_thread r) = launched T ++ [launch])
  /\ (forall e, enq_event r = Some e ->
        enq_code r = UR_RESULT_SUCCESS /\ phEvent = true
        /\ event_Stream e = stream)
  /\ (failures_are_errors D -> enq_code r = UR_RESULT_SUCCESS ->
        launched (enq_thread r) = launched T ++ [launch]
        /\ (is_Some (enq_event r) <-> phEvent = true)).
Proof.
  intros Hrun stream launch.
  destruct (enqueue_outcome B waits phEvent T r Hrun) as (Hl & He & Hok).
  split; [exact Hl|]. split; [|exact Hok].
  intros e Hev. destruct (He e Hev) as (Hc & Hp & ->). by repeat split.
Qed.

End HIP_enqueue.

(** ** OpenCL: update of a kernel launch *)

Section OpenCL_update_more.
Import OpenCL.
Variable D : cl_driver.

Lemma exec_infos_spec l :
  Forall known_exec_info l ->
  forall acc, exec_infos l acc = inr (acc ++ (l ≫= native_exec_info)).
Proof.
  induction 1 as [|e l He _ IH]; intros acc; simpl.
  - by rewrite app_nil_r.
  - unfold known_exec_info in He. unfold native_exec_info at 1.
    destruct (propName e) as [| | |code]; simpl.
    + rewrite IH. by rewrite <- app_assoc.
    + rewrite IH. by rewrite <- app_assoc.
    + apply IH.
    + by destruct (He code).
Qed.

Lemma exec_infos_error l : forall acc err,
  exec_infos l acc = inl err -> err = UR_RESULT_ERROR_INVALID_ENUMERATION.
Proof.
  induction l as [|e l IH]; intros acc err; simpl; [done|].
  destruct (propName e); try apply IH. by intros [= <-].
Qed.

Lemma exec_infos_unknown l :
  Exists unknown_exec_info l ->
  forall acc, exec_infos l acc = inl UR_RESULT_ERROR_INVALID_ENUMERATION.
Proof.
  induction l as [|e l IH]; intros Hex acc; [by inversion Hex|].
  simpl. destruct (propName e) eqn:Hname; try done;
    (apply IH; inversion Hex as [? ? [code Hc]|]; subst; [congruence|done]).
Qed.

Lemma length_native_exec_infos l :
  length (l ≫= native_exec_info) = native_exec_info_count l.
Proof.
  induction l as [|e l IH]; [done|].
  change ((e :: l) ≫= native_exec_info)
    with (native_exec_info e ++ (l ≫= native_exec_info)).
  rewrite length_app, IH. simpl. unfold native_exec_info.
  by destruct (propName e).
Qed.

Lemma usm_args_spec l args :
  usm_args l = Some args -> Forall2 usm_arg_of args l.
Proof.
  revert args. induction l as [|d l IH]; intros args; simpl.
  - intros [= <-]. constructor.
  - destruct (pNewPointerArg d) as [v|] eqn:Hv; [|done]. simpl.
    destruct (usm_args l) as [rest|]; [|done]. simpl.
    intros [= <-]. constructor; [|by apply IH]. by repeat split.
Qed.

Lemma nd_range_vector_copyable n p :
  copyable n p -> nd_range_vector n p = Some (copied n p).
Proof.
  destruct p as [src|]; simpl; [|done]. intros [H3 Hlen].
  destruct (Z.ltb_spec (Z.of_nat (length src)) n); [lia|].
  destruct (Z.ltb_spec n 3); [lia|]. done.
Qed.

(** The native configuration built for command [C] from request [u] and the
    translated pointer arguments. *)
Lemma update_forwarded (s : state) (c : positive)
    (C : ur_exp_command_buffer_command_handle_t_)
    (B : ur_exp_command_buffer_handle_t_)
    (u : ur_exp_command_buffer_update_kernel_launch_desc_t) :
  commands s !! c = Some C ->
  buffers s !! hCommandBuffer C = Some B ->
  getExtFuncFromContext D (hContext B) UpdateMutableCommandsName = true ->
  IsFinalized B = true -> IsUpdatable B = true ->
  forwardable C u ->
  exists CLUSMArgs,
    Forall2 usm_arg_of CLUSMArgs (pNewPointerArgList u) /\
    let config :=
      mk_config (CLMutableCommand C)
        (memobj_args (pNewMemObjArgList u) ++
         value_args (pNewValueArgList u))
        CLUSMArgs (pNewExecInfoList u ≫= native_exec_info) (WorkDim C)
        (copied (WorkDim C) (pNewGlobalWorkOffset u))
        (copied (WorkDim C) (pNewGlobalWorkSize u))
        (copied (WorkDim C) (pNewLocalWorkSize u)) in
    let call := call_clUpdateMutableCommandsKHR (CLCommandBuffer B) config in
    let st := status (cl_native D (trace s) call) in
    urCommandBufferUpdateKernelLaunchExp D c u s =
      Some (if st =? CL_SUCCESS then UR_RESULT_SUCCESS
            else mapCLErrorToUR D st, issue call s).
Proof.
  intros HC HB Hext Hfin Hupd (Hknown & Hread & Hdim & Hoff & Hsize & Hloc).
  destruct (usm_args_readable _ Hread) as [args Hargs].
  exists args. split; [by apply usm_args_spec|].
  unfold urCommandBufferUpdateKernelLaunchExp.
  rewrite HC. simpl. rewrite HB. simpl.
  rewrite Hext, Hfin, Hupd. simpl.
  rewrite (exec_infos_spec _ Hknown []). simpl.
  rewrite Hargs. simpl.
  assert (Hd : negb (newWorkDim u =? 0) && negb (newWorkDim u =? WorkDim C)
               = false).
  { destruct Hdim as [-> | ->]; [done|].
    rewrite Z.eqb_refl. by rewrite andb_false_r. }
  rewrite Hd.
  rewrite !nd_range_vector_copyable by done. simpl.
  match goal with
  | |- context [negb (?x =? CL_SUCCESS)] => by destruct (x =? CL_SUCCESS)
  end.
Qed.

(** X11.  An update changes no object of the adapter, whatever the request
    and whatever it returns: the stores of command buffers and of command
    handles are as before (in particular the work dimension recorded in the
    handle is never replaced).  Either nothing at all happened and the code
    is an error, or exactly one native call was issued, a
    [clUpdateMutableCommandsKHR] on the native command buffer of the parent,
    which is finalized and updatable, for the native command of the handle
    and with the work dimension recorded at append time. *)
Theorem X11_update_changes_no_object (c : positive)
    (u : ur_exp_command_buffer_update_kernel_launch_desc_t)
    (s : state) (code : ur_result_t) (s' : state) :
  urCommandBufferUpdateKernelLaunchExp D c u s = Some (code, s') ->
  buffers s' = buffers s /\ commands s' = commands s /\
  (s' = s /\ code <> UR_RESULT_SUCCESS
   \/ exists C B config,
        commands s !! c = Some C
        /\ buffers s !! hCommandBuffer C = Some B
        /\ IsFinalized B = true /\ IsUpdatable B = true
        /\ (newWorkDim u = 0 \/ newWorkDim u = WorkDim C)
        /\ s' = issue (call_clUpdateMutableCommandsKHR (CLCommandBuffer B)
                         config) s
        /\ cfg_command config = CLMutableCommand C
        /\ cfg_work_dim config = WorkDim C).
Proof.
  unfold urCommandBufferUpdateKernelLaunchExp.
  destruct (commands s !! c) as [C|] eqn:HC; [|done]. simpl.
  destruct (buffers s !! hCommandBuffer C) as [B|] eqn:HB; [|done]. simpl.
  destruct (getExtFuncFromContext D (hContext B) UpdateMutableCommandsName);
    simpl; [|intros [= <- <-]; repeat split; try done; by left].
  destruct (IsFinalized B) eqn:Hfin; simpl;
    [|intros [= <- <-]; repeat split; try done; by left].
  destruct (IsUpdatable B) eqn:Hupd; simpl;
    [|intros [= <- <-]; repeat split; try done; by left].
  destruct (exec_infos (pNewExecInfoList u) []) as [err|infos] eqn:Hinfos.
  { intros [= <- <-]. repeat split; try done. left. split; [done|].
    by rewrite (exec_infos_error _ _ _ Hinfos). }
  destruct (usm_args (pNewPointerArgList u)) as [args|]; [|done]. simpl.
  destruct (Z.eqb_spec (newWorkDim u) 0) as [Hz|Hz]; simpl.
  - destruct (nd_range_vector _ (pNewGlobalWorkOffset u)) as [off|]; simpl; [|done].
    destruct (nd_range_vector _ (pNewGlobalWorkSize u)) as [size|]; simpl; [|done].
    destruct (nd_range_vector _ (pNewLocalWorkSize u)) as [loc|]; simpl; [|done].
    intros Hrun.
    assert (Hs : s' = issue (call_clUpdateMutableCommandsKHR
                   (CLCommandBuffer B)
                   (mk_config (CLMutableCommand C)
                      (memobj_args (pNewMemObjArgList u) ++
                       value_args (pNewValueArgList u)) args infos
                      (WorkDim C) off size loc)) s).
    { by destruct (negb _); inversion Hrun. }
    subst s'. repeat split; try done. right.
    exists C, B. eexists. repeat split; try done. by left.
  - destruct (Z.eqb_spec (newWorkDim u) (WorkDim C)) as [He|He]; simpl;
      [|intros [= <- <-]; repeat split; try done; by left].
    destruct (nd_range_vector _ (pNewGlobalWorkOffset u)) as [off|]; simpl; [|done].
    destruct (nd_range_vector _ (pNewGlobalWorkSize u)) as [size|]; simpl; [|done].
    destruct (nd_range_vector _ (pNewLocalWorkSize u)) as [loc|]; simpl; [|done].
    intros Hrun.
    assert (Hs : s' = issue (call_clUpdateMutableCommandsKHR
                   (CLCommandBuffer B)
                   (mk_config (CLMutableCommand C)
                      (memobj_args (pNewMemObjArgList u) ++
                       value_args (pNewValueArgList u)) args infos
                      (WorkDim C) off size loc)) s).
    { by destruct (negb _); inversion Hrun. }
    subst s'. repeat split; try done. right.
    exists C, B. eexists. repeat split; try done. by right.
Qed.

(** X12.  An update that names an exec info other than indirect access, USM
    pointers and cache configuration, anywhere in its list, on a finalized
    updatable command buffer with the update function available, returns
    invalid-enumeration and leaves the state as it was: no native call is
    issued, and the rest of the request (pointer arguments, work dimension,
    ND-range vectors) is not looked at. *)
Theorem X12_update_unknown_exec_info (s : state) (c : positive)
    (C : ur_exp_command_buffer_command_handle_t_)
    (B : ur_exp_command_buffer_handle_t_)
    (u : ur_exp_command_buffer_update_kernel_launch_desc_t) :
  commands s !! c = Some C ->
  buffers s !! hCommandBuffer C = Some B ->
  getExtFuncFromContext D (hContext B) UpdateMutableCommandsName = true ->
  IsFinalized B = true -> IsUpdatable B = true ->
  Exists unknown_exec_info (pNewExecInfoList u) ->
  urCommandBufferUpdateKernelLaunchExp D c u s =
    Some (UR_RESULT_ERROR_INVALID_ENUMERATION, s).
Proof.
  intros HC HB Hext Hfin Hupd Hex.
  unfold urCommandBufferUpdateKernelLaunchExp.
  rewrite HC. simpl. rewrite HB. simpl.
  rewrite Hext, Hfin, Hupd. simpl.
  by rewrite (exec_infos_unknown _ Hex []).
Qed.

(** X13.  What an update hands to the driver.  For a finalized updatable
    parent with the update function available and a request the adapter can
    forward (known exec-info names, readable pointer arguments, a new work
    dimension of 0 or the recorded one, ND-range vectors null or of the
    recorded dimension, which is 3 or more), the call issues one
    [clUpdateMutableCommandsKHR] and returns success or the mapped status of
    that call.  The configuration lists the memory-object arguments, each of
    the size of a [cl_mem], followed by the value arguments; one SVM argument
    of size 0 per pointer argument, in order, with the pointer read from the
    request; three native exec infos for each indirect-access entry, one for
    each USM-pointers entry and none for a cache configuration, in order;
    and the first [WorkDim] elements of each ND-range vector given. *)
Theorem X13_update_native_configuration (s : state) (c : positive)
    (C : ur_exp_command_buffer_command_handle_t_)
    (B : ur_exp_command_buffer_handle_t_)
    (u : ur_exp_command_buffer_update_kernel_launch_desc_t) :
  commands s !! c = Some C ->
  buffers s !! hCommandBuffer C = Some B ->
  getExtFuncFromContext D (hContext B) UpdateMutableCommandsName = true ->
  IsFinalized B = true -> IsUpdatable B = true ->
  forwardable C u ->
  exists config,
    let call := call_clUpdateMutableCommandsKHR (CLCommandBuffer B) config in
    let st := status (cl_native D (trace s) call) in
    urCommandBufferUpdateKernelLaunchExp D c u s =
      Some (if st =? CL_SUCCESS then UR_RESULT_SUCCESS
            else mapCLErrorToUR D st, issue call s)
    /\ cfg_command config = CLMutableCommand C
    /\ cfg_work_dim config = WorkDim C
    /\ cfg_arg_list config =
         map (fun a => mk_arg (mem_argIndex a) sizeof_cl_mem
                         (hNewMemObjArg a)) (pNewMemObjArgList u) ++
         map (fun a => mk_arg (val_argIndex a) (argSize a) (pNewValueArg a))
           (pNewValueArgList u)
    /\ Forall2 usm_arg_of (cfg_arg_svm_list config) (pNewPointerArgList u)
    /\ cfg_exec_info_list config = pNewExecInfoList u ≫= native_exec_info
    /\ length (cfg_exec_info_list config) =
         native_exec_info_count (pNewExecInfoList u)
    /\ cfg_global_work_offset config =
         copied (WorkDim C) (pNewGlobalWorkOffset u)
    /\ cfg_global_work_size config =
         copied (WorkDim C) (pNewGlobalWorkSize u)
    /\ cfg_local_work_size config =
         copied (WorkDim C) (pNewLocalWorkSize u).
Proof.
  intros HC HB Hext Hfin Hupd Hfwd.
  destruct (update_forwarded s c C B u HC HB Hext Hfin Hupd Hfwd)
    as (args & Hargs & Hrun).
  eexists. split; [exact Hrun|]. simpl.
  repeat split; try done. apply length_native_exec_infos.
Qed.

End OpenCL_update_more.

(** ** OpenCL: reference counts, creation and appends *)

Section OpenCL_objects_more.
Import OpenCL.
Variable D : cl_driver.

Lemma state_eq (s : state) bs cs :
  bs = buffers s -> cs = commands s -> mk_state bs cs (trace s) = s.
Proof. intros -> ->. by destruct s. Qed.

(** X14.  Retain followed by release of a command buffer held by its user
    (both counts at least 1) gives back the state retain started from: the
    two counts are as before, no command handle is released, nothing is
    deleted and no native call is issued.  This holds up to the top of the
    32-bit range, where retain wraps a count to 0. *)
Theorem X14_buffer_retain_release (b : positive)
    (B : ur_exp_command_buffer_handle_t_) (s : state) :
  buffers s !! b = Some B ->
  0 < RefCountExternal B < UINT32_MOD ->
  0 < RefCountInternal B < UINT32_MOD ->
  exists s1,
    urCommandBufferRetainExp b s = Some (UR_RESULT_SUCCESS, s1)
    /\ urCommandBufferReleaseExp D b s1 = Some (UR_RESULT_SUCCESS, s).
Proof.
  intros HB Hext Hint. unfold urCommandBufferRetainExp. rewrite HB. simpl.
  eexists. split; [reflexivity|].
  unfold urCommandBufferReleaseExp. simpl. rewrite lookup_insert_eq. simpl.
  rewrite dec32_inc32 by lia.
  destruct (Z.eqb_spec (RefCountExternal B) 0); [lia|]. simpl.
  unfold commandBufferReleaseInternal. simpl. rewrite lookup_insert_eq. simpl.
  rewrite dec32_inc32 by lia.
  destruct (Z.eqb_spec (RefCountInternal B) 0); [lia|]. simpl.
  do 2 f_equal. unfold set_buffer. simpl. apply state_eq; [|done].
  rewrite !insert_insert_eq.
  replace (with_RefCountInternal _ _) with B by by destruct B.
  by apply insert_id.
Qed.

(** X15.  Retain followed by release of a live command handle with an
    internal count of at least 1 gives back the state retain started from:
    the handle is not deleted and the parent command buffer is not touched. *)
Theorem X15_command_retain_release (c : positive)
    (C : ur_exp_command_buffer_command_handle_t_) (s : state) :
  commands s !! c = Some C ->
  0 <= cmdRefCountExternal C < UINT32_MOD ->
  0 < cmdRefCountInternal C < UINT32_MOD ->
  exists s1,
    urCommandBufferRetainCommandExp c s = Some (UR_RESULT_SUCCESS, s1)
    /\ urCommandBufferReleaseCommandExp D c s1 = Some (UR_RESULT_SUCCESS, s).
Proof.
  intros HC Hext Hint. unfold urCommandBufferRetainCommandExp.
  rewrite HC. simpl. eexists. split; [reflexivity|].
  unfold urCommandBufferReleaseCommandExp. simpl.
  rewrite lookup_insert_eq. simpl.
  unfold commandHandleReleaseInternal. simpl. rewrite lookup_insert_eq. simpl.
  rewrite !dec32_inc32 by lia.
  destruct (Z.eqb_spec (cmdRefCountInternal C) 0); [lia|]. simpl.
  do 2 f_equal. unfold set_command. simpl. apply state_eq; [done|].
  rewrite !insert_insert_eq.
  replace (with_cmdRefCountInternal _ _) with C by by destruct C.
  by apply insert_id.
Qed.

(** X16.  What a kernel-launch append registers.  When the call writes a
    command handle, the handle is a new object made from the command buffer,
    the native mutable command (null for a command buffer that is not
    updatable) and the work dimension of the call; it is added at the end of
    the list of command handles of the parent, whose native handles, flags
    and external count are kept; no other object changes, and the handles
    registered before stay registered.  When it writes none, both stores are
    as they were.  With a pointer for the handle, a native call that succeeds
    and an allocation that does not fail, a handle is written together with
    the sync point of the native call. *)
Theorem X16_kernel_launch_registers_handle (b : positive)
    (B : ur_exp_command_buffer_handle_t_) (hKernel workDim : Z)
    (goff gsize lsize : option (list Z)) (waits : list Z)
    (phCommandHandle : bool) (s : state) (res : append_result) :
  buffers s !! b = Some B ->
  urCommandBufferAppendKernelLaunchExp D b hKernel workDim goff gsize lsize
    waits phCommandHandle s = Some res ->
  let call :=
    call_clCommandNDRangeKernelKHR (CLCommandBuffer B) (IsUpdatable B)
      hKernel workDim goff gsize lsize waits in
  let reply := cl_native D (trace s) call in
  (forall c, app_command res = Some c ->
     app_code res = UR_RESULT_SUCCESS
     /\ commands s !! c = None
     /\ (exists C,
          commands (app_state res) = <[c := C]> (commands s)
          /\ hCommandBuffer C = b /\ WorkDim C = workDim
          /\ CLMutableCommand C =
               if IsUpdatable B then out_handle reply else 0)
     /\ (exists B',
          buffers (app_state res) = <[b := B']> (buffers s)
          /\ CommandHandles B' = CommandHandles B ++ [c]
          /\ hInternalQueue B' = hInternalQueue B
          /\ hContext B' = hContext B
          /\ CLCommandBuffer B' = CLCommandBuffer B
          /\ IsUpdatable B' = IsUpdatable B
          /\ IsFinalized B' = IsFinalized B
          /\ RefCountExternal B' = RefCountExternal B)
     /\ (registered b (CommandHandles B) s ->
         registered b (CommandHandles B ++ [c]) (app_state res)))
  /\ (app_command res = None ->
      buffers (app_state res) = buffers s
      /\ commands (app_state res) = commands s)
  /\ (getExtFuncFromContext D (hContext B) CommandNRRangeKernelName = true ->
      status reply = CL_SUCCESS ->
      make_unique_throws D (trace s ++ [call]) = false ->
      phCommandHandle = true ->
      is_Some (app_command res)
      /\ app_sync_point res = Some (out_sync_point reply)).
Proof.
  intros HB Hrun call reply.
  unfold urCommandBufferAppendKernelLaunchExp in Hrun.
  rewrite HB in Hrun. simpl in Hrun. fold call in Hrun. fold reply in Hrun.
  destruct (getExtFuncFromContext D (hContext B) CommandNRRangeKernelName)
    eqn:Hext; simpl in Hrun.
  2:{ inversion Hrun; subst res; simpl. by repeat split. }
  destruct (Z.eqb_spec (status reply) CL_SUCCESS) as [Hst|Hst];
    simpl in Hrun.
  2:{ inversion Hrun; subst res; simpl. by repeat split. }
  destruct (make_unique_throws D (trace s ++ [call])) eqn:Halloc.
  { inversion Hrun; subst res; simpl. by repeat split. }
  destruct phCommandHandle; simpl in Hrun; [|done].
  inversion Hrun; subst res; simpl. clear Hrun.
  set (c := fresh (dom (commands s))).
  assert (Hfresh : commands s !! c = None).
  { apply not_elem_of_dom. apply is_fresh. }
  split; [|split; [done|]].
  - intros c' [= <-]. do 2 (split; [done|]).
    split; [by eexists|]. split; [by eexists|].
    intros [Hnd Hlive]. split.
    + apply NoDup_app. repeat split; [done| |apply NoDup_singleton].
      intros x Hx Hx'. apply list_elem_of_singleton in Hx'. subst x.
      destruct (Hlive c Hx) as (C & HC & _). congruence.
    + intros x Hx. simpl. apply elem_of_app in Hx as [Hx|Hx].
      * destruct (Hlive x Hx) as (C & HC & Hp). exists C. split; [|done].
        rewrite lookup_insert_ne; [done|]. intros ->. congruence.
      * apply list_elem_of_singleton in Hx. subst x.
        rewrite lookup_insert_eq. by eexists.
  - intros _ _ _ _. split; [by eexists|done].
Qed.

(** X17.  Creation adds at most one object and touches no other.  Whatever
    it returns, the command handles and the command buffers that exist are
    as before, and the only calls it makes are the creation of the internal
    queue and at most one native creation: the queue is not released on any
    path, also when the call fails after making it.  A handle is written
    only with success; it names a new command buffer made from the queue
    created, the given context and the updatable flag of the descriptor (not
    updatable for a null descriptor). *)
Theorem X17_create_adds_one_object (hContext hDevice : Z)
    (pCommandBufferDesc : option bool) (s : state)
    (code : ur_result_t) (s' : state) (slot : out_slot positive) :
  urCommandBufferCreateExp D hContext hDevice pCommandBufferDesc s =
    Some (code, s', slot) ->
  commands s' = commands s
  /\ (exists calls, trace s' = trace s ++ calls
        /\ Forall (creation_call hContext hDevice) calls
        /\ (length calls <= 2)%nat)
  /\ match slot with
     | set_to b =>
         code = UR_RESULT_SUCCESS /\ buffers s !! b = None
         /\ exists B,
              buffers s' = <[b := B]> (buffers s)
              /\ hInternalQueue B =
                   (urQueueCreate D (trace s) hContext hDevice).2
              /\ OpenCL.hContext B = hContext
              /\ IsUpdatable B = default false pCommandBufferDesc
     | _ => buffers s' = buffers s
     end.
Proof.
  unfold urCommandBufferCreateExp.
  destruct (urQueueCreate D (trace s) hContext hDevice) as [QRes Queue].
  assert (Hq : creation_call hContext hDevice
                 (call_urQueueCreate hContext hDevice)) by by left.
  assert (Hc : forall q u, creation_call hContext hDevice
                 (call_clCreateCommandBufferKHR q u)).
  { intros q u. right. by exists q, u. }
  destruct (negb (bool_decide _)).
  { intros [= <- <- <-]. simpl. repeat split; try done.
    eexists. split; [done|]. split; [|simpl; lia];
      repeat first [apply List.Forall_nil|apply List.Forall_cons]; auto. }
  destruct (negb (getExtFuncFromContext _ _ _)).
  { intros [= <- <- <-]. simpl. repeat split; try done.
    eexists. split; [done|]. split; [|simpl; lia];
      repeat first [apply List.Forall_nil|apply List.Forall_cons]; auto. }
  destruct (deviceSupportsURCommandBufferKernelUpdate D hDevice)
    as [DRes Supports].
  destruct (negb (DRes =? CL_SUCCESS)).
  { intros [= <- <- <-]. simpl. repeat split; try done.
    eexists. split; [done|]. split; [|simpl; lia];
      repeat first [apply List.Forall_nil|apply List.Forall_cons]; auto. }
  destruct (_ && _).
  { intros [= <- <- <-]. simpl. repeat split; try done.
    eexists. split; [done|]. split; [|simpl; lia];
      repeat first [apply List.Forall_nil|apply List.Forall_cons]; auto. }
  simpl.
  destruct (negb (_ =? CL_SUCCESS)).
  { intros [= <- <- <-]. simpl. repeat split; try done.
    exists [call_urQueueCreate hContext hDevice;
            call_clCreateCommandBufferKHR Queue
              (match pCommandBufferDesc with Some u => u | None => false end)].
    split; [by rewrite <- app_assoc|].
    split; [|simpl; lia];
      repeat first [apply List.Forall_nil|apply List.Forall_cons]; auto. }
  destruct (make_unique_throws _ _).
  { intros [= <- <- <-]. simpl. repeat split; try done.
    exists [call_urQueueCreate hContext hDevice;
            call_clCreateCommandBufferKHR Queue
              (match pCommandBufferDesc with Some u => u | None => false end)].
    split; [by rewrite <- app_assoc|].
    split; [|simpl; lia];
      repeat first [apply List.Forall_nil|apply List.Forall_cons]; auto. }
  intros [= <- <- <-]. simpl. split; [done|]. split.
  { exists [call_urQueueCreate hContext hDevice;
            call_clCreateCommandBufferKHR Queue
              (match pCommandBufferDesc with Some u => u | None => false end)].
    split; [by rewrite <- app_assoc|].
    split; [|simpl; lia];
      repeat first [apply List.Forall_nil|apply List.Forall_cons]; auto. }
  split; [done|]. split.
  { apply not_elem_of_dom. apply is_fresh. }
  eexists. split; [done|]. simpl. by repeat split.
Qed.

(** X18.  Finalize opens the way to update.  For a live updatable command
    buffer and a driver whose failures are mapped to error codes, a finalize
    that returns success has issued the native finalize, has set the
    finalized flag and has changed nothing else; from then on an update that
    the adapter can forward through a command handle of that buffer is
    handed to the driver (before, it is refused with invalid-operation
    without a native call). *)
Theorem X18_finalize_then_update (b c : positive)
    (B : ur_exp_command_buffer_handle_t_)
    (C : ur_exp_command_buffer_command_handle_t_)
    (u : ur_exp_command_buffer_update_kernel_launch_desc_t)
    (s s' : state) :
  buffers s !! b = Some B ->
  commands s !! c = Some C ->
  hCommandBuffer C = b ->
  IsUpdatable B = true ->
  IsFinalized B = false ->
  failures_are_errors D ->
  getExtFuncFromContext D (hContext B) UpdateMutableCommandsName = true ->
  forwardable C u ->
  urCommandBufferFinalizeExp D b s = Some (UR_RESULT_SUCCESS, s') ->
  s' = set_buffer b (with_IsFinalized true B)
         (issue (call_clFinalizeCommandBufferKHR (CLCommandBuffer B)) s)
  /\ urCommandBufferUpdateKernelLaunchExp D c u s =
       Some (UR_RESULT_ERROR_INVALID_OPERATION, s)
  /\ exists config code,
       urCommandBufferUpdateKernelLaunchExp D c u s' =
         Some (code,
               issue (call_clUpdateMutableCommandsKHR (CLCommandBuffer B)
                        config) s')
       /\ cfg_command config = CLMutableCommand C.
Proof.
  intros HB HC Hparent Hupd Hnot Herr Hext Hfwd Hfin.
  assert (Hs' : s' = set_buffer b (with_IsFinalized true B)
             (issue (call_clFinalizeCommandBufferKHR (CLCommandBuffer B)) s)).
  { unfold urCommandBufferFinalizeExp in Hfin. rewrite HB in Hfin.
    simpl in Hfin.
    destruct (getExtFuncFromContext D (hContext B)
                FinalizeCommandBufferName); simpl in Hfin; [|done].
    destruct (Z.eqb_spec (status (cl_native D (trace s)
                (call_clFinalizeCommandBufferKHR (CLCommandBuffer B))))
                CL_SUCCESS) as [Hst|Hst]; simpl in Hfin.
    - by inversion Hfin.
    - inversion Hfin as [[Hcode Hstate]]. by destruct (Herr _ Hst). }
  split; [done|]. split.
  - unfold urCommandBufferUpdateKernelLaunchExp. rewrite HC. simpl.
    rewrite Hparent, HB. simpl. rewrite Hnot. simpl.
    by destruct (getExtFuncFromContext _ _ _).
  - assert (HC' : commands s' !! c = Some C) by by subst s'.
    assert (HB' : buffers s' !! hCommandBuffer C
                  = Some (with_IsFinalized true B)).
    { subst s'. simpl. rewrite Hparent. apply lookup_insert_eq. }
    destruct (update_forwarded D s' c C _ u HC' HB' Hext eq_refl Hupd Hfwd)
      as (args & _ & Hrun).
    simpl in Hrun. eexists. eexists. split; [exact Hrun|done].
Qed.

(** X19.  Every append leaves the other objects alone.  Whatever is
    appended to command buffer [b] and whatever the call returns, no command
    handle that exists is changed or removed, no other command buffer is
    changed, and at most one native call is issued.  An append other than a
    kernel launch changes no object at all and writes no command handle.
    The appends the adapter does not support (USM memcpy and fill, buffer
    read, rectangular write and read, prefetch, advise) return
    unsupported-feature on the spot, with no native call and no sync
    point. *)
Theorem X19_append_leaves_other_objects (r : append_request)
    (waits : list Z) (b : positive) (s : state) (res : append_result) :
  append D r waits b s = Some res ->
  (forall c C, commands s !! c = Some C ->
     commands (app_state res) !! c = Some C)
  /\ (forall b', b' <> b ->
        buffers (app_state res) !! b' = buffers s !! b')
  /\ (trace (app_state res) = trace s
      \/ exists call, trace (app_state res) = trace s ++ [call])
  /\ (is_kernel_launch r = false ->
      buffers (app_state res) = buffers s
      /\ commands (app_state res) = commands s
      /\ app_command res = None)
  /\ (is_unsupported r = true ->
      res = mk_append_result UR_RESULT_ERROR_UNSUPPORTED_FEATURE s None
              None).
Proof.
  assert (Hfwd : forall name mk_call res,
    forward_append D b name mk_call s = Some res ->
    buffers (app_state res) = buffers s
    /\ commands (app_state res) = commands s
    /\ app_command res = None
    /\ (trace (app_state res) = trace s
        \/ exists call, trace (app_state res) = trace s ++ [call])).
  { intros name mk_call res0. unfold forward_append.
    destruct (buffers s !! b) as [B|]; [|done]. simpl.
    destruct (negb (getExtFuncFromContext _ _ _)).
    { intros [= <-]. simpl. repeat split; try done. by left. }
    destruct (negb (_ =? _)); intros [= <-]; simpl;
      repeat split; try done; right; by eexists. }
  assert (Huns : forall res0, unsupported_append s = Some res0 ->
    res0 = mk_append_result UR_RESULT_ERROR_UNSUPPORTED_FEATURE s None None).
  { by intros res0 [= <-]. }
  intros Hrun.
  destruct r; simpl in Hrun;
    try (apply Huns in Hrun; subst res; simpl;
         repeat split; try done; by left);
    try (apply Hfwd in Hrun as (Hb & Hc & Hcmd & Htr);
         rewrite Hb, Hc; repeat split; try done);
    try done.
  (* the kernel launch *)
  unfold urCommandBufferAppendKernelLaunchExp in Hrun.
  destruct (buffers s !! b) as [B|] eqn:HB; [|done]. simpl in Hrun.
  destruct (negb (getExtFuncFromContext _ _ _)).
  { inversion Hrun; subst res; simpl. repeat split; try done. by left. }
  destruct (negb (_ =? _)).
  { inversion Hrun; subst res; simpl. repeat split; try done.
    right; by eexists. }
  destruct (make_unique_throws _ _).
  { inversion Hrun; subst res; simpl. repeat split; try done.
    right; by eexists. }
  destruct phCommandHandle; simpl in Hrun; [|done].
  inversion Hrun; subst res; simpl. clear Hrun.
  repeat split; try done.
  - intros c C HC. rewrite lookup_insert_ne; [done|]. intros Heq.
    assert (Hfresh : commands s !! fresh (dom (commands s)) = None).
    { apply not_elem_of_dom. apply is_fresh. }
    rewrite Heq in Hfresh. congruence.
  - intros b' Hne. by rewrite lookup_insert_ne.
  - right. by eexists.
Qed.

End OpenCL_objects_more.

(** ** HIP: creation, copies and the hints *)

Section HIP_creation_and_copies.
Import HIP.
Variable D : hip_driver.

Lemma append_one_node_ok (B : ur_exp_command_buffer_handle_t_)
    (g : list hipGraphNode) (waits : list Z) (p : node_params)
    (OnSuccess : ur_result_t) :
  HIPGraph B = Some g ->
  Forall (known_sync_point B) waits ->
  accepts_every_node D ->
  append_one_node D B waits p OnSuccess =
    mk_append_result OnSuccess (appended B [mk_node p (resolved B waits)])
      (Some (NextSyncPoint B)).
Proof.
  intros Hg Hknown Hok. unfold append_one_node.
  rewrite (getNodesFromSyncPoints_known B _ Hknown []). simpl.
  by apply add_node_and_sync_point_ok with g.
Qed.

(** X20.  What creation leaves behind.  The call succeeds exactly when the
    allocation and [hipGraphCreate] both succeed.  No handle is written
    exactly when the allocation fails.  When the allocation succeeds and
    [hipGraphCreate] fails, the call returns out-of-resources, yet the new
    object stays in [*phCommandBuffer]: it is not deleted and has no graph.
    Every command buffer the call leaves belongs to the given context and
    device, has a reference count of 1 and no executable graph, and has a
    graph exactly when the call succeeded.  One release of it reaches the
    destructor, which hands the driver the graph (null after a failed
    [hipGraphCreate]) and a null executable graph: the release returns
    success and deletes the object when the driver destroys both, and
    returns no result otherwise. *)
Theorem X20_hip_create_outcomes (hContext hDevice : Z)
    (pCommandBufferDesc : option bool) :
  let r := urCommandBufferCreateExp D hContext hDevice pCommandBufferDesc in
  (r.1 = UR_RESULT_SUCCESS <->
     new_throws D = None /\ hipGraphCreate_status D = hipSuccess)
  /\ (r.2 = None <-> new_throws D <> None)
  /\ (new_throws D = None -> hipGraphCreate_status D <> hipSuccess ->
      r.1 = UR_RESULT_ERROR_OUT_OF_RESOURCES
      /\ exists B, r.2 = Some B /\ HIPGraph B = None)
  /\ (forall B, r.2 = Some B ->
        Context B = hContext /\ Device B = hDevice /\ RefCount B = 1
        /\ HIPGraphExec B = None
        /\ (is_Some (HIPGraph B) <-> r.1 = UR_RESULT_SUCCESS)
        /\ urCommandBufferReleaseExp D B =
             if (hipGraphDestroy_status D (HIPGraph B) =? hipSuccess)
                && (hipGraphExecDestroy_status D None =? hipSuccess)
             then Some (UR_RESULT_SUCCESS, None) else None).
Proof.
  unfold urCommandBufferCreateExp.
  destruct (new_throws D) as [[|]|]; simpl.
  - repeat split; try done. by intros [? _].
  - repeat split; try done. by intros [? _].
  - destruct (Z.eqb_spec (hipGraphCreate_status D) hipSuccess) as [Hs|Hs];
      simpl.
    + split; [done|]. split; [split; [done|by intros []]|].
      split; [done|]. intros B [= <-]. simpl.
      do 4 (split; [done|]). split; [split; [done|by eexists]|].
      by rewrite urCommandBufferReleaseExp_last.
    + split; [split; [done|by intros [_ ?]]|].
      split; [split; [done|by intros []]|].
      split; [intros _ _; split; [done|by eexists]|].
      intros B [= <-]. simpl.
      do 4 (split; [done|]). split; [split; [by intros [? ?]|done]|].
      by rewrite urCommandBufferReleaseExp_last.
Qed.

(** X21.  A buffer copy compares the sums of the size and each offset,
    taken as [size_t] values, with the sizes of the two buffers, before it
    looks at the wait list.  For sums that do not overflow: a copy that
    leaves either buffer returns invalid-size, adds nothing and writes no
    sync point; a copy inside both, on a command buffer with a graph, a wait
    list of known sync points and a driver that accepts the node, adds one
    device-to-device copy of [size] bytes from the source pointer plus its
    offset to the destination pointer plus its offset, after the nodes of
    the wait list.  A sum that overflows is compared after wrap-around: the
    test then passes for a copy far larger than the buffers. *)
Theorem X21_buffer_copy_bounds
    (B : ur_exp_command_buffer_handle_t_) (g : list hipGraphNode)
    (hSrcMem hDstMem : ur_mem_handle_t_) (srcOffset dstOffset size : Z)
    (waits : list Z) :
  0 <= size < SIZE_MOD -> 0 <= srcOffset < SIZE_MOD ->
  0 <= dstOffset < SIZE_MOD ->
  HIPGraph B = Some g ->
  Forall (known_sync_point B) waits ->
  accepts_every_node D ->
  let copy :=
    urCommandBufferAppendMemBufferCopyExp D B hSrcMem hDstMem srcOffset
      dstOffset size in
  let recorded :=
    mk_append_result UR_RESULT_SUCCESS
      (appended B
         [mk_node
            (MemcpyNode1D (mem_Ptr hDstMem + dstOffset)
               (mem_Ptr hSrcMem + srcOffset) size hipMemcpyDeviceToDevice)
            (resolved B waits)])
      (Some (NextSyncPoint B)) in
  (size + srcOffset < SIZE_MOD -> size + dstOffset < SIZE_MOD ->
   (mem_Size hDstMem < size + dstOffset \/ mem_Size hSrcMem < size + srcOffset
    -> forall any_waits,
         copy any_waits =
           mk_append_result UR_RESULT_ERROR_INVALID_SIZE B None)
   /\ (size + dstOffset <= mem_Size hDstMem ->
       size + srcOffset <= mem_Size hSrcMem ->
       copy waits = recorded))
  /\ (SIZE_MOD <= size + dstOffset ->
      size + dstOffset - SIZE_MOD <= mem_Size hDstMem ->
      size + srcOffset <= mem_Size hSrcMem
      \/ SIZE_MOD <= size + srcOffset
         /\ size + srcOffset - SIZE_MOD <= mem_Size hSrcMem ->
      copy waits = recorded).
Proof.
  intros Hsize Hsrc Hdst Hg Hknown Hok copy recorded. subst copy recorded.
  unfold urCommandBufferAppendMemBufferCopyExp, wrap64, getPtrWithOffset.
  split.
  - intros Hs Hd. rewrite !Z.mod_small by lia. split.
    + intros Hout any_waits.
      destruct (Z.leb_spec (size + dstOffset) (mem_Size hDstMem)); simpl;
        [|done].
      destruct (Z.leb_spec (size + srcOffset) (mem_Size hSrcMem)); simpl;
        [lia|done].
    + intros Hind Hins.
      destruct (Z.leb_spec (size + dstOffset) (mem_Size hDstMem)); simpl;
        [|lia].
      destruct (Z.leb_spec (size + srcOffset) (mem_Size hSrcMem)); simpl;
        [|lia].
      by apply append_one_node_ok with g.
  - intros Hover Hd Hs.
    assert (Hw : (size + dstOffset) mod SIZE_MOD
                 = size + dstOffset - SIZE_MOD).
    { symmetry. apply (Z.mod_unique _ _ 1); lia. }
    rewrite Hw.
    assert (Hw2 : (size + srcOffset) mod SIZE_MOD <= mem_Size hSrcMem).
    { destruct Hs as [Hs|[Hs1 Hs2]].
      - pose proof (Z.mod_le (size + srcOffset) SIZE_MOD) as Hle.
        unfold SIZE_MOD in *. lia.
      - replace ((size + srcOffset) mod SIZE_MOD)
          with (size + srcOffset - SIZE_MOD); [done|].
        apply (Z.mod_unique _ _ 1); lia. }
    destruct (Z.leb_spec (size + dstOffset - SIZE_MOD) (mem_Size hDstMem));
      simpl; [|lia].
    destruct (Z.leb_spec ((size + srcOffset) mod SIZE_MOD)
                (mem_Size hSrcMem)); simpl; [|lia].
    by apply append_one_node_ok with g.
Qed.

(** X22.  Prefetch and advise record an empty node and report it as an
    error.  On a command buffer with a graph, with a wait list of known sync
    points and a driver that accepts the node, both calls add one empty node
    after the nodes of the wait list and write a new sync point bound to it,
    and both return the adapter-specific error code, not success.  With a
    sync point in the wait list that is not known they return invalid-value
    and add nothing. *)
Theorem X22_prefetch_and_advise_add_empty_node
    (B : ur_exp_command_buffer_handle_t_) (g : list hipGraphNode)
    (waits : list Z) :
  HIPGraph B = Some g ->
  accepts_every_node D ->
  (Forall (known_sync_point B) waits ->
   let recorded :=
     mk_append_result UR_RESULT_ERROR_ADAPTER_SPECIFIC
       (appended B [mk_node EmptyNode (resolved B waits)])
       (Some (NextSyncPoint B)) in
   urCommandBufferAppendUSMPrefetchExp D B waits = recorded
   /\ urCommandBufferAppendUSMAdviseExp D B waits = recorded)
  /\ (~ Forall (known_sync_point B) waits ->
      let refused := mk_append_result UR_RESULT_ERROR_INVALID_VALUE B None in
      urCommandBufferAppendUSMPrefetchExp D B waits = refused
      /\ urCommandBufferAppendUSMAdviseExp D B waits = refused).
Proof.
  intros Hg Hok. split.
  - intros Hknown recorded.
    unfold urCommandBufferAppendUSMPrefetchExp,
      urCommandBufferAppendUSMAdviseExp.
    by rewrite (append_one_node_ok B g waits _ _ Hg Hknown Hok).
  - intros Hunknown refused.
    unfold urCommandBufferAppendUSMPrefetchExp,
      urCommandBufferAppendUSMAdviseExp, append_one_node.
    pose proof (getNodesFromSyncPoints_code B waits []) as Hcode.
    destruct (getNodesFromSyncPoints B waits []) as [R nodes] eqn:Hrun.
    simpl in Hcode.
    assert (HR : R = UR_RESULT_ERROR_INVALID_VALUE).
    { destruct Hcode as [->| ->]; [|done]. destruct Hunknown.
      apply (getNodesFromSyncPoints_success_inv B waits [] nodes) in Hrun
        as [Hall _]. exact Hall. }
    subst R. done.
Qed.

End HIP_creation_and_copies.

(** ** HIP context: extended deleters *)

Section HIP_context.
Import HIPContext.

Lemma register_all_spec (l : list (Z * Z)) : forall C,
  ExtendedDeleters (register_all l C) =
    ExtendedDeleters C ++ map (fun d => mk_deleter d.1 d.2) l
  /\ RefCount (register_all l C) = RefCount C
  /\ DeviceId (register_all l C) = DeviceId C.
Proof.
  induction l as [|d l IH]; intros C; simpl.
  - by rewrite app_nil_r.
  - destruct (IH (setExtendedDeleter d.1 d.2 C)) as (He & Hr & Hd).
    unfold register_all in *. simpl. rewrite He, Hr, Hd. simpl.
    by rewrite <- app_assoc.
Qed.

(** X23.  The extended deleters of a context run in the order they were
    registered.  After registering a list of callbacks with their arguments,
    one after the other, [invokeExtendedDeleters] makes the calls it made
    before the registration followed by one call per new entry, in the order
    of registration, each with its own argument; a callback registered twice
    is called twice.  The invocation leaves the list as it is, so a second
    invocation makes the same calls again, and a registration changes
    neither the reference count nor the device. *)
Theorem X23_extended_deleters_in_order (C : ur_context_handle_t_)
    (l : list (Z * Z)) :
  let C' := register_all l C in
  (invokeExtendedDeleters C').1 = (invokeExtendedDeleters C).1 ++ l
  /\ (invokeExtendedDeleters C').2 = C'
  /\ getReferenceCount C' = getReferenceCount C
  /\ getDevice C' = getDevice C.
Proof.
  intros C'. subst C'.
  destruct (register_all_spec l C) as (He & Hr & Hd).
  unfold invokeExtendedDeleters, getReferenceCount, getDevice. simpl.
  rewrite He. repeat split; try done.
  rewrite map_app. f_equal. rewrite map_map. simpl.
  induction l as [|[f d] l IH]; [done|]. simpl. f_equal.
  apply IH; clear IH.
  - by destruct (register_all_spec l C) as (? & _ & _).
  - by destruct (register_all_spec l C) as (_ & ? & _).
  - by destruct (register_all_spec l C) as (_ & _ & ?).
Qed.

End HIP_context.

(** ** Compositions *)

Section HIP_finalize_enqueue.
Import HIP.
Variable D : hip_driver.

Lemma append_keeps_HIPGraphExec r waits B res :
  append D r waits B = Some res ->
  HIPGraphExec (app_buffer res) = HIPGraphExec B.
Proof.
  intros Hrun.
  assert (HB : B = with_HIPGraphExec (HIPGraphExec B) B) by by destruct B.
  rewrite HB in Hrun. rewrite append_with_HIPGraphExec in Hrun.
  destruct (append D r waits B) as [res'|]; [|done].
  simpl in Hrun. by inversion Hrun.
Qed.

Lemma record_keeps_HIPGraphExec rs : forall B B',
  record D rs B = Some B' -> HIPGraphExec B' = HIPGraphExec B.
Proof.
  induction rs as [|[r waits] rs IH]; intros B B'; simpl.
  - by intros [= <-].
  - destruct (append D r waits B) as [res|] eqn:Hres; [simpl|done].
    intros Hrec. rewrite (IH _ _ Hrec).
    by apply append_keeps_HIPGraphExec with r waits.
Qed.

(** X24.  Enqueue launches the graph as it was finalized.  After a finalize
    that returns success, whatever is appended to the command buffer
    afterwards, with whatever results, the executable graph of the command
    buffer is still the one the finalize instantiated, from the graph as it
    was then; an enqueue launches that one, at most once, and exactly once
    when it returns success under a driver whose failures map to error
    codes.  The nodes appended after the finalize are in the graph of the
    command buffer but not in what is launched. *)
Theorem X24_enqueue_launches_finalized_graph
    (B B1 B2 : ur_exp_command_buffer_handle_t_)
    (rs : list (append_request * list Z))
    (waits : list Z) (phEvent : bool) (T : hip_thread)
    (r : enqueue_result) :
  urCommandBufferFinalizeExp D B = (UR_RESULT_SUCCESS, B1) ->
  record D rs B1 = Some B2 ->
  urCommandBufferEnqueueExp D B2 waits phEvent T = Some r ->
  let launch := (HIPGraph B, getNextComputeStream D (queue T) waits) in
  is_Some (HIPGraph B)
  /\ HIPGraphExec B2 = HIPGraph B
  /\ (launched (enq_thread r) = launched T
      \/ launched (enq_thread r) = launched T ++ [launch])
  /\ (failures_are_errors D -> enq_code r = UR_RESULT_SUCCESS ->
      launched (enq_thread r) = launched T ++ [launch]).
Proof.
  intros Hfin Hrec Hrun launch. subst launch.
  apply urCommandBufferFinalizeExp_success in Hfin as [-> Hsome].
  apply record_keeps_HIPGraphExec in Hrec. simpl in Hrec.
  destruct (enqueue_outcome D B2 waits phEvent T r Hrun)
    as (Hl & _ & Hok).
  rewrite Hrec in Hl, Hok. repeat split; try done.
  intros Herr Hcode. by destruct (Hok Herr Hcode).
Qed.

End HIP_finalize_enqueue.

Section OpenCL_create_release.
Import OpenCL.
Variable D : cl_driver.

(** X25.  Creation followed by release.  When a creation writes a handle,
    and the native release function can be found, a release of that handle
    returns success and deletes the command buffer: the stores of command
    buffers and command handles are as before the creation, and the calls
    issued after those of the creation are the release of the internal queue
    the creation made, followed by the native release of the native command
    buffer it made.  (The constructor is the one of [new_command_buffer],
    with both counts at 1.) *)
Theorem X25_create_then_release (hContext hDevice : Z)
    (pCommandBufferDesc : option bool) (s s' : state)
    (code : ur_result_t) (b : positive) :
  urCommandBufferCreateExp D hContext hDevice pCommandBufferDesc s =
    Some (code, s', set_to b) ->
  getExtFuncFromContext D hContext ReleaseCommandBufferName = true ->
  exists B s'',
    buffers s' !! b = Some B
    /\ hInternalQueue B = (urQueueCreate D (trace s) hContext hDevice).2
    /\ urCommandBufferReleaseExp D b s' = Some (UR_RESULT_SUCCESS, s'')
    /\ buffers s'' = buffers s
    /\ commands s'' = commands s
    /\ trace s'' = trace s' ++ destructor_calls B.
Proof.
  unfold urCommandBufferCreateExp.
  destruct (urQueueCreate D (trace s) hContext hDevice) as [QRes Queue].
  destruct (negb (bool_decide _)); [done|].
  destruct (negb (getExtFuncFromContext _ _ _)); [done|].
  destruct (deviceSupportsURCommandBufferKernelUpdate D hDevice)
    as [DRes Supports].
  destruct (negb (DRes =? CL_SUCCESS)); [done|].
  destruct (_ && _); [done|]. simpl.
  destruct (negb (_ =? CL_SUCCESS)); [done|].
  destruct (make_unique_throws _ _); [done|].
  intros [= <- <- <-] Hext.
  set (b := fresh (dom (buffers s))).
  assert (Hfresh : buffers s !! b = None).
  { apply not_elem_of_dom. apply is_fresh. }
  eexists. eexists. split; [apply lookup_insert_eq|]. split; [done|].
  unfold urCommandBufferReleaseExp. simpl. rewrite lookup_insert_eq. simpl.
  unfold commandBufferReleaseInternal. simpl. rewrite lookup_insert_eq. simpl.
  unfold delete_command_buffer. simpl. rewrite lookup_insert_eq. simpl.
  rewrite Hext. split; [reflexivity|]. simpl.
  split; [|split; [done|by rewrite <- app_assoc]].
  rewrite !insert_insert_eq, delete_insert_eq. by apply delete_id.
Qed.

End OpenCL_create_release.

(** ** The further properties at sample inputs *)

Section Further_witnesses.

Lemma sample_driver_failures_are_errors :
  HIP.failures_are_errors HIP.sample_driver.
Proof. intros st _. discriminate. Defined.

Lemma cl_sample_driver_failures_are_errors :
  OpenCL.failures_are_errors OpenCL.sample_driver.
Proof. intros st _. discriminate. Defined.

Lemma argument_update_forwardable :
  OpenCL.forwardable (OpenCL.mk_command 1%positive 8 3 2 1)
    OpenCL.argument_update.
Proof.
  split; [|split; [|split; [|split; [|split]]]].
  - apply List.Forall_cons; [intros code; discriminate|].
    apply List.Forall_cons; [intros code; discriminate|].
    apply List.Forall_nil.
  - apply List.Forall_nil.
  - left. reflexivity.
  - exact I.
  - exact I.
  - exact I.
Defined.

(** X2 for a USM memcpy on [sample_buffer]. *)
Lemma X2_witness :
  let res :=
    HIP.urCommandBufferAppendUSMMemcpyExp HIP.sample_driver HIP.sample_buffer
      10 20 8 [] in
  (HIP.nothing_added HIP.sample_buffer res /\
   (HIP.failures_are_errors HIP.sample_driver ->
    HIP.app_code res <> UR_RESULT_SUCCESS))
  \/
  (HIP.one_node_added HIP.sample_buffer [] res /\
   (HIP.app_code res = UR_RESULT_SUCCESS \/
    HIP.app_code res = UR_RESULT_ERROR_ADAPTER_SPECIFIC)).
Proof.
  intros res.
  apply (X2_append_adds_one_node_or_nothing HIP.sample_driver
           (HIP.AppendUSMMemcpy 10 20 8) [] HIP.sample_buffer res).
  - reflexivity.
  - reflexivity.
Defined.

Lemma sample_buffer_well_formed : HIP.well_formed HIP.sample_buffer.
Proof. apply well_formed_empty; reflexivity. Defined.

(** X3 for a memcpy followed by a prefetch that waits on it, recorded into
    [sample_buffer]. *)
Lemma X3_witness :
  exists B',
    HIP.record HIP.sample_driver
      [(HIP.AppendUSMMemcpy 10 20 8, []); (HIP.AppendUSMPrefetch, [0])]
      HIP.sample_buffer = Some B'
    /\ HIP.predecessors_earlier (HIP.graph_nodes B')
    /\ HIP.registry_in_graph B'
    /\ HIP.graph_nodes HIP.sample_buffer `prefix_of` HIP.graph_nodes B'.
Proof.
  eexists. split; [vm_compute; reflexivity|].
  apply (X3_recorded_graph_is_acyclic HIP.sample_driver HIP.sample_buffer _
           [(HIP.AppendUSMMemcpy 10 20 8, []); (HIP.AppendUSMPrefetch, [0])]).
  - exact (proj2 sample_buffer_well_formed).
  - exact (proj1 sample_buffer_well_formed).
  - vm_compute. reflexivity.
Defined.

(** X4 for a USM memcpy on [sample_buffer]. *)
Lemma X4_witness :
  let res :=
    HIP.urCommandBufferAppendUSMMemcpyExp HIP.sample_driver HIP.sample_buffer
      10 20 8 [] in
  HIP.well_formed (HIP.app_buffer res) /\
  HIP.extends HIP.sample_buffer (HIP.app_buffer res) /\
  forall sp,
    HIP.app_sync_point res = Some sp ->
    HIP.bound_to_new_last_node HIP.sample_buffer (HIP.app_buffer res) sp /\
    HIP.known_sync_point (HIP.app_buffer res) sp.
Proof.
  intros res.
  apply (X4_append_only_extends HIP.sample_driver
           (HIP.AppendUSMMemcpy 10 20 8) [] HIP.sample_buffer res).
  - exact sample_buffer_well_formed.
  - reflexivity.
Defined.

(** X5 for a fill of 64 bytes at offset 8 of [sample_mem] with a pattern of
    4 bytes. *)
Lemma X5_witness :
  (8 mod 4 <> 0 /\ 64 mod 4 <> 0 ->
   HIP.urCommandBufferAppendMemBufferFillExp HIP.sample_driver
     HIP.sample_buffer HIP.sample_mem (Some HIP.sample_pattern) 4 8 64 [] =
     Some (HIP.mk_append_result UR_RESULT_ERROR_INVALID_SIZE
             HIP.sample_buffer None))
  /\
  (8 mod 4 = 0 \/ 64 mod 4 = 0 ->
   HIP.urCommandBufferAppendMemBufferFillExp HIP.sample_driver
     HIP.sample_buffer HIP.sample_mem (Some HIP.sample_pattern) 4 8 64 [] =
     HIP.urCommandBufferAppendUSMFillExp HIP.sample_driver HIP.sample_buffer
       (HIP.mem_Ptr HIP.sample_mem + 8) (Some HIP.sample_pattern) 4 64 []).
Proof.
  apply (X5_buffer_fill_is_usm_fill_at_offset HIP.sample_driver
           HIP.sample_buffer HIP.sample_mem (Some HIP.sample_pattern) 4 8 64
           []).
  lia.
Defined.

(** X6 for a pattern of 4 bytes. *)
Lemma X6_witness :
  (Some HIP.sample_pattern = None \/ ~ HIP.power_of_two 4 ->
   HIP.urCommandBufferAppendUSMFillExp HIP.sample_driver HIP.sample_buffer
     1000 (Some HIP.sample_pattern) 4 64 [] =
     Some (HIP.mk_append_result UR_RESULT_ERROR_INVALID_SIZE
             HIP.sample_buffer None))
  /\
  (forall Pattern,
     Some HIP.sample_pattern = Some Pattern -> HIP.power_of_two 4 ->
     HIP.urCommandBufferAppendUSMFillExp HIP.sample_driver HIP.sample_buffer
       1000 (Some HIP.sample_pattern) 4 64 []
       = HIP.enqueueCommandBufferFillHelper HIP.sample_driver
           HIP.sample_buffer 1000 HIP.hipMemoryTypeUnified (Some Pattern) 4
           64 []).
Proof.
  apply (X6_usm_fill_pattern_validity HIP.sample_driver HIP.sample_buffer
           1000 (Some HIP.sample_pattern) 4 64 []).
  unfold HIP.SIZE_MOD. lia.
Defined.

(** X7 for a launch of [sample_kernel] over 64 work items. *)
Lemma X7_witness :
  HIP.urCommandBufferAppendKernelLaunchExp HIP.sample_driver
    HIP.sample_buffer HIP.sample_kernel 1 None [64] None [] =
    Some (HIP.mk_append_result UR_RESULT_SUCCESS
            (HIP.appended HIP.sample_buffer
               [HIP.mk_node
                  (HIP.KernelNode
                     (HIP.mk_kernel_params 9 (1, 1, 1) (64, 1, 1) 16
                        [40; 48]))
                  []])
            (Some 0),
          HIP.mk_kernel 1 9 0 [40; 48]).
Proof.
  apply (X7_kernel_launch_adds_kernel_node HIP.sample_driver
           HIP.sample_buffer [] HIP.sample_kernel 1 64 None None [] []
           UR_RESULT_SUCCESS 9 (64, 1, 1) (1, 1, 1)).
  - reflexivity.
  - reflexivity.
  - lia.
  - apply List.Forall_nil.
  - lia.
  - reflexivity.
  - exact sample_driver_accepts_every_node.
Defined.

(** X8 for [finalized_buffer], whose count is 1 and whose two handles the
    driver destroys: the release deletes it. *)
Lemma X8_witness :
  HIP.urCommandBufferReleaseExp HIP.sample_driver HIP.finalized_buffer =
    Some (UR_RESULT_SUCCESS, None)
  /\ HIP.RefCount (HIP.urCommandBufferRetainExp HIP.finalized_buffer).2 = 2
  /\ HIP.urCommandBufferReleaseExp HIP.sample_driver
       (HIP.urCommandBufferRetainExp HIP.finalized_buffer).2 =
       Some (UR_RESULT_SUCCESS, Some HIP.finalized_buffer).
Proof.
  destruct (X8_hip_retain_release HIP.sample_driver HIP.finalized_buffer)
    as (_ & Hretain & _ & Hlast & Hround).
  - vm_compute. split; [discriminate|reflexivity].
  - split; [exact (Hlast eq_refl)|]. split; [exact (proj1 Hretain)|].
    apply Hround. reflexivity.
Defined.

(** X9 for a thread without a context, on which the context of device 2
    stays active, and for a thread with context 7, which is restored. *)
Lemma X9_witness :
  (exists r,
     HIP.urCommandBufferEnqueueExp HIP.sample_driver HIP.sample_buffer []
       true HIP.sample_thread = Some r
     /\ HIP.current_context (HIP.enq_thread r) = 102)
  /\ (exists r,
        HIP.urCommandBufferEnqueueExp HIP.sample_driver HIP.sample_buffer []
          true HIP.busy_thread = Some r
        /\ HIP.current_context (HIP.enq_thread r) = 7).
Proof.
  split.
  - eexists. split; [vm_compute; reflexivity|].
    exact (X9_enqueue_context_policy HIP.sample_driver HIP.sample_buffer []
             true HIP.sample_thread _ eq_refl eq_refl).
  - eexists. split; [vm_compute; reflexivity|].
    exact (X9_enqueue_context_policy HIP.sample_driver HIP.sample_buffer []
             true HIP.busy_thread _ eq_refl eq_refl).
Defined.

(** X10 for an enqueue of [sample_buffer] with an event. *)
Lemma X10_witness :
  exists r,
    HIP.urCommandBufferEnqueueExp HIP.sample_driver HIP.sample_buffer [] true
      HIP.sample_thread = Some r
    /\ (HIP.launched (HIP.enq_thread r) = []
        \/ HIP.launched (HIP.enq_thread r) = [(None, 0)])
    /\ (forall e, HIP.enq_event r = Some e ->
          HIP.enq_code r = UR_RESULT_SUCCESS /\ true = true
          /\ HIP.event_Stream e = 0)
    /\ (HIP.failures_are_errors HIP.sample_driver ->
        HIP.enq_code r = UR_RESULT_SUCCESS ->
        HIP.launched (HIP.enq_thread r) = [(None, 0)]
        /\ (is_Some (HIP.enq_event r) <-> true = true)).
Proof.
  eexists. split; [vm_compute; reflexivity|].
  exact (X10_enqueue_launches_at_most_once HIP.sample_driver
           HIP.sample_buffer [] true HIP.sample_thread _ eq_refl).
Defined.

(** X11 for [argument_update] through the second handle of
    [sample_state]. *)
Lemma X11_witness :
  exists code s',
    OpenCL.urCommandBufferUpdateKernelLaunchExp OpenCL.sample_driver
      2%positive OpenCL.argument_update OpenCL.sample_state = Some (code, s')
    /\ OpenCL.buffers s' = OpenCL.buffers OpenCL.sample_state
    /\ OpenCL.commands s' = OpenCL.commands OpenCL.sample_state.
Proof.
  eexists. eexists. split; [vm_compute; reflexivity|].
  destruct (X11_update_changes_no_object OpenCL.sample_driver 2%positive
              OpenCL.argument_update OpenCL.sample_state _ _ eq_refl)
    as (Hb & Hc & _).
  split; [exact Hb|exact Hc].
Defined.

(** X12 for [unknown_exec_info_update] through the first handle of
    [sample_state]. *)
Lemma X12_witness :
  OpenCL.urCommandBufferUpdateKernelLaunchExp OpenCL.sample_driver
    1%positive OpenCL.unknown_exec_info_update OpenCL.sample_state =
    Some (UR_RESULT_ERROR_INVALID_ENUMERATION, OpenCL.sample_state).
Proof.
  apply (X12_update_unknown_exec_info OpenCL.sample_driver
           OpenCL.sample_state 1%positive
           (OpenCL.mk_command 1%positive 7 2 1 0) OpenCL.sample_buffer
           OpenCL.unknown_exec_info_update).
  - reflexivity.
  - reflexivity.
  - reflexivity.
  - reflexivity.
  - reflexivity.
  - apply List.Exists_cons_tl. apply List.Exists_cons_hd.
    exists 99. reflexivity.
Defined.

(** X13 for [argument_update] through the second handle of
    [sample_state]: two arguments and three exec infos. *)
Lemma X13_witness :
  exists config,
    OpenCL.urCommandBufferUpdateKernelLaunchExp OpenCL.sample_driver
      2%positive OpenCL.argument_update OpenCL.sample_state =
      Some (UR_RESULT_SUCCESS,
            OpenCL.issue (OpenCL.call_clUpdateMutableCommandsKHR 7 config)
              OpenCL.sample_state)
    /\ OpenCL.cfg_command config = 8
    /\ OpenCL.cfg_work_dim config = 3
    /\ length (OpenCL.cfg_arg_list config) = 2%nat
    /\ length (OpenCL.cfg_exec_info_list config) = 3%nat.
Proof.
  destruct (X13_update_native_configuration OpenCL.sample_driver
              OpenCL.sample_state 2%positive
              (OpenCL.mk_command 1%positive 8 3 2 1) OpenCL.sample_buffer
              OpenCL.argument_update)
    as (config & Hrun & Hcmd & Hdim & Hargs & _ & _ & Hlen & _).
  - reflexivity.
  - reflexivity.
  - reflexivity.
  - reflexivity.
  - reflexivity.
  - exact argument_update_forwardable.
  - exists config. split; [exact Hrun|]. split; [exact Hcmd|].
    split; [exact Hdim|]. split; [rewrite Hargs; reflexivity|exact Hlen].
Defined.

(** X14 for the command buffer of [sample_state]. *)
Lemma X14_witness :
  exists s1,
    OpenCL.urCommandBufferRetainExp 1%positive OpenCL.sample_state =
      Some (UR_RESULT_SUCCESS, s1)
    /\ OpenCL.urCommandBufferReleaseExp OpenCL.sample_driver 1%positive s1 =
         Some (UR_RESULT_SUCCESS, OpenCL.sample_state).
Proof.
  apply (X14_buffer_retain_release OpenCL.sample_driver 1%positive
           OpenCL.sample_buffer OpenCL.sample_state).
  - reflexivity.
  - vm_compute. split; reflexivity.
  - vm_compute. split; reflexivity.
Defined.

(** X15 for the second handle of [sample_state]. *)
Lemma X15_witness :
  exists s1,
    OpenCL.urCommandBufferRetainCommandExp 2%positive OpenCL.sample_state =
      Some (UR_RESULT_SUCCESS, s1)
    /\ OpenCL.urCommandBufferReleaseCommandExp OpenCL.sample_driver
         2%positive s1 = Some (UR_RESULT_SUCCESS, OpenCL.sample_state).
Proof.
  apply (X15_command_retain_release OpenCL.sample_driver 2%positive
           (OpenCL.mk_command 1%positive 8 3 2 1) OpenCL.sample_state).
  - reflexivity.
  - vm_compute. split; [discriminate|reflexivity].
  - vm_compute. split; reflexivity.
Defined.

(** X16 for a kernel launch recorded into the command buffer of
    [sample_state]: the new handle is the third. *)
Lemma X16_witness :
  exists res,
    OpenCL.urCommandBufferAppendKernelLaunchExp OpenCL.sample_driver
      1%positive 9 3 None (Some [8; 8; 8]) None [] true OpenCL.sample_state
      = Some res
    /\ OpenCL.app_command res = Some 3%positive
    /\ OpenCL.app_code res = UR_RESULT_SUCCESS
    /\ OpenCL.registered 1%positive [1%positive; 2%positive; 3%positive]
         (OpenCL.app_state res).
Proof.
  eexists. split; [vm_compute; reflexivity|].
  destruct (X16_kernel_launch_registers_handle OpenCL.sample_driver
              1%positive OpenCL.sample_buffer 9 3 None (Some [8; 8; 8]) None
              [] true OpenCL.sample_state _ eq_refl eq_refl)
    as (Hsome & _ & _).
  destruct (Hsome 3%positive eq_refl) as (Hcode & _ & _ & _ & Hreg).
  split; [reflexivity|]. split; [exact Hcode|].
  exact (Hreg sample_state_registered).
Defined.

(** X17 for a creation in [sample_state]: the new command buffer is the
    second. *)
Lemma X17_witness :
  exists code s',
    OpenCL.urCommandBufferCreateExp OpenCL.sample_driver 1 4 (Some false)
      OpenCL.sample_state = Some (code, s', OpenCL.set_to 2%positive)
    /\ code = UR_RESULT_SUCCESS
    /\ OpenCL.commands s' = OpenCL.commands OpenCL.sample_state
    /\ OpenCL.buffers OpenCL.sample_state !! 2%positive = None.
Proof.
  eexists. eexists. split; [vm_compute; reflexivity|].
  destruct (X17_create_adds_one_object OpenCL.sample_driver 1 4 (Some false)
              OpenCL.sample_state _ _ _ eq_refl)
    as (Hc & _ & Hcode & Hfresh & _).
  split; [exact Hcode|]. split; [exact Hc|exact Hfresh].
Defined.

(** X18 for [recording_state]: the update through the second handle is
    refused before the finalize and forwarded after it. *)
Lemma X18_witness :
  exists s',
    OpenCL.urCommandBufferFinalizeExp OpenCL.sample_driver 1%positive
      OpenCL.recording_state = Some (UR_RESULT_SUCCESS, s')
    /\ OpenCL.urCommandBufferUpdateKernelLaunchExp OpenCL.sample_driver
         2%positive OpenCL.argument_update OpenCL.recording_state =
         Some (UR_RESULT_ERROR_INVALID_OPERATION, OpenCL.recording_state)
    /\ exists config code,
         OpenCL.urCommandBufferUpdateKernelLaunchExp OpenCL.sample_driver
           2%positive OpenCL.argument_update s' =
           Some (code,
                 OpenCL.issue
                   (OpenCL.call_clUpdateMutableCommandsKHR 7 config) s')
         /\ OpenCL.cfg_command config = 8.
Proof.
  assert (Hfin : exists s',
            OpenCL.urCommandBufferFinalizeExp OpenCL.sample_driver 1%positive
              OpenCL.recording_state = Some (UR_RESULT_SUCCESS, s')).
  { eexists. vm_compute. reflexivity. }
  destruct Hfin as [s' Hfin]. exists s'. split; [exact Hfin|].
  destruct (X18_finalize_then_update OpenCL.sample_driver 1%positive
              2%positive (OpenCL.with_IsFinalized false OpenCL.sample_buffer)
              (OpenCL.mk_command 1%positive 8 3 2 1) OpenCL.argument_update
              OpenCL.recording_state s')
    as (_ & Hbefore & Hafter).
  - reflexivity.
  - reflexivity.
  - reflexivity.
  - reflexivity.
  - reflexivity.
  - exact cl_sample_driver_failures_are_errors.
  - reflexivity.
  - exact argument_update_forwardable.
  - exact Hfin.
  - split; [exact Hbefore|exact Hafter].
Defined.

(** X19 for a buffer copy recorded into the command buffer of
    [sample_state]. *)
Lemma X19_witness :
  exists res,
    OpenCL.append OpenCL.sample_driver
      (OpenCL.AppendMemBufferCopy 11 12 0 0 64) [] 1%positive
      OpenCL.sample_state = Some res
    /\ OpenCL.buffers (OpenCL.app_state res)
       = OpenCL.buffers OpenCL.sample_state
    /\ OpenCL.commands (OpenCL.app_state res)
       = OpenCL.commands OpenCL.sample_state
    /\ OpenCL.app_command res = None.
Proof.
  eexists. split; [vm_compute; reflexivity|].
  destruct (X19_append_leaves_other_objects OpenCL.sample_driver
              (OpenCL.AppendMemBufferCopy 11 12 0 0 64) [] 1%positive
              OpenCL.sample_state _ eq_refl)
    as (_ & _ & _ & Hframe & _).
  exact (Hframe eq_refl).
Defined.

(** X21 for copies inside [sample_mem], which has 256 bytes: 64 bytes from
    offset 0 to offset 128 are recorded; the size 2^64 - 1 with both offsets
    at 1 passes the test as well. *)
Lemma X21_witness :
  HIP.urCommandBufferAppendMemBufferCopyExp HIP.sample_driver
    HIP.sample_buffer HIP.sample_mem HIP.sample_mem 0 128 64 [] =
    HIP.mk_append_result UR_RESULT_SUCCESS
      (HIP.appended HIP.sample_buffer
         [HIP.mk_node
            (HIP.MemcpyNode1D (4096 + 128) (4096 + 0) 64
               HIP.hipMemcpyDeviceToDevice) []])
      (Some 0)
  /\ HIP.app_code
       (HIP.urCommandBufferAppendMemBufferCopyExp HIP.sample_driver
          HIP.sample_buffer HIP.sample_mem HIP.sample_mem 1 1
          (HIP.SIZE_MOD - 1) []) = UR_RESULT_SUCCESS.
Proof.
  split.
  - destruct (X21_buffer_copy_bounds HIP.sample_driver HIP.sample_buffer []
                HIP.sample_mem HIP.sample_mem 0 128 64 [])
      as [Hin _].
    + unfold HIP.SIZE_MOD. lia.
    + unfold HIP.SIZE_MOD. lia.
    + unfold HIP.SIZE_MOD. lia.
    + reflexivity.
    + apply List.Forall_nil.
    + exact sample_driver_accepts_every_node.
    + destruct Hin as [_ Hin]; [unfold HIP.SIZE_MOD; lia ..|].
      apply Hin; simpl; lia.
  - destruct (X21_buffer_copy_bounds HIP.sample_driver HIP.sample_buffer []
                HIP.sample_mem HIP.sample_mem 1 1 (HIP.SIZE_MOD - 1) [])
      as [_ Hwrap].
    + unfold HIP.SIZE_MOD. lia.
    + unfold HIP.SIZE_MOD. lia.
    + unfold HIP.SIZE_MOD. lia.
    + reflexivity.
    + apply List.Forall_nil.
    + exact sample_driver_accepts_every_node.
    + rewrite Hwrap; [reflexivity|lia|simpl; lia|right; simpl; lia].
Defined.

(** X22 for a prefetch and an advise on [sample_buffer]. *)
Lemma X22_witness :
  let recorded :=
    HIP.mk_append_result UR_RESULT_ERROR_ADAPTER_SPECIFIC
      (HIP.appended HIP.sample_buffer [HIP.mk_node HIP.EmptyNode []])
      (Some 0) in
  HIP.urCommandBufferAppendUSMPrefetchExp HIP.sample_driver HIP.sample_buffer
    [] = recorded
  /\ HIP.urCommandBufferAppendUSMAdviseExp HIP.sample_driver
       HIP.sample_buffer [] = recorded.
Proof.
  destruct (X22_prefetch_and_advise_add_empty_node HIP.sample_driver
              HIP.sample_buffer [] [])
    as [Hknown _].
  - reflexivity.
  - exact sample_driver_accepts_every_node.
  - apply Hknown. apply List.Forall_nil.
Defined.

(** X24 for [sample_buffer]: finalized while empty, then one memcpy is
    appended; the enqueue launches the empty graph. *)
Lemma X24_witness :
  exists B1 B2 r,
    HIP.urCommandBufferFinalizeExp HIP.sample_driver HIP.sample_buffer =
      (UR_RESULT_SUCCESS, B1)
    /\ HIP.record HIP.sample_driver [(HIP.AppendUSMMemcpy 10 20 8, [])] B1
       = Some B2
    /\ HIP.urCommandBufferEnqueueExp HIP.sample_driver B2 [] false
         HIP.sample_thread = Some r
    /\ HIP.HIPGraphExec B2 = Some []
    /\ length (HIP.graph_nodes B2) = 1%nat
    /\ HIP.launched (HIP.enq_thread r) = [(Some [], 0)].
Proof.
  eexists. eexists. eexists.
  split; [vm_compute; reflexivity|].
  split; [vm_compute; reflexivity|].
  split; [vm_compute; reflexivity|].
  destruct (X24_enqueue_launches_finalized_graph HIP.sample_driver
              HIP.sample_buffer _ _
              [(HIP.AppendUSMMemcpy 10 20 8, [])] [] false HIP.sample_thread
              _ eq_refl eq_refl eq_refl)
    as (_ & Hexec & _ & Hlaunch).
  split; [exact Hexec|]. split; [reflexivity|].
  exact (Hlaunch sample_driver_failures_are_errors eq_refl).
Defined.

(** X25 for a creation in [sample_state] followed by a release. *)
Lemma X25_witness :
  exists s' B s'',
    OpenCL.urCommandBufferCreateExp OpenCL.sample_driver 1 4 None
      OpenCL.sample_state =
      Some (UR_RESULT_SUCCESS, s', OpenCL.set_to 2%positive)
    /\ OpenCL.buffers s' !! 2%positive = Some B
    /\ OpenCL.urCommandBufferReleaseExp OpenCL.sample_driver 2%positive s' =
         Some (UR_RESULT_SUCCESS, s'')
    /\ OpenCL.buffers s'' = OpenCL.buffers OpenCL.sample_state
    /\ OpenCL.trace s'' = OpenCL.trace s' ++ OpenCL.destructor_calls B.
Proof.
  assert (Hnew : exists s',
            OpenCL.urCommandBufferCreateExp OpenCL.sample_driver 1 4 None
              OpenCL.sample_state =
              Some (UR_RESULT_SUCCESS, s', OpenCL.set_to 2%positive)).
  { eexists. vm_compute. reflexivity. }
  destruct Hnew as [s' Hnew]. exists s'.
  destruct (X25_create_then_release OpenCL.sample_driver 1 4 None
              OpenCL.sample_state s' UR_RESULT_SUCCESS 2%positive)
    as (B & s'' & HB & _ & Hrel & Hbuf & _ & Htrace).
  - exact Hnew.
  - reflexivity.
  - exists B, s''. split; [exact Hnew|]. split; [exact HB|].
    split; [exact Hrel|]. split; [exact Hbuf|exact Htrace].
Defined.

End Further_witnesses.

(** ** CUDA: asynchronous allocation *)

Section CUDA_async_alloc.
Import CUDA.
Variable D : cu_driver.







End CUDA_async_alloc.

Section CUDA_witnesses.


End CUDA_witnesses.
